(** * Kleopatra local IPC transport: a shallow embedding

    The development follows the sources of the repository:

    - [Hex]: [hexencode] of [libkleopatraclient/core/command.cpp];
    - [Reader], [Writer], [KDPipeIODevice]: the ring buffer, the staging
      slot with its flush loop and the device operations (open, close,
      read, write and the questions about readiness) of
      [utils/kdpipeiodevice.cpp], and [ReadSide]: the Reader thread and
      the consumer as a transition system;
    - [UiServer]: start-up, stop logic and the registry of command
      factories of [uiserver/uiserver.cpp];
    - [Command]: the option and inquire-data accessors and
      [Command::Private::run] of [libkleopatraclient/core/command.cpp]
      (built with [HAVE_ASSUAN2], outside Windows).

    Byte strings ([std::string], [QByteArray], [const char *]) are Rocq
    [string]s, one [ascii] per byte.  Machine integers are [Z] with the
    wrap-around of their C++ type written out. *)

From Stdlib Require Import ZArith List String Ascii Bool Lia.
From stdpp Require Import base option gmap strings sorting.

Import ListNotations.
Local Open Scope string_scope.
Local Open Scope Z_scope.

(** ** Shared helpers *)

(** [unsigned char ch = *it]: the numeric value of a byte. *)
Definition uchar (c : ascii) : Z := Z.of_N (N_of_ascii c).

(** The byte with a given numeric value (taken modulo 256, as a narrowing
    conversion to [unsigned char] does). *)
Definition byte_of (z : Z) : ascii := ascii_of_N (Z.to_N (z mod 256)).

(** Every byte is one of 256 values: a property decided on all of them
    holds of each. *)
Definition all_bytes : list ascii :=
  List.map (fun n => ascii_of_nat n) (seq 0 256).

(** * hexencode *)

Module Hex.

(** The table [hex] of the sixteen upper-case hexadecimal digits. *)
Definition hex : string := "0123456789ABCDEF".

(** [hex[i]]; the index is always below 16 in [hexencode]. *)
Definition hex_at (i : Z) : ascii :=
  match String.get (Z.to_nat i) hex with
  | Some c => c
  | None => "000"%char
  end.

(** The labelled cases of the [switch]: the seven characters that share
    the [%XX] branch. *)
Definition is_escaped_case (ch : Z) : bool :=
  (ch =? 34) (* double quote *) || (ch =? 35) (* # *) || (ch =? 36) (* $ *)
  || (ch =? 37) (* % *) || (ch =? 39) (* single quote *) || (ch =? 43) (* + *)
  || (ch =? 61) (* = *).

(** One iteration of the loop of [hexencode]: what is appended to
    [result] for the byte [c].  The [default] label comes first in the
    source and, when its test fails, falls through into [case ' '], the
    label that follows it. *)
Definition hexencode_char (c : ascii) : string :=
  let ch := uchar c in
  if ch =? 32 then (* case ' ' *)
    "+"
  else if is_escaped_case ch then
    String "%" (String (hex_at (Z.shiftr (Z.land ch 240) 4))
               (String (hex_at (Z.land ch 15)) EmptyString))
  else (* default *)
    if ((33 <=? ch) && (ch <=? 126)) || (160 <? ch) then
      String c EmptyString
    else (* fall through to case ' ' *)
      "+".

Fixpoint hexencode (s : string) : string :=
  match s with
  | EmptyString => EmptyString
  | String c rest => String.append (hexencode_char c) (hexencode rest)
  end.

(** [hexencode(const QByteArray &)]: a null array gives the empty string. *)
Definition hexencode_bytes (b : option string) : string :=
  match b with
  | None => EmptyString
  | Some s => hexencode s
  end.

(** Modelled from the spec: the server-side decoder ([hexdecode] of
    [utils/hex.cpp]) is not among the sources.  The claim describes it:
    ['+'] decodes to a space, [%XX] decodes to the byte [XX], every other
    byte is literal.  A [%] that is not followed by two hexadecimal digits
    is rejected. *)
Definition unhex (c : ascii) : option Z :=
  let ch := uchar c in
  if (48 <=? ch) && (ch <=? 57) then Some (ch - 48)
  else if (65 <=? ch) && (ch <=? 70) then Some (ch - 55)
  else if (97 <=? ch) && (ch <=? 102) then Some (ch - 87)
  else None.

Fixpoint hexdecode (s : string) : option string :=
  match s with
  | EmptyString => Some EmptyString
  | String c rest =>
      if uchar c =? 43 then
        option_map (String " "%char) (hexdecode rest)
      else if uchar c =? 37 then
        match rest with
        | String h (String l rest') =>
            match unhex h, unhex l with
            | Some hv, Some lv =>
                option_map (String (byte_of (16 * hv + lv))) (hexdecode rest')
            | _, _ => None
            end
        | _ => None
        end
      else option_map (String c) (hexdecode rest)
  end.

(** The bytes that [hexencode] neither copies nor escapes: the control
    bytes, DEL and the range 0x80..0xA0. *)
Definition falls_through (c : ascii) : bool :=
  let ch := uchar c in
  negb (ch =? 32) && negb (is_escaped_case ch)
  && negb (((33 <=? ch) && (ch <=? 126)) || (160 <? ch)).

(** The characters copied unchanged decode to themselves. *)
Definition literal_ok (c : ascii) : bool :=
  let ch := uchar c in
  if ch =? 32 then true
  else if is_escaped_case ch then true
  else if ((33 <=? ch) && (ch <=? 126)) || (160 <? ch)
       then negb (ch =? 43) && negb (ch =? 37)
       else true.

(** The two digits written for an escaped byte decode to that byte. *)
Definition escape_ok (c : ascii) : bool :=
  match unhex (hex_at (Z.shiftr (Z.land (uchar c) 240) 4)),
        unhex (hex_at (Z.land (uchar c) 15)) with
  | Some hv, Some lv => Ascii.eqb (byte_of (16 * hv + lv)) c
  | _, _ => false
  end.

(** The bytes [hexencode] can write: printable ASCII other than the
    space and the five escaped punctuation marks that are not part of an
    escape, or a byte above 0xA0. *)
Definition token_char (c : ascii) : bool :=
  let ch := uchar c in
  (((33 <=? ch) && (ch <=? 126)) || (160 <? ch))
  && negb ((ch =? 34) || (ch =? 35) || (ch =? 36) || (ch =? 39) || (ch =? 61)).

(** Every byte of a string satisfies [p]. *)
Fixpoint string_forall (p : ascii -> bool) (s : string) : bool :=
  match s with
  | EmptyString => true
  | String c rest => p c && string_forall p rest
  end.

End Hex.

(** * The pipe device: Reader, Writer, KDPipeIODevice *)

Definition BUFFER_SIZE : Z := 4096.
Definition ALLOW_QIODEVICE_BUFFERING : bool := true.

(** Wrap-around of [unsigned int] and of [size_t] (64 bits). *)
Definition u32 (x : Z) : Z := x mod 2 ^ 32.
Definition u64 (x : Z) : Z := x mod 2 ^ 64.

(** What the operating system answers to one [::read(fd, buf, n)], after
    the [EINTR] retries: the return value, the bytes it stored and
    [errno]. *)
Record os_read := OsRead { numRead : Z; bytesRead : list ascii; errno : Z }.

(** The contract of [::read]: [-1] on error, otherwise between [0] and
    the requested size, with as many bytes stored. *)
Definition os_read_ok (numBytes : Z) (res : os_read) : Prop :=
  numRead res = -1 \/
  (0 <= numRead res <= numBytes /\
   Z.of_nat (length (bytesRead res)) = numRead res).

(** [memcpy(dst + pos, src, length src)] on a byte array. *)
Definition store (dst : list ascii) (pos : Z) (src : list ascii) : list ascii :=
  firstn (Z.to_nat pos) dst ++ src
    ++ skipn (Z.to_nat pos + length src) dst.

(** The [n] bytes at [src + pos]. *)
Definition fetch (src : list ascii) (pos n : Z) : list ascii :=
  firstn (Z.to_nat n) (skipn (Z.to_nat pos) src).

Module Reader.

(** [sizeof buffer] for [char buffer[BUFFER_SIZE + 1]]. *)
Definition sizeof_buffer : Z := BUFFER_SIZE + 1.

Record t := Make {
  fd : Z;
  handle : Z;
  cancel : bool;
  eof : bool;
  error : bool;
  eofShortCut : bool;
  errorCode : Z;
  isReading : bool;
  consumerBlocksOnUs : bool;
  rptr : Z;
  wptr : Z;
  buffer : list ascii
}.

(** [Reader::Reader(fd_, handle_)].  The array is not initialised by the
    constructor; its content is irrelevant until written and is taken to
    be zero bytes. *)
Definition new (fd_ handle_ : Z) : t :=
  {| fd := fd_; handle := handle_; cancel := false; eof := false;
     error := false; eofShortCut := false; errorCode := 0;
     isReading := false; consumerBlocksOnUs := false; rptr := 0; wptr := 0;
     buffer := repeat "000"%char (Z.to_nat sizeof_buffer) |}.

Definition set_rptr (v : Z) (r : t) : t :=
  Make (fd r) (handle r) (cancel r) (eof r) (error r) (eofShortCut r)
       (errorCode r) (isReading r) (consumerBlocksOnUs r) v (wptr r) (buffer r).
Definition set_wptr (v : Z) (r : t) : t :=
  Make (fd r) (handle r) (cancel r) (eof r) (error r) (eofShortCut r)
       (errorCode r) (isReading r) (consumerBlocksOnUs r) (rptr r) v (buffer r).
Definition set_buffer (v : list ascii) (r : t) : t :=
  Make (fd r) (handle r) (cancel r) (eof r) (error r) (eofShortCut r)
       (errorCode r) (isReading r) (consumerBlocksOnUs r) (rptr r) (wptr r) v.
Definition set_eof (v : bool) (r : t) : t :=
  Make (fd r) (handle r) (cancel r) v (error r) (eofShortCut r)
       (errorCode r) (isReading r) (consumerBlocksOnUs r) (rptr r) (wptr r)
       (buffer r).
Definition set_error (v : bool) (code : Z) (r : t) : t :=
  Make (fd r) (handle r) (cancel r) (eof r) v (eofShortCut r)
       code (isReading r) (consumerBlocksOnUs r) (rptr r) (wptr r) (buffer r).
Definition set_eofShortCut (v : bool) (r : t) : t :=
  Make (fd r) (handle r) (cancel r) (eof r) (error r) v
       (errorCode r) (isReading r) (consumerBlocksOnUs r) (rptr r) (wptr r)
       (buffer r).
Definition set_consumerBlocksOnUs (v : bool) (r : t) : t :=
  Make (fd r) (handle r) (cancel r) (eof r) (error r) (eofShortCut r)
       (errorCode r) (isReading r) v (rptr r) (wptr r) (buffer r).
Definition set_cancel (v : bool) (r : t) : t :=
  Make (fd r) (handle r) v (eof r) (error r) (eofShortCut r)
       (errorCode r) (isReading r) (consumerBlocksOnUs r) (rptr r) (wptr r)
       (buffer r).

(** [(wptr + sizeof buffer - rptr) % sizeof buffer], computed in [size_t]
    and returned as [unsigned int]. *)
Definition bytesInBuffer (r : t) : Z :=
  u32 (u64 (wptr r + sizeof_buffer - rptr r) mod sizeof_buffer).

Definition bufferFull (r : t) : bool :=
  bytesInBuffer r =? u64 (sizeof_buffer - 1).

Definition bufferEmpty (r : t) : bool :=
  bytesInBuffer r =? 0.

(** [Reader::readData(data, maxSize)]: returns [numRead], the bytes copied
    to [data] and the reader with its read pointer advanced. *)
Definition readData (r : t) (maxSize : Z) : Z * list ascii * t :=
  let numRead :=
    if rptr r <? wptr r then u32 (wptr r - rptr r)
    else u64 (sizeof_buffer - rptr r) in
  let numRead := if numRead >? maxSize then maxSize else numRead in
  let data := fetch (buffer r) (rptr r) numRead in
  (numRead, data, set_rptr (u32 (u64 (rptr r + numRead) mod sizeof_buffer)) r).

(** The size computed by [Reader::run] for its next OS read, from the
    pointers as they are after the reset of an empty buffer. *)
Definition run_numBytes (r : t) : Z :=
  let numBytes := u32 (u64 (rptr r + sizeof_buffer - wptr r - 1) mod sizeof_buffer) in
  if numBytes >? u64 (sizeof_buffer - wptr r)
  then u32 (u64 (sizeof_buffer - wptr r))
  else numBytes.

(** The part of one iteration of [Reader::run] up to the point where the
    mutex is released for the OS read.  [None]: the iteration does not
    reach the read (cancelled, end-of-file or error latched, or the thread
    sleeps on [bufferNotFullCondition]).  [Some (r', n)]: the read of [n]
    bytes into [buffer + wptr r'] is issued. *)
Definition run_prepare (r : t) : option (t * Z) :=
  if cancel r then None
  else if negb (error r) && bufferFull r then None
  else if negb (negb (eof r) && negb (error r)) then None
  else
    let r1 := if rptr r =? wptr r then set_wptr 0 (set_rptr 0 r) else r in
    Some (r1, run_numBytes r1).

(** The rest of the iteration, once the OS read has returned and the
    mutex is held again. *)
Definition run_complete (r : t) (res : os_read) : t :=
  let r1 :=
    if numRead res <? 0 then set_error true (errno res) r
    else if numRead res =? 0 then set_eof true r
    else r in
  if numRead res >? 0 then
    set_wptr (u32 (u64 (wptr r1 + numRead res) mod sizeof_buffer))
             (set_buffer (store (buffer r1) (wptr r1) (bytesRead res)) r1)
  else r1.

(** The states in which [Reader::run] calls [notifyReadyRead], the only
    place that wakes a consumer blocked in [KDPipeIODevice::readData]:
    end-of-file or error is latched, or the buffer is not empty. *)
Definition run_notifies (r : t) : bool :=
  negb (cancel r) &&
  ((eof r || error r)
   || (negb (bufferFull r) && negb (bufferEmpty r))
   || (negb (error r) && bufferFull r)).

(** Both pointers index the array. *)
Definition ptrs_ok (r : t) : Prop :=
  0 <= rptr r < sizeof_buffer /\ 0 <= wptr r < sizeof_buffer.

(** The unread bytes that lie in one piece from the read pointer on: up
    to the write pointer, or up to the end of the array when the content
    wraps. *)
Definition contiguous (r : t) : Z :=
  if rptr r <? wptr r then wptr r - rptr r else sizeof_buffer - rptr r.

(** The bytes that can still be stored (one cell stays unused). *)
Definition free (r : t) : Z := sizeof_buffer - 1 - bytesInBuffer r.

(** The array index of the [i]-th unread byte. *)
Definition unread_index (r : t) (i : Z) : Z := (rptr r + i) mod sizeof_buffer.

(** An OS read of [n] bytes at the write pointer is safe: it is not
    empty, fits the free space, stays inside the array and touches no
    unread byte. *)
Definition safe_request (r : t) (n : Z) : Prop :=
  0 < n
  /\ n <= free r
  /\ wptr r + n <= sizeof_buffer
  /\ forall i, 0 <= i < bytesInBuffer r ->
       ~ (wptr r <= unread_index r i < wptr r + n).

(** [Reader::bufferContains(ch)]: the loop over [unsigned int i] from
    [rptr] up to [rptr + bib], which looks at [buffer[i % sizeof buffer]]
    and returns at the first match. *)
Definition bufferContains (r : t) (ch : ascii) : bool :=
  let bib := bytesInBuffer r in
  existsb
    (fun i =>
       Ascii.eqb (nth (Z.to_nat (u64 i mod sizeof_buffer)) (buffer r) "000"%char) ch)
    (map (fun k => rptr r + Z.of_nat k)
         (seq 0 (Z.to_nat (u32 (rptr r + bib) - rptr r)))).

(** The unread bytes, oldest first: the cells at the indices
    [unread_index r 0], [unread_index r 1], ... *)
Definition contents (r : t) : list ascii :=
  map (fun k => nth (Z.to_nat (unread_index r (Z.of_nat k))) (buffer r) "000"%char)
      (seq 0 (Z.to_nat (bytesInBuffer r))).

End Reader.

(** What the operating system answers to one [::write(fd, buf, n)],
    after the [EINTR] retries: the return value and [errno]. *)
Record os_write := OsWrite { numWritten : Z; write_errno : Z }.

(** The contract of [::write]: [-1] on error, otherwise between [0] and
    the requested size. *)
Definition os_write_ok (numBytes : Z) (res : os_write) : Prop :=
  numWritten res = -1 \/ 0 <= numWritten res <= numBytes.

Module Writer.

(** [sizeof buffer] for [char buffer[BUFFER_SIZE]]. *)
Definition sizeof_buffer : Z := BUFFER_SIZE.

Record t := Make {
  fd : Z;
  handle : Z;
  cancel : bool;
  error : bool;
  errorCode : Z;
  numBytesInBuffer : Z;
  buffer : list ascii
}.

Definition new (fd_ handle_ : Z) : t :=
  {| fd := fd_; handle := handle_; cancel := false; error := false;
     errorCode := 0; numBytesInBuffer := 0;
     buffer := repeat "000"%char (Z.to_nat sizeof_buffer) |}.

Definition bytesInBuffer (w : t) : Z := numBytesInBuffer w.
Definition bufferFull (w : t) : bool := numBytesInBuffer w =? u64 sizeof_buffer.
Definition bufferEmpty (w : t) : bool := numBytesInBuffer w =? 0.

(** [Writer::writeData(data, size)]: at most [sizeof buffer] bytes of
    [data] are copied into the slot. *)
Definition writeData (w : t) (data : list ascii) (size : Z) : Z * t :=
  let size := if size >? sizeof_buffer then sizeof_buffer else size in
  let buffer' := store (buffer w) 0 (firstn (Z.to_nat size) data) in
  (size, Make (fd w) (handle w) (cancel w) (error w) (errorCode w)
              (u32 size) buffer').

(** [Writer::run] after the OS accepted the whole slot: the slot is
    emptied and [bytesWritten] is emitted. *)
Definition run_flushed (w : t) : t :=
  Make (fd w) (handle w) (cancel w) (error w) (errorCode w) 0 (buffer w).

(** [Writer::run] after a failed OS write: the error is latched and the
    thread leaves, emptying the slot on its way out. *)
Definition run_failed (code : Z) (w : t) : t :=
  Make (fd w) (handle w) (cancel w) true code 0 (buffer w).

(** The flush loop of [Writer::run] on an occupied slot: [::write] is
    called on the rest of the slot until [totalWritten] reaches
    [numBytesInBuffer], or until a write fails.  [os k off n] is the
    answer to the [k]-th call, which offers the [n] bytes at offset
    [off].  The result has the bytes the operating system accepted, in
    order, the Writer afterwards and the argument of the [bytesWritten]
    signal; [None] when the loop still runs after [fuel] calls. *)
Fixpoint run_write (os : nat -> Z -> Z -> os_write) (fuel k : nat) (w : t)
    (totalWritten : Z) : option (list ascii * t * Z) :=
  match fuel with
  | O => None
  | S fuel' =>
      let res := os k totalWritten (numBytesInBuffer w - totalWritten) in
      if numWritten res <? 0 then Some ([], run_failed (write_errno res) w, 0)
      else
        let sent := fetch (buffer w) totalWritten (numWritten res) in
        let totalWritten := totalWritten + numWritten res in
        if totalWritten <? numBytesInBuffer w then
          match run_write os fuel' (S k) w totalWritten with
          | Some (more, w', signalled) => Some ((sent ++ more)%list, w', signalled)
          | None => None
          end
        else Some (sent, run_flushed w, totalWritten)
  end.

End Writer.

Module KDPipeIODevice.

(** [QIODevice::OpenModeFlag], from the Qt headers. *)
Definition NotOpen : Z := 0.
Definition ReadOnly : Z := 1.
Definition WriteOnly : Z := 2.
Definition ReadWrite : Z := 3.
Definition Unbuffered : Z := 32.

(** The device with its [Private] part.  [handle = 0] is the null
    handle; [reader] and [writer] are the owned pointers ([None] is
    [nullptr]); [qbuffer] is the number of bytes held by the generic
    buffering layer of [QIODevice]. *)
Record t := Make {
  openMode : Z;
  fd : Z;
  handle : Z;
  reader : option Reader.t;
  writer : option Writer.t;
  triedToStartReader : bool;
  triedToStartWriter : bool;
  qbuffer : Z
}.

(** The constructor of [KDPipeIODevice] with that of its [Private]. *)
Definition new : t :=
  {| openMode := NotOpen; fd := -1; handle := 0; reader := None;
     writer := None; triedToStartReader := false;
     triedToStartWriter := false; qbuffer := 0 |}.

Definition set_reader (r : option Reader.t) (d : t) : t :=
  Make (openMode d) (fd d) (handle d) r (writer d)
       (triedToStartReader d) (triedToStartWriter d) (qbuffer d).
Definition set_writer (w : option Writer.t) (d : t) : t :=
  Make (openMode d) (fd d) (handle d) (reader d) w
       (triedToStartReader d) (triedToStartWriter d) (qbuffer d).

Definition isOpen (d : t) : bool := negb (openMode d =? NotOpen).

(** [Private::startReaderThread] and [Private::startWriterThread]: the
    effect on the device is the flag; starting the thread and the wait
    for [hasStarted] leave the modelled fields alone, and no caller
    below looks at the returned value. *)
Definition startReaderThread (d : t) : t :=
  Make (openMode d) (fd d) (handle d) (reader d) (writer d)
       true (triedToStartWriter d) (qbuffer d).
Definition startWriterThread (d : t) : t :=
  Make (openMode d) (fd d) (handle d) (reader d) (writer d)
       (triedToStartReader d) true (qbuffer d).

(** [Private::doOpen(fd_, handle_, mode_)].  [win32] selects the branch
    of [#ifdef Q_OS_WIN32]. *)
Definition doOpen (win32 : bool) (d : t) (fd_ handle_ mode_ : Z) : bool * t :=
  if isOpen d then (false, d)
  else if (if win32 then handle_ =? 0 else fd_ <? 0) then (false, d)
  else if Z.land mode_ ReadWrite =? 0 then (false, d)
  else
    let reader_ :=
      if negb (Z.land mode_ ReadOnly =? 0)
      then Some (Reader.new fd_ handle_) else None in
    let writer_ :=
      if negb (Z.land mode_ WriteOnly =? 0)
      then Some (Writer.new fd_ handle_) else None in
    (true,
     Make (Z.lor mode_ Unbuffered) fd_ handle_ reader_ writer_
          (triedToStartReader d) (triedToStartWriter d) (qbuffer d)).

(** [KDPipeIODevice::open(int fd, OpenMode mode)] outside Windows. *)
Definition open (d : t) (fd_ mode_ : Z) : bool * t :=
  doOpen false d fd_ 0 mode_.

(** [QIODevice::bytesAvailable] of a sequential device (Qt, outside the
    repository): the bytes held by the generic buffer. *)
Definition QIODevice_bytesAvailable (d : t) : Z := qbuffer d.

(** [KDPipeIODevice::bytesAvailable]: the value and the device, whose
    [triedToStartReader] flag the first call sets. *)
Definition bytesAvailable (d : t) : Z * t :=
  let base := QIODevice_bytesAvailable d in
  if negb (triedToStartReader d) then (base, startReaderThread d)
  else
    match reader d with
    | Some r => (base + Reader.bytesInBuffer r, d)
    | None => (base, d)
    end.

(** [QIODevice::atEnd] (Qt, outside the repository): a closed device is
    at its end, an open one when the generic buffer is empty and the
    virtual [bytesAvailable()] is zero. *)
Definition QIODevice_atEnd (d : t) : bool :=
  (openMode d =? NotOpen)
  || ((qbuffer d =? 0) && (fst (bytesAvailable d) =? 0)).

(** [KDPipeIODevice::atEnd].  [None] stands for the dereference of a null
    [d->reader] (a device opened without [ReadOnly]). *)
Definition atEnd (d : t) : option bool :=
  let d := startReaderThread d in
  if negb (QIODevice_atEnd d) then Some false
  else if negb (isOpen d) then Some true
  else
    match reader d with
    | None => None
    | Some r =>
        if Reader.eofShortCut r then Some true
        else Some ((Reader.error r || Reader.eof r) && Reader.bufferEmpty r)
    end.

(** [KDPipeIODevice::readWouldBlock]. *)
Definition readWouldBlock (d : t) : option bool :=
  match reader (startReaderThread d) with
  | None => None
  | Some r =>
      Some (Reader.bufferEmpty r && negb (Reader.eof r) && negb (Reader.error r))
  end.

(** The outcome of a consumer call: it returns a value (with the bytes
    copied out and the device afterwards), or the calling thread sleeps
    on a condition variable, or the call dereferences a null worker. *)
Inductive outcome :=
| Returned (ret : Z) (data : list ascii) (d : t)
| Blocked (d : t) (maxSize : Z) (oldValue : bool)
| Undefined.

(** [KDPipeIODevice::readData] from the point where the consumer holds
    the mutex and does not (or no longer) wait. *)
Definition readData_locked (d : t) (r : Reader.t) (maxSize : Z) : outcome :=
  if Reader.bufferEmpty r then
    Returned (if Reader.eof r then 0 else -1) []
             (set_reader (Some (Reader.set_eofShortCut true r)) d)
  else
    let '(bytesRead, data, r') := Reader.readData r maxSize in
    Returned bytesRead data (set_reader (Some r') d).

(** [KDPipeIODevice::readData(data, maxSize)].  When the buffer is empty
    and neither end-of-file nor error is latched the consumer sets
    [consumerBlocksOnUs] and waits on [bufferNotEmptyCondition]. *)
Definition readData (d : t) (maxSize : Z) : outcome :=
  let d := startReaderThread d in
  match reader d with
  | None => Undefined
  | Some r =>
      if Reader.eofShortCut r then Returned 0 [] d
      else
        let maxSize := if maxSize <? 0 then 0 else maxSize in
        let maxSize :=
          if ALLOW_QIODEVICE_BUFFERING && (fst (bytesAvailable d) >? 0)
          then Z.min maxSize (fst (bytesAvailable d)) else maxSize in
        if Reader.bufferEmpty r && negb (Reader.error r) && negb (Reader.eof r)
        then Blocked (set_reader (Some (Reader.set_consumerBlocksOnUs true r)) d)
                     maxSize (Reader.consumerBlocksOnUs r)
        else readData_locked d r maxSize
  end.

(** The same call when the wait returns: [consumerBlocksOnUs] gets its
    old value back at the end of the block and the call goes on with the
    reader as the Reader thread left it. *)
Definition readData_woken (d : t) (maxSize : Z) (oldValue : bool) : outcome :=
  match reader d with
  | None => Undefined
  | Some r =>
      readData_locked d (Reader.set_consumerBlocksOnUs oldValue r) maxSize
  end.

(** [KDPipeIODevice::writeData(data, size)].  While the slot is occupied
    and no error is latched the consumer waits on [bufferEmptyCondition];
    the loop tests the same condition again after each wake, so the woken
    call is this function on the device as the Writer thread left it. *)
Definition writeData (d : t) (data : list ascii) (size : Z) : outcome :=
  let d := startWriterThread d in
  match writer d with
  | None => Undefined
  | Some w =>
      if negb (Writer.error w) && negb (Writer.bufferEmpty w)
      then Blocked d size false
      else if Writer.error w then Returned (-1) [] d
      else
        let '(n, w') := Writer.writeData w data size in
        Returned n [] (set_writer (Some w') d)
  end.

(** The descriptor test of [doOpen] on the platform at hand. *)
Definition invalid_descriptor (win32 : bool) (fd_ handle_ : Z) : Prop :=
  if win32 then handle_ = 0 else fd_ < 0.

(** What a [readData] that does not wait returns for the size [m]: the
    contiguous piece capped by [m] when bytes are buffered, else 0 at
    end-of-file and -1 otherwise. *)
Definition read_result (r : Reader.t) (m : Z) : Z :=
  if Reader.bufferEmpty r then (if Reader.eof r then 0 else -1)
  else Z.min m (Reader.contiguous r).

(** [KDPipeIODevice::canReadLine].  [base] is the answer of
    [QIODevice::canReadLine] (Qt, outside the repository), which looks
    for a line end in the generic buffer. *)
Definition canReadLine (base : bool) (d : t) : bool :=
  let d := startReaderThread d in
  if base then true
  else
    match reader d with
    | Some r => Reader.bufferContains r "010"%char
    | None => true
    end.

(** [KDPipeIODevice::bytesToWrite]; [base] is the answer of
    [QIODevice::bytesToWrite] (Qt, outside the repository). *)
Definition bytesToWrite (base : Z) (d : t) : Z * t :=
  let d := startWriterThread d in
  match writer d with
  | Some w => (base + Writer.bytesInBuffer w, d)
  | None => (base, d)
  end.

(** [KDPipeIODevice::writeWouldBlock].  [None] stands for the
    dereference of a null [d->writer]. *)
Definition writeWouldBlock (d : t) : option bool :=
  match writer (startWriterThread d) with
  | None => None
  | Some w => Some (negb (Writer.bufferEmpty w) && negb (Writer.error w))
  end.

(** What a wait function does: it returns at once, or the caller sleeps
    on a condition variable (for at most the given time). *)
Inductive waiting :=
| Ready (ret : bool)
| Sleeps.

(** [KDPipeIODevice::waitForBytesWritten]. *)
Definition waitForBytesWritten (d : t) : waiting :=
  match writer (startWriterThread d) with
  | None => Ready true
  | Some w =>
      if Writer.bufferEmpty w || Writer.error w then Ready true else Sleeps
  end.

(** [KDPipeIODevice::waitForReadyRead].  The last branch is the one
    behind [Q_ASSERT(false)]: the wait on [bufferNotEmptyCondition]. *)
Definition waitForReadyRead (d : t) : waiting :=
  let d := startReaderThread d in
  if ALLOW_QIODEVICE_BUFFERING && (fst (bytesAvailable d) >? 0) then Ready true
  else
    match reader d with
    | None => Ready true
    | Some r =>
        if Reader.eofShortCut r then Ready true
        else if negb (Reader.bytesInBuffer r =? 0) || Reader.eof r || Reader.error r
        then Ready true
        else Sleeps
    end.

(** [KDPipeIODevice::close].  On an open device [stopThreads] asks both
    workers to cancel (after the wait for a pending flush), both are
    joined and deleted, the descriptor is closed and the fields are
    reset.  The two [triedToStart...] flags and the generic buffer are
    left as they are. *)
Definition close (d : t) : t :=
  if negb (isOpen d) then d
  else
    Make NotOpen (-1) 0 None None
         (triedToStartReader d) (triedToStartWriter d) (qbuffer d).

(** Whether a call of [Private::startReaderThread] calls
    [reader->start()]: only the first call does, when a reader exists
    that is neither running nor finished ([idle]). *)
Definition startReaderThread_starts (idle : bool) (d : t) : bool :=
  negb (triedToStartReader d) && bool_decide (is_Some (reader d)) && idle.

Definition startWriterThread_starts (idle : bool) (d : t) : bool :=
  negb (triedToStartWriter d) && bool_decide (is_Some (writer d)) && idle.

(** The assertions of [KDAB_DEFINE_CHECKS(KDPipeIODevice)] on the
    modelled fields (those on [isRunning()] of the two threads are
    left out). *)
Definition checks (win32 : bool) (d : t) : Prop :=
  if isOpen d then
    openMode d <> NotOpen
    /\ Z.land (openMode d) ReadWrite <> 0
    /\ (Z.land (openMode d) ReadOnly <> 0 -> is_Some (reader d))
    /\ (Z.land (openMode d) WriteOnly <> 0 -> is_Some (writer d))
    /\ (if win32 then handle d <> 0 else 0 <= fd d)
  else
    openMode d = NotOpen
    /\ reader d = None
    /\ writer d = None
    /\ (if win32 then handle d = 0 else fd d < 0).

(** One operation on a device: a call of a member function that
    returns or puts the caller to sleep, or a change made by one of the
    two worker threads to its own object. *)
Inductive call (win32 : bool) : t -> t -> Prop :=
| call_doOpen d fd_ handle_ mode_ :
    call win32 d (snd (doOpen win32 d fd_ handle_ mode_))
| call_close d :
    call win32 d (close d)
| call_bytesAvailable d :
    call win32 d (snd (bytesAvailable d))
| call_read_side d :
    (* atEnd, canReadLine, readWouldBlock, waitForReadyRead *)
    call win32 d (startReaderThread d)
| call_write_side d :
    (* bytesToWrite, writeWouldBlock, waitForBytesWritten *)
    call win32 d (startWriterThread d)
| call_readData d maxSize ret data d' :
    readData d maxSize = Returned ret data d' -> call win32 d d'
| call_readData_blocks d maxSize d' maxSize' old :
    readData d maxSize = Blocked d' maxSize' old -> call win32 d d'
| call_writeData d data size ret out d' :
    writeData d data size = Returned ret out d' -> call win32 d d'
| call_writeData_blocks d data size d' size' old :
    writeData d data size = Blocked d' size' old -> call win32 d d'
| call_reader_thread d r r' :
    reader d = Some r -> call win32 d (set_reader (Some r') d)
| call_writer_thread d w w' :
    writer d = Some w -> call win32 d (set_writer (Some w') d).

End KDPipeIODevice.

(** The read side of a device as a transition system: the Reader thread
    and the single consumer thread take turns under the Reader mutex.
    While an OS read is in flight the mutex is free and the consumer may
    run; a consumer that waits is only woken from [notifyReadyRead]. *)
Module ReadSide.

Inductive consumer :=
| Idle
| Waiting (maxSize : Z) (oldValue : bool).

Record state := State {
  dev : KDPipeIODevice.t;
  pending : option Z;     (* size of the OS read in flight, if any *)
  cons : consumer
}.

Inductive step : state -> state -> Prop :=
| reader_issues_read d r r1 n c :
    KDPipeIODevice.reader d = Some r ->
    Reader.run_prepare r = Some (r1, n) ->
    step (State d None c) (State (KDPipeIODevice.set_reader (Some r1) d) (Some n) c)
| reader_read_returns d r n res c :
    KDPipeIODevice.reader d = Some r ->
    os_read_ok n res ->
    step (State d (Some n) c)
         (State (KDPipeIODevice.set_reader (Some (Reader.run_complete r res)) d)
                None c)
| consumer_reads d p maxSize ret data d' :
    KDPipeIODevice.readData d maxSize = KDPipeIODevice.Returned ret data d' ->
    step (State d p Idle) (State d' p Idle)
| consumer_blocks d p maxSize d' maxSize' old :
    KDPipeIODevice.readData d maxSize = KDPipeIODevice.Blocked d' maxSize' old ->
    step (State d p Idle) (State d' p (Waiting maxSize' old))
| consumer_wakes d r maxSize old ret data d' :
    KDPipeIODevice.reader d = Some r ->
    Reader.run_notifies r = true ->
    KDPipeIODevice.readData_woken d maxSize old = KDPipeIODevice.Returned ret data d' ->
    step (State d None (Waiting maxSize old)) (State d' None Idle).

(** A device freshly opened for reading on descriptor [fd_]. *)
Definition initial (fd_ mode_ : Z) : state :=
  State (snd (KDPipeIODevice.open KDPipeIODevice.new fd_ mode_)) None Idle.

Definition reachable (s : state) : Prop :=
  exists fd_ mode_,
    fst (KDPipeIODevice.open KDPipeIODevice.new fd_ mode_) = true /\
    rtc step (initial fd_ mode_) s.

(** What holds of the Reader of every device the system can reach. *)
Definition reader_inv (r : Reader.t) : Prop :=
  Reader.ptrs_ok r
  /\ Z.of_nat (length (Reader.buffer r)) = Reader.sizeof_buffer
  /\ (Reader.eof r = true -> Reader.error r = false)
  /\ (Reader.eofShortCut r = true ->
      (Reader.eof r || Reader.error r) = true /\ Reader.bufferEmpty r = true).

(** While an OS read is in flight neither flag is latched and the
    request stays safe. *)
Definition pending_inv (r : Reader.t) (p : option Z) : Prop :=
  match p with
  | None => True
  | Some n =>
      Reader.safe_request r n /\ Reader.eof r = false /\ Reader.error r = false
  end.

(** An open device with a Reader in a consistent state. *)
Definition readable (d : KDPipeIODevice.t) (r : Reader.t) : Prop :=
  KDPipeIODevice.isOpen d = true
  /\ 0 <= KDPipeIODevice.qbuffer d
  /\ KDPipeIODevice.reader d = Some r
  /\ reader_inv r.

(** A waiting consumer asked for a size that is not negative. *)
Definition consumer_inv (c : consumer) : Prop :=
  match c with
  | Idle => True
  | Waiting maxSize _ => 0 <= maxSize
  end.

Definition state_inv (s : state) : Prop :=
  KDPipeIODevice.isOpen (dev s) = true
  /\ KDPipeIODevice.qbuffer (dev s) = 0
  /\ consumer_inv (cons s)
  /\ forall r, KDPipeIODevice.reader (dev s) = Some r ->
       reader_inv r /\ pending_inv r (pending s).

(** The steps again, each with the bytes the operating system delivered
    to the Reader in that step and the bytes [readData] copied out to
    the consumer. *)
Inductive moved : state -> state -> list ascii -> list ascii -> Prop :=
| moved_reader_issues_read d r r1 n c :
    KDPipeIODevice.reader d = Some r ->
    Reader.run_prepare r = Some (r1, n) ->
    moved (State d None c)
          (State (KDPipeIODevice.set_reader (Some r1) d) (Some n) c) [] []
| moved_reader_read_returns d r n res c :
    KDPipeIODevice.reader d = Some r ->
    os_read_ok n res ->
    moved (State d (Some n) c)
          (State (KDPipeIODevice.set_reader (Some (Reader.run_complete r res)) d)
                 None c)
          (if numRead res >? 0 then bytesRead res else []) []
| moved_consumer_reads d p maxSize ret data d' :
    KDPipeIODevice.readData d maxSize = KDPipeIODevice.Returned ret data d' ->
    moved (State d p Idle) (State d' p Idle) [] data
| moved_consumer_blocks d p maxSize d' maxSize' old :
    KDPipeIODevice.readData d maxSize = KDPipeIODevice.Blocked d' maxSize' old ->
    moved (State d p Idle) (State d' p (Waiting maxSize' old)) [] []
| moved_consumer_wakes d r maxSize old ret data d' :
    KDPipeIODevice.reader d = Some r ->
    Reader.run_notifies r = true ->
    KDPipeIODevice.readData_woken d maxSize old = KDPipeIODevice.Returned ret data d' ->
    moved (State d None (Waiting maxSize old)) (State d' None Idle) [] data.

(** A state with the bytes delivered by the operating system and the
    bytes handed to the consumer since the device was opened. *)
Inductive history : state -> list ascii -> list ascii -> Prop :=
| history_initial fd_ mode_ :
    fst (KDPipeIODevice.open KDPipeIODevice.new fd_ mode_) = true ->
    history (initial fd_ mode_) [] []
| history_step s s' produced consumed p c :
    history s produced consumed ->
    moved s s' p c ->
    history s' (produced ++ p)%list (consumed ++ c)%list.

End ReadSide.

(** * The UI server *)

Module UiServer.

(** What the file system holds at a path: a socket file nobody listens
    on, the socket of a running server, or some other file. *)
Inductive node := StaleSocket | LiveSocket | RegularFile.

Inductive signal := stopped | sessionDataCleared.

(** [UiServer::Private].  [file] is the name of [d->file] ([None]: no
    name set); [connections] holds the addresses of the live
    [AssuanServerConnection] objects in insertion order; [listening] is
    [QTcpServer::isListening()]. *)
Record t := Make {
  file : option string;
  connections : list Z;
  suggestedSocketName : string;
  actualSocketName : string;
  listening : bool;
  cryptoCommandsEnabled : bool
}.

Definition QFile_exists (fileName : string) (w : gmap string node) : bool :=
  bool_decide (is_Some (w !! fileName)).

Definition QFile_remove (fileName : string) (w : gmap string node) : gmap string node :=
  delete fileName w.

(** [assuan_socket_connect] succeeds exactly on the socket of a running
    server. *)
Definition assuan_socket_connect (fileName : string) (w : gmap string node) : Z :=
  match w !! fileName with
  | Some LiveSocket => 0
  | _ => 1
  end.

(** [Private::isStaleAssuanSocket]; [assuan_new] is the result of the
    context allocation that precedes the trial connect. *)
Definition isStaleAssuanSocket (assuan_new : Z) (fileName : string)
    (w : gmap string node) : bool :=
  negb (assuan_new =? 0) || negb (assuan_socket_connect fileName w =? 0).

Definition already_running (fileName : string) : string :=
  String.append "Detected another running gnupg UI server listening at "
                (String.append fileName ".").

Section Listening.

(** [Private::doMakeListeningSocket] lives in the platform files, which
    are not among the sources: it binds and listens at the given path or
    throws.  [inl msg] is the exception; the file system is returned in
    both cases. *)
Variable doMakeListeningSocket :
  string -> t -> gmap string node -> (string + t) * gmap string node.

(** [Private::makeListeningSocket]. *)
Definition makeListeningSocket (assuan_new : Z) (d : t) (w : gmap string node)
  : (string + t) * gmap string node :=
  let fileName := suggestedSocketName d in
  let checked :=
    if QFile_exists fileName w then
      if isStaleAssuanSocket assuan_new fileName w
      then (None, QFile_remove fileName w)
      else (Some (already_running fileName), w)
    else (None, w) in
  match checked with
  | (Some msg, w1) => (inl msg, w1)
  | (None, w1) =>
      match doMakeListeningSocket fileName d w1 with
      | (inl msg, w2) => (inl msg, w2)
      | (inr d1, w2) =>
          (inr (Make (file d1) (connections d1) (suggestedSocketName d1)
                     (suggestedSocketName d1) (listening d1)
                     (cryptoCommandsEnabled d1)), w2)
      end
  end.

(** [UiServer::start]. *)
Definition start := makeListeningSocket.

End Listening.

(** What the start-up logic needs of the platform code: on a free path
    it binds, listens and creates the socket file there. *)
Definition binds_free_path
    (doMakeListeningSocket :
       string -> t -> gmap string node -> (string + t) * gmap string node) : Prop :=
  forall fileName d w,
    w !! fileName = None ->
    exists d',
      doMakeListeningSocket fileName d w = (inr d', <[fileName := LiveSocket]> w)
      /\ listening d' = true
      /\ suggestedSocketName d' = suggestedSocketName d.

(** Modelled from the spec: [doMakeListeningSocket] is not among the
    sources; the spec has it "bind/listen at that path", the socket file
    being the lock.  Binding fails when something is at the path and
    otherwise creates the socket file and listens. *)
Definition bind_and_listen (fileName : string) (d : t) (w : gmap string node)
  : (string + t) * gmap string node :=
  if QFile_exists fileName w then (inl "Address already in use", w)
  else
    (inr (Make (Some fileName) (connections d) (suggestedSocketName d)
               (actualSocketName d) true (cryptoCommandsEnabled d)),
     <[fileName := LiveSocket]> w).

Definition isStopped (d : t) : bool :=
  bool_decide (connections d = []) && negb (listening d).

Definition isStopping (d : t) : bool :=
  negb (bool_decide (connections d = [])) && negb (listening d).

(** [QTcpServer::close]. *)
Definition close (d : t) : t :=
  Make (file d) (connections d) (suggestedSocketName d) (actualSocketName d)
       false (cryptoCommandsEnabled d).

(** [UiServer::stop]: the server, the file system and the signals
    emitted. *)
Definition stop (d : t) (w : gmap string node)
  : t * gmap string node * list signal :=
  let d1 := close d in
  let w1 :=
    match file d1 with
    | Some f => if QFile_exists f w then QFile_remove f w else w
    | None => w
    end in
  if isStopped d1 then (d1, w1, [sessionDataCleared; stopped])
  else (d1, w1, []).

(** [Private::slotConnectionClosed(conn)]. *)
Definition slotConnectionClosed (conn : Z) (d : t) : t * list signal :=
  let d1 :=
    Make (file d)
         (List.filter (fun other => negb (conn =? other)) (connections d))
         (suggestedSocketName d) (actualSocketName d) (listening d)
         (cryptoCommandsEnabled d) in
  if isStopped d1 then (d1, [sessionDataCleared; stopped]) else (d1, []).

(** [Private::incomingConnection(fd)]: [nonce_ok] is the outcome of the
    nonce check, [conn] the address of the connection object when its
    constructor does not throw. *)
Definition incomingConnection (nonce_ok : bool) (conn : option Z) (d : t) : t :=
  if negb nonce_ok then d
  else
    match conn with
    | None => d
    | Some c =>
        Make (file d) (connections d ++ [c]) (suggestedSocketName d)
             (actualSocketName d) (listening d) (cryptoCommandsEnabled d)
    end.

(** The connections [conns] report [closed] one after the other: the
    server afterwards and the signals emitted by each call of
    [slotConnectionClosed]. *)
Fixpoint closeAll (conns : list Z) (d : t) : t * list (list signal) :=
  match conns with
  | [] => (d, [])
  | conn :: rest =>
      let '(d1, emitted) := slotConnectionClosed conn d in
      let '(d2, later) := closeAll rest d1 in
      (d2, emitted :: later)
  end.

Section Factories.

(** The factories are ordered by [_detail::ByName<std::less>]
    (utils/detail_p.h, not among the sources), which compares the names
    of two factories; [less] stands for it. *)
Variable Factory : Type.
Variable less : Factory -> Factory -> bool.

(** [std::lower_bound]: the furthermost position such that [less e cf]
    holds for every element [e] before it. *)
Fixpoint lower_bound (factories : list Factory) (cf : Factory) : nat :=
  match factories with
  | [] => 0
  | e :: rest => if less e cf then S (lower_bound rest cf) else 0
  end.

(** [std::upper_bound]: the furthermost position such that [less cf e]
    fails for every element [e] before it. *)
Fixpoint upper_bound (factories : list Factory) (cf : Factory) : nat :=
  match factories with
  | [] => 0
  | e :: rest => if negb (less cf e) then S (upper_bound rest cf) else 0
  end.

(** [std::inplace_merge] of a sorted range with the one element pushed
    behind it: a stable merge, so the new element comes after the
    elements it is not less than. *)
Fixpoint inplace_merge (factories : list Factory) (cf : Factory) : list Factory :=
  match factories with
  | [] => [cf]
  | e :: rest =>
      if less cf e then cf :: e :: rest else e :: inplace_merge rest cf
  end.

(** [UiServer::registerCommandFactory(cf)]; [None] is the null pointer.
    The range returned by [std::equal_range] is empty when its two
    bounds coincide. *)
Definition registerCommandFactory (cf : option Factory) (factories : list Factory)
  : bool * list Factory :=
  match cf with
  | Some f =>
      if (lower_bound factories f =? upper_bound factories f)%nat
      then (true, inplace_merge factories f)
      else (false, factories)
  | None => (false, factories)
  end.

(** The vector is sorted by name, with no two names equivalent. *)
Definition ordered (factories : list Factory) : Prop :=
  StronglySorted (fun a b => less a b = true) factories.

End Factories.

End UiServer.

(** * The client command *)

Module Command.

(** A [QVariant] as far as the command uses it: invalid ([None]) or a
    value with its [toString()] rendering. *)
Definition QVariant : Type := option string.

Definition toString (v : QVariant) : string :=
  match v with
  | Some s => s
  | None => EmptyString
  end.

Record Option := MakeOption {
  value : QVariant;
  hasValue : bool;
  isCritical : bool
}.

Record Inputs := MakeInputs {
  parentWId : Z;
  options : gmap string Option;
  filePaths : list string;
  recipients : list string;
  senders : list string;
  areRecipientsInformative : bool;
  areSendersInformative : bool;
  inquireData : gmap string string;
  command : string
}.

Record Outputs := MakeOutputs {
  errorString : string;
  canceled : bool;
  data : string;
  serverLocation : string;
  serverPid : Z
}.

(** A default-constructed [Outputs]. *)
Definition Outputs_default : Outputs :=
  {| errorString := EmptyString; canceled := false; data := EmptyString;
     serverLocation := EmptyString; serverPid := 0 |}.

(** [Command::Private]: the shared inputs and outputs. *)
Record t := Make {
  inputs : Inputs;
  outputs : Outputs
}.

Definition set_options (m : gmap string Option) (c : t) : t :=
  let i := inputs c in
  Make (MakeInputs (parentWId i) m (filePaths i) (recipients i) (senders i)
                   (areRecipientsInformative i) (areSendersInformative i)
                   (inquireData i) (command i))
       (outputs c).

(** The guard [!name || !*name]; a [const char *] is [None] when null. *)
Definition null_or_empty (name : option string) : bool :=
  match name with
  | None => true
  | Some n => String.eqb n EmptyString
  end.

(** The [std::string] made from a non-null [name]. *)
Definition key (name : option string) : string :=
  match name with
  | Some n => n
  | None => EmptyString
  end.

Definition error (c : t) : bool :=
  negb (String.eqb (errorString (outputs c)) EmptyString).

Definition wasCanceled (c : t) : bool := canceled (outputs c).

Definition setOptionValue (name : option string) (v : QVariant)
    (critical : bool) (c : t) : t :=
  if null_or_empty name then c
  else
    let opt := MakeOption v true critical in
    set_options (<[key name := opt]> (options (inputs c))) c.

Definition optionValue (name : option string) (c : t) : QVariant :=
  if null_or_empty name then None
  else
    match options (inputs c) !! key name with
    | None => None
    | Some o => value o
    end.

Definition unsetOption (name : option string) (c : t) : t :=
  if null_or_empty name then c
  else set_options (delete (key name) (options (inputs c))) c.

Definition isOptionSet (name : option string) (c : t) : bool :=
  if null_or_empty name then false
  else bool_decide (is_Some (options (inputs c) !! key name)).

Definition setOption (name : option string) (critical : bool) (c : t) : t :=
  if null_or_empty name then c
  else
    let c1 := if isOptionSet name c then unsetOption name c else c in
    let opt := MakeOption None false critical in
    set_options (<[key name := opt]> (options (inputs c1))) c1.

Definition isOptionCritical (name : option string) (c : t) : bool :=
  if null_or_empty name then false
  else
    match options (inputs c) !! key name with
    | None => false
    | Some o => isCritical o
    end.

(** ** The exchange *)

(** What the peer answers to one line: the final status, the data lines
    handed to the data callback and the names it inquires about. *)
Record Response := MakeResponse {
  err : Z;
  chunks : list string;
  inquiries : list string
}.

(** The environment of one [run()]: the libraries and the peer.  The
    peer answers a line knowing the lines received before. *)
Record Env := MakeEnv {
  default_socket_name : string;
  assuan_new : Z;
  assuan_socket_connect : nat -> string -> Z;
  start_uiserver : string;
  to_error_string : Z -> string;
  toLongLong : string -> Z;
  peer : list string -> string -> Response
}.

(** [gpg_err_code] and [GPG_ERR_CANCELED], from libgpg-error. *)
Definition gpg_err_code (e : Z) : Z := Z.land e 65535.
Definition GPG_ERR_CANCELED : Z := 99.

(** The protocol step a line belongs to (a label of the trace, not
    sent). *)
Inductive Step :=
| GetInfoPid
| WindowId
| SendOption (name : string)
| SendFile
| SendSender
| SendRecipient
| MainCommand.

Record Exchange := MakeExchange {
  step : Step;
  line : string;
  response : Response;
  replies : list (option string)
}.

(** The local [out] of [run()] and the lines transacted so far. *)
Record RunState := MakeRunState {
  out : Outputs;
  trace : list Exchange
}.

(** [Continue]: control goes on to the next statement; [Leave]: the
    statement executed [goto leave]. *)
Inductive Flow :=
| Continue (s : RunState)
| Leave (s : RunState).

Definition final (f : Flow) : RunState :=
  match f with
  | Continue s => s
  | Leave s => s
  end.

Definition andThen (f : Flow) (k : RunState -> Flow) : Flow :=
  match f with
  | Continue s => k s
  | Leave s => Leave s
  end.

Definition set_errorString (msg : string) (s : RunState) : RunState :=
  let o := out s in
  MakeRunState (MakeOutputs msg (canceled o) (data o) (serverLocation o) (serverPid o))
               (trace s).
Definition set_canceled (b : bool) (s : RunState) : RunState :=
  let o := out s in
  MakeRunState (MakeOutputs (errorString o) b (data o) (serverLocation o) (serverPid o))
               (trace s).
Definition set_data (v : string) (s : RunState) : RunState :=
  let o := out s in
  MakeRunState (MakeOutputs (errorString o) (canceled o) v (serverLocation o) (serverPid o))
               (trace s).
Definition set_serverLocation (v : string) (s : RunState) : RunState :=
  let o := out s in
  MakeRunState (MakeOutputs (errorString o) (canceled o) (data o) v (serverPid o))
               (trace s).
Definition set_serverPid (v : Z) (s : RunState) : RunState :=
  let o := out s in
  MakeRunState (MakeOutputs (errorString o) (canceled o) (data o) (serverLocation o) v)
               (trace s).

(** [my_assuan_transact]: the line goes to the peer, its answer is
    recorded; [reply] is the inquire callback. *)
Definition my_assuan_transact (env : Env) (st : Step) (command_ : string)
    (reply : string -> option string) (s : RunState) : Response * RunState :=
  let resp := peer env (List.map line (trace s)) command_ in
  (resp,
   MakeRunState (out s)
     (trace s ++ [MakeExchange st command_ resp (List.map reply (inquiries resp))])).

(** No inquire callback: nothing is ever sent back. *)
Definition no_inquire_cb (what : string) : option string := None.

(** [command_inquire_cb]: the staged payload of that name, if any. *)
Definition command_inquire_cb (m : gmap string string) (what : string) : option string :=
  m !! what.

(** [getinfo_pid_cb] on each data line in turn. *)
Definition getinfo_pid_cb (env : Env) (pid : Z) (buffer : string) : Z :=
  toLongLong env buffer.

(** [command_data_cb] on each data line in turn. *)
Definition command_data_cb (ba : string) (buffer : string) : string :=
  String.append ba buffer.

(** [QString::asprintf] with the format [%lx]: lower-case hexadecimal. *)
Definition hex_digit (d : Z) : ascii :=
  if d <? 10 then byte_of (48 + d) else byte_of (87 + d).

Fixpoint hex_lower_aux (fuel : nat) (n : Z) (acc : string) : string :=
  match fuel with
  | O => acc
  | S fuel' =>
      let acc' := String (hex_digit (n mod 16)) acc in
      if n / 16 =? 0 then acc' else hex_lower_aux fuel' (n / 16) acc'
  end.

Definition asprintf_lx (n : Z) : string :=
  hex_lower_aux 16 (n mod 2 ^ 64) EmptyString.

Definition send_option_line (name : string) (v : QVariant) : string :=
  String.append "OPTION "
    (String.append name
       (match v with
        | Some _ => String.append "=" (toString v)
        | None => EmptyString
        end)).

Definition send_option (env : Env) (st : Step) (name : string) (v : QVariant)
    (s : RunState) : Response * RunState :=
  my_assuan_transact env st (send_option_line name v) no_inquire_cb s.

Definition send_file (env : Env) (f : string) (s : RunState) : Response * RunState :=
  my_assuan_transact env SendFile
    (String.append "FILE " (Hex.hexencode_bytes (Some f))) no_inquire_cb s.

Definition send_recipient (env : Env) (recipient : string) (info : bool)
    (s : RunState) : Response * RunState :=
  my_assuan_transact env SendRecipient
    (String.append "RECIPIENT "
       (String.append (if info then "--info " else EmptyString)
          (String.append "--" (Hex.hexencode_bytes (Some recipient)))))
    no_inquire_cb s.

Definition send_sender (env : Env) (sender : string) (info : bool)
    (s : RunState) : Response * RunState :=
  my_assuan_transact env SendSender
    (String.append "SENDER "
       (String.append (if info then "--info " else EmptyString)
          (String.append "--" (Hex.hexencode_bytes (Some sender)))))
    no_inquire_cb s.

(** The messages built with [i18n]. *)
Definition i18n2 (a b c d : string) : string :=
  String.append a (String.append b (String.append c d)).

(** The retry loop [for (i = 0; err && i < 20; ++i)]: [n] iterations
    are left, [i] connection attempts were made after the first. *)
Fixpoint connect_retry (env : Env) (socketName : string) (n i : nat) (e : Z) : Z :=
  match n with
  | O => e
  | S n' =>
      if e =? 0 then e
      else connect_retry env socketName n' (S i)
                         (assuan_socket_connect env (S i) socketName)
  end.

(** A [std::map] is walked in the order of its keys. *)
Definition options_in_order (m : gmap string Option) : list (string * Option) :=
  merge_sort (fun a b => Is_true (String.leb (fst a) (fst b))) (map_to_list m).

(** The loop over [in.options]. *)
Fixpoint send_options (env : Env) (l : list (string * Option)) (s : RunState) : Flow :=
  match l with
  | [] => Continue s
  | (name, o) :: rest =>
      let '(resp, s1) :=
        send_option env (SendOption name) name
                    (if hasValue o then Some (toString (value o)) else None) s in
      if negb (err resp =? 0) then
        if isCritical o then
          Leave (set_errorString
                   (i18n2 "Failed to send critical option " name ": "
                          (to_error_string env (err resp))) s1)
        else send_options env rest s1
      else send_options env rest s1
  end.

(** The loop over [in.filePaths]. *)
Fixpoint send_files (env : Env) (l : list string) (s : RunState) : Flow :=
  match l with
  | [] => Continue s
  | filePath :: rest =>
      let '(resp, s1) := send_file env filePath s in
      if negb (err resp =? 0) then
        Leave (set_errorString
                 (i18n2 "Failed to send file path " filePath ": "
                        (to_error_string env (err resp))) s1)
      else send_files env rest s1
  end.

(** The loop over [in.senders]. *)
Fixpoint send_senders (env : Env) (info : bool) (l : list string) (s : RunState) : Flow :=
  match l with
  | [] => Continue s
  | sender :: rest =>
      let '(resp, s1) := send_sender env sender info s in
      if negb (err resp =? 0) then
        Leave (set_errorString
                 (i18n2 "Failed to send sender " sender ": "
                        (to_error_string env (err resp))) s1)
      else send_senders env info rest s1
  end.

(** The loop over [in.recipients]. *)
Fixpoint send_recipients (env : Env) (info : bool) (l : list string) (s : RunState) : Flow :=
  match l with
  | [] => Continue s
  | recipient :: rest =>
      let '(resp, s1) := send_recipient env recipient info s in
      if negb (err resp =? 0) then
        Leave (set_errorString
                 (i18n2 "Failed to send recipient " recipient ": "
                        (to_error_string env (err resp))) s1)
      else send_recipients env info rest s1
  end.

(** Resolving the socket name and connecting, up to the second
    [if (err)]. *)
Definition connect (env : Env) (s : RunState) : Flow :=
  let s :=
    if String.eqb (serverLocation (out s)) EmptyString
    then set_serverLocation (default_socket_name env) s else s in
  let socketName := serverLocation (out s) in
  if String.eqb socketName EmptyString then
    Leave (set_errorString "Invalid socket name!" s)
  else if negb (assuan_new env =? 0) then
    Leave (set_errorString
             (i18n2 "Could not allocate resources to connect to Kleopatra UI server at "
                    socketName ": " (to_error_string env (assuan_new env))) s)
  else
    let e := assuan_socket_connect env 0 socketName in
    let started :=
      if negb (e =? 0) then
        if negb (String.eqb (start_uiserver env) EmptyString)
        then inl (start_uiserver env)
        else inr (connect_retry env socketName 20 0 e)
      else inr e in
    match started with
    | inl errorString_ => Leave (set_errorString errorString_ s)
    | inr e =>
        if negb (e =? 0) then
          Leave (set_errorString
                   (i18n2 "Could not connect to Kleopatra UI server at "
                          socketName ": " (to_error_string env e)) s)
        else Continue s
    end.

(** [GETINFO pid]. *)
Definition getinfo_pid (env : Env) (s : RunState) : Flow :=
  let socketName := serverLocation (out s) in
  let s := set_serverPid (-1) s in
  let '(resp, s1) := my_assuan_transact env GetInfoPid "GETINFO pid" no_inquire_cb s in
  let s2 :=
    set_serverPid (fold_left (getinfo_pid_cb env) (chunks resp) (serverPid (out s1))) s1 in
  if negb (err resp =? 0) || (serverPid (out s2) <=? 0) then
    Leave (set_errorString
             (i18n2 "Could not get the process-id of the Kleopatra UI server at "
                    socketName ": " (to_error_string env (err resp))) s2)
  else Continue s2.

(** The [window-id] option: its failure is ignored. *)
Definition send_window_id (env : Env) (in_ : Inputs) (s : RunState) : Flow :=
  if negb (parentWId in_ =? 0) then
    let '(_, s1) :=
      send_option env WindowId "window-id" (Some (asprintf_lx (parentWId in_))) s in
    Continue s1
  else Continue s.

(** The main command with both callbacks. *)
Definition send_command (env : Env) (in_ : Inputs) (s : RunState) : Flow :=
  let '(resp, s1) :=
    my_assuan_transact env MainCommand (command in_)
                       (command_inquire_cb (inquireData in_)) s in
  let s2 := set_data (fold_left command_data_cb (chunks resp) (data (out s1))) s1 in
  if negb (err resp =? 0) then
    if gpg_err_code (err resp) =? GPG_ERR_CANCELED then
      Leave (set_canceled true s2)
    else
      Leave (set_errorString
               (i18n2 "Command (" (command in_) ") failed: "
                      (to_error_string env (err resp))) s2)
  else Continue s2.

(** The body of [Command::Private::run] from the snapshot of the inputs
    to the label [leave]. *)
Definition run_flow (env : Env) (in_ : Inputs) : Flow :=
  let s := MakeRunState Outputs_default [] in
  let s := set_canceled false s in
  andThen (connect env s) (fun s =>
  andThen (getinfo_pid env s) (fun s =>
  if String.eqb (command in_) EmptyString then Leave s else
  andThen (send_window_id env in_ s) (fun s =>
  andThen (send_options env (options_in_order (options in_)) s) (fun s =>
  andThen (send_files env (filePaths in_) s) (fun s =>
  andThen (send_senders env (areSendersInformative in_) (senders in_) s) (fun s =>
  andThen (send_recipients env (areRecipientsInformative in_) (recipients in_) s) (fun s =>
  send_command env in_ s))))))).

(** [Command::Private::run]: the command with [outputs = out] done at
    [leave], and the lines exchanged. *)
Definition run (env : Env) (c : t) : t * list Exchange :=
  let s := final (run_flow env (inputs c)) in
  (Make (inputs c) (out s), trace s).

(** ** The three outcomes and the fatal failures *)

Definition succeeded (o : Outputs) : Prop :=
  errorString o = EmptyString /\ canceled o = false.

Definition was_canceled (o : Outputs) : Prop :=
  errorString o = EmptyString /\ canceled o = true.

Definition failed (o : Outputs) : Prop :=
  errorString o <> EmptyString /\ canceled o = false.

(** The answer to the main command carries the status "canceled". *)
Definition canceled_answer (e : Exchange) : Prop :=
  step e = MainCommand
  /\ err (response e) <> 0
  /\ gpg_err_code (err (response e)) = GPG_ERR_CANCELED.

(** The exchanges after which [run()] gives up: a failed line other than
    [window-id] and the options that are not critical, or a process id
    that is not positive. *)
Definition fatal_failure (env : Env) (in_ : Inputs) (e : Exchange) : Prop :=
  match step e with
  | GetInfoPid =>
      err (response e) <> 0
      \/ fold_left (getinfo_pid_cb env) (chunks (response e)) (-1) <= 0
  | WindowId => False
  | SendOption name =>
      err (response e) <> 0
      /\ exists o, options in_ !! name = Some o /\ isCritical o = true
  | SendFile | SendSender | SendRecipient | MainCommand =>
      err (response e) <> 0
  end.

(** No line follows a fatal failure. *)
Definition short_circuited (env : Env) (in_ : Inputs) (tr : list Exchange) : Prop :=
  forall pre e post,
    tr = (pre ++ e :: post)%list -> fatal_failure env in_ e -> post = [].

(** No exchange of the trace is a fatal failure. *)
Definition clean (env : Env) (in_ : Inputs) (tr : list Exchange) : Prop :=
  Forall (fun e => ~ fatal_failure env in_ e) tr.

(** The state when control passes from one step to the next. *)
Definition ok_state (env : Env) (in_ : Inputs) (s : RunState) : Prop :=
  succeeded (out s) /\ clean env in_ (trace s).

(** The state at the label [leave]: success after clean exchanges; or
    an error string, with no line sent at all or with a fatal failure
    as the last exchange; or the flag set by a canceled main command. *)
Definition left_state (env : Env) (in_ : Inputs) (s : RunState) : Prop :=
  (succeeded (out s) /\ clean env in_ (trace s))
  \/ (failed (out s)
      /\ (trace s = []
          \/ exists pre e,
               trace s = (pre ++ [e])%list /\ clean env in_ pre
               /\ fatal_failure env in_ e /\ ~ canceled_answer e))
  \/ (was_canceled (out s)
      /\ exists pre e,
           trace s = (pre ++ [e])%list /\ clean env in_ pre /\ canceled_answer e).

Definition flow_ok (env : Env) (in_ : Inputs) (f : Flow) : Prop :=
  match f with
  | Continue s => ok_state env in_ s
  | Leave s => left_state env in_ s
  end.

(** ** Further accessors *)

Definition set_inquireData (m : gmap string string) (c : t) : t :=
  let i := inputs c in
  Make (MakeInputs (parentWId i) (options i) (filePaths i) (recipients i)
                   (senders i) (areRecipientsInformative i)
                   (areSendersInformative i) m (command i))
       (outputs c).

(** [Command::setServerLocation]: the location is kept with the
    outputs. *)
Definition setServerLocation (location : string) (c : t) : t :=
  let o := outputs c in
  Make (inputs c)
       (MakeOutputs (errorString o) (canceled o) (data o) location (serverPid o)).

(** [Command::setInquireData], [unsetInquireData], [inquireData] and
    [isInquireDataSet]; there is no guard on [what] here.  The getter
    answers a null array ([None]) for a name that is not staged. *)
Definition setInquireData (what : string) (data_ : string) (c : t) : t :=
  set_inquireData (<[what := data_]> (inquireData (inputs c))) c.

Definition unsetInquireData (what : string) (c : t) : t :=
  set_inquireData (delete what (inquireData (inputs c))) c.

Definition getInquireData (what : string) (c : t) : option string :=
  inquireData (inputs c) !! what.

Definition isInquireDataSet (what : string) (c : t) : bool :=
  bool_decide (is_Some (inquireData (inputs c) !! what)).

(** ** The protocol order *)

(** The value sent with an option: its rendering when it has one. *)
Definition option_arg (o : Option) : QVariant :=
  if hasValue o then Some (toString (value o)) else None.

Definition file_line (f : string) : string :=
  String.append "FILE " (Hex.hexencode_bytes (Some f)).

Definition sender_line (info : bool) (sender : string) : string :=
  String.append "SENDER "
    (String.append (if info then "--info " else EmptyString)
       (String.append "--" (Hex.hexencode_bytes (Some sender)))).

Definition recipient_line (info : bool) (recipient : string) : string :=
  String.append "RECIPIENT "
    (String.append (if info then "--info " else EmptyString)
       (String.append "--" (Hex.hexencode_bytes (Some recipient)))).

(** The lines after [GETINFO pid], in the order of the statements of
    [run()]. *)
Definition command_plan (in_ : Inputs) : list (Step * string) :=
  ((if negb (parentWId in_ =? 0)
    then [(WindowId, send_option_line "window-id"
                       (Some (asprintf_lx (parentWId in_))))]
    else [])
   ++ List.map (fun no => (SendOption (fst no),
                           send_option_line (fst no) (option_arg (snd no))))
               (options_in_order (options in_))
   ++ List.map (fun f => (SendFile, file_line f)) (filePaths in_)
   ++ List.map (fun x => (SendSender, sender_line (areSendersInformative in_) x))
               (senders in_)
   ++ List.map (fun x => (SendRecipient,
                          recipient_line (areRecipientsInformative in_) x))
               (recipients in_)
   ++ [(MainCommand, command in_)])%list.

(** All the lines of a complete exchange. *)
Definition plan (in_ : Inputs) : list (Step * string) :=
  (GetInfoPid, "GETINFO pid")
  :: (if String.eqb (command in_) EmptyString then [] else command_plan in_).

(** The step and the line of each exchange of a trace. *)
Definition sent (tr : list Exchange) : list (Step * string) :=
  List.map (fun e => (step e, line e)) tr.

(** The inquire callback that [run()] installs for a step. *)
Definition reply_for (in_ : Inputs) (st : Step) : string -> option string :=
  match st with
  | MainCommand => command_inquire_cb (inquireData in_)
  | _ => no_inquire_cb
  end.

(** Every exchange of the trace records the peer's answer to its line,
    given the lines before, and the replies of the callback installed
    for its step. *)
Definition answers_ok (env : Env) (in_ : Inputs) (tr : list Exchange) : Prop :=
  forall pre e post,
    tr = (pre ++ e :: post)%list ->
    response e = peer env (List.map line pre) (line e)
    /\ replies e = List.map (reply_for in_ (step e)) (inquiries (response e)).

(** The data lines of the answers to the main command. *)
Definition command_chunks (tr : list Exchange) : list string :=
  flat_map (fun e => match step e with
                     | MainCommand => chunks (response e)
                     | _ => []
                     end) tr.

(** What one step of [run()] does to the state [s] it starts from,
    when [lines] are the lines it is to send: it appends exchanges to
    the trace, for these lines in order and for all of them unless it
    leaves, and it leaves only with a failure or a cancellation; the
    server location is not touched; unless [touches_data] the data is
    not touched either and no exchange is a main command. *)
Definition phase_spec (env : Env) (in_ : Inputs) (touches_data : bool)
    (lines : list (Step * string)) (s : RunState) (f : Flow) : Prop :=
  exists extra,
    trace (final f) = (trace s ++ extra)%list
    /\ (answers_ok env in_ (trace s) -> answers_ok env in_ (trace (final f)))
    /\ serverLocation (out (final f)) = serverLocation (out s)
    /\ (touches_data = false ->
        data (out (final f)) = data (out s)
        /\ Forall (fun e => step e <> MainCommand) extra)
    /\ match f with
       | Continue s' => sent extra = lines
       | Leave s' =>
           (exists rest, lines = (sent extra ++ rest)%list)
           /\ ~ succeeded (out s')
       end.

(** The data held by the outputs is the data received for the main
    command. *)
Definition data_ok (s : RunState) : Prop :=
  data (out s) = fold_left command_data_cb (command_chunks (trace s)) EmptyString.

(** The socket name [run()] works with. *)
Definition resolved_location (env : Env) (s : RunState) : string :=
  if String.eqb (serverLocation (out s)) EmptyString
  then default_socket_name env else serverLocation (out s).

(** The connection attempts allow [run()] to go on: the first one
    succeeds, or the server could be started and one of the twenty
    attempts that follow succeeds. *)
Definition can_connect (env : Env) (name : string) : Prop :=
  assuan_socket_connect env 0 name = 0
  \/ (start_uiserver env = EmptyString
      /\ exists k, (1 <= k <= 20)%nat /\ assuan_socket_connect env k name = 0).

(** The connection phase of [run()] gets through: it starts from the
    default outputs, so the socket name is the default one. *)
Definition connects (env : Env) : Prop :=
  default_socket_name env <> EmptyString
  /\ assuan_new env = 0
  /\ can_connect env (default_socket_name env).

(** An answer with an error status that [run()] does not act upon: the
    answer to the [window-id] option or to an option that is not
    critical. *)
Definition ignored_failure (in_ : Inputs) (e : Exchange) : Prop :=
  err (response e) <> 0
  /\ match step e with
     | WindowId => True
     | SendOption name =>
         exists o, options in_ !! name = Some o /\ isCritical o = false
     | _ => False
     end.

End Command.

(** * Sample inputs

    Concrete devices, servers and commands on which the statements below
    are instantiated. *)

Module Sample.

Definition no_inputs : Command.Inputs :=
  Command.MakeInputs 0 (empty : gmap string Command.Option) [] [] [] false false
    (empty : gmap string string) EmptyString.

(** A command with one critical option set. *)
Definition command_with_option : Command.t :=
  Command.setOptionValue (Some "mode") (Some "quick") true
    (Command.Make no_inputs Command.Outputs_default).

(** A device opened for reading on descriptor 3. *)
Definition read_device : KDPipeIODevice.t :=
  snd (KDPipeIODevice.open KDPipeIODevice.new 3 KDPipeIODevice.ReadOnly).

(** A device opened for writing on descriptor 4. *)
Definition write_device : KDPipeIODevice.t :=
  snd (KDPipeIODevice.open KDPipeIODevice.new 4 KDPipeIODevice.WriteOnly).

(** A server configured for the socket path [/run/S.uiserver]. *)
Definition server : UiServer.t :=
  UiServer.Make None [] "/run/S.uiserver" EmptyString false false.

(** A file system with a socket file left behind at that path. *)
Definition stale_world : gmap string UiServer.node :=
  <["/run/S.uiserver" := UiServer.StaleSocket]> empty.

(** A file system where a running server listens at that path. *)
Definition live_world : gmap string UiServer.node :=
  <["/run/S.uiserver" := UiServer.LiveSocket]> empty.

(** A server that was asked to stop while two connections are open. *)
Definition draining_server : UiServer.t :=
  UiServer.Make None [11; 12] "/run/S.uiserver" "/run/S.uiserver" false false.

(** A peer that accepts everything except [FILE] lines, which it answers
    with the status "canceled"; its process id is 4711. *)
Definition canceling_peer (history : list string) (line_ : string) : Command.Response :=
  if String.eqb line_ "GETINFO pid" then Command.MakeResponse 0 ["4711"] []
  else if String.prefix "FILE " line_ then Command.MakeResponse 99 [] []
  else Command.MakeResponse 0 [] [].

Definition canceling_env : Command.Env :=
  Command.MakeEnv "/run/S.uiserver" 0 (fun _ _ => 0) EmptyString
    (fun e => if e =? 99 then "Operation cancelled" else "General error")
    (fun b => if String.eqb b "4711" then 4711 else 0)
    canceling_peer.

(** A command that names one file. *)
Definition decrypt_command : Command.t :=
  Command.Make
    (Command.MakeInputs 0 (empty : gmap string Command.Option) ["a b"] [] []
       false false (empty : gmap string string) "DECRYPT_FILES")
    Command.Outputs_default.

(** A peer that answers the main command with "canceled". *)
Definition canceling_main_peer (history : list string) (line_ : string)
  : Command.Response :=
  if String.eqb line_ "GETINFO pid" then Command.MakeResponse 0 ["4711"] []
  else if String.eqb line_ "DECRYPT_FILES" then Command.MakeResponse 99 [] []
  else Command.MakeResponse 0 [] [].

Definition canceling_main_env : Command.Env :=
  Command.MakeEnv "/run/S.uiserver" 0 (fun _ _ => 0) EmptyString
    (fun e => if e =? 99 then "Operation cancelled" else "General error")
    (fun b => if String.eqb b "4711" then 4711 else 0)
    canceling_main_peer.

(** [n] copies of the letter [a]. *)
Definition letters (n : nat) : list ascii := repeat "a"%char n.

(** The device after one more iteration of [Reader::run] whose OS read
    answers [res]. *)
Definition after_read (res : os_read) (d : KDPipeIODevice.t) : KDPipeIODevice.t :=
  match KDPipeIODevice.reader d with
  | Some r =>
      match Reader.run_prepare r with
      | Some (r1, _) =>
          KDPipeIODevice.set_reader (Some (Reader.run_complete r1 res)) d
      | None => d
      end
  | None => d
  end.

(** The device after a [readData] of [maxSize] bytes that returned. *)
Definition after_consume (maxSize : Z) (d : KDPipeIODevice.t) : KDPipeIODevice.t :=
  match KDPipeIODevice.readData d maxSize with
  | KDPipeIODevice.Returned _ _ d' => d'
  | _ => d
  end.

Definition os_data (n : nat) : os_read := OsRead (Z.of_nat n) (letters n) 0.

(** The Reader fills the buffer (4096 bytes), the consumer takes 10, the
    Reader stores one byte up to the end of the array and nine more at
    its start: the buffer is full again and its content wraps, with the
    read pointer at 10 and the write pointer at 9. *)
Definition wrapped_device : KDPipeIODevice.t :=
  after_read (os_data 9)
    (after_read (os_data 1)
       (after_consume 10
          (after_read (os_data 4096) read_device))).

(** The Reader of a device ([Reader.new] when it has none). *)
Definition reader_of (d : KDPipeIODevice.t) : Reader.t :=
  match KDPipeIODevice.reader d with
  | Some r => r
  | None => Reader.new (-1) 0
  end.

(** The first OS read fails with [EIO]. *)
Definition failed_device : KDPipeIODevice.t :=
  after_read (OsRead (-1) [] 5) read_device.

(** The Reader stored three bytes and the consumer took two of them. *)
Definition partly_read_device : KDPipeIODevice.t :=
  after_consume 2 (after_read (os_data 3) read_device).

(** A device on which [bytesAvailable] was called before it was opened. *)
Definition probed_device : KDPipeIODevice.t :=
  snd (KDPipeIODevice.bytesAvailable KDPipeIODevice.new).

(** An operating system that accepts at most 1000 bytes per write. *)
Definition os_chunks (k : nat) (off cnt : Z) : os_write :=
  OsWrite (Z.min cnt 1000) 0.

(** No server listens and none can be reached after the spawn. *)
Definition unreachable_env : Command.Env :=
  Command.MakeEnv "/run/S.uiserver" 0 (fun _ _ => 1) EmptyString
    (fun e => "Connection refused")
    (fun b => if String.eqb b "4711" then 4711 else 0)
    (fun _ _ => Command.MakeResponse 0 [] []).

(** A peer that rejects every [OPTION] line and accepts the rest. *)
Definition option_rejecting_peer (history : list string) (line_ : string)
  : Command.Response :=
  if String.eqb line_ "GETINFO pid" then Command.MakeResponse 0 ["4711"] []
  else if String.prefix "OPTION " line_ then Command.MakeResponse 5 [] []
  else Command.MakeResponse 0 [] [].

Definition option_rejecting_env : Command.Env :=
  Command.MakeEnv "/run/S.uiserver" 0 (fun _ _ => 0) EmptyString
    (fun e => "General error")
    (fun b => if String.eqb b "4711" then 4711 else 0)
    option_rejecting_peer.

(** A command with a parent window, an option that is not critical and
    one file. *)
Definition window_command : Command.t :=
  Command.Make
    (Command.MakeInputs 255
       (<["mode" := Command.MakeOption (Some "quick") true false]>
          (empty : gmap string Command.Option))
       ["a b"] [] [] false false (empty : gmap string string) "DECRYPT_FILES")
    Command.Outputs_default.
(** A peer that inquires for a passphrase while it handles a [FILE]
    line, and for a passphrase and a pin during the main command. *)
Definition inquiring_peer (history : list string) (line_ : string)
  : Command.Response :=
  if String.eqb line_ "GETINFO pid" then Command.MakeResponse 0 ["4711"] []
  else if String.prefix "FILE " line_
  then Command.MakeResponse 0 [] ["passphrase"]
  else if String.eqb line_ "DECRYPT_FILES"
  then Command.MakeResponse 0 ["plain"] ["passphrase"; "pin"]
  else Command.MakeResponse 0 [] [].

Definition inquiring_env : Command.Env :=
  Command.MakeEnv "/run/S.uiserver" 0 (fun _ _ => 0) EmptyString
    (fun e => "General error")
    (fun b => if String.eqb b "4711" then 4711 else 0)
    inquiring_peer.

(** The command naming one file, with a passphrase staged. *)
Definition staged_command : Command.t :=
  Command.setInquireData "passphrase" "s3cr3t" decrypt_command.

Definition no_exchange : Command.Exchange :=
  Command.MakeExchange Command.GetInfoPid EmptyString
    (Command.MakeResponse 0 [] []) [].

(** The Reader fills the buffer, the consumer takes all but one byte,
    the Reader stores one byte in the last cell of the array and a line
    feed in the first: three unread bytes, wrapping around the end. *)
Definition line_device : KDPipeIODevice.t :=
  after_read (OsRead 1 ["010"%char] 0)
    (after_read (OsRead 1 ["x"%char] 0)
       (after_consume 4095
          (after_read (os_data 4096) read_device))).

End Sample.

(** * Properties *)

(** ** Bytes *)

Lemma uchar_range c : 0 <= uchar c < 256.
Proof.
  unfold uchar. pose proof (N_ascii_bounded c). lia.
Qed.

Lemma byte_of_uchar c : byte_of (uchar c) = c.
Proof.
  unfold byte_of. rewrite Z.mod_small by apply uchar_range.
  unfold uchar. rewrite N2Z.id. apply ascii_N_embedding.
Qed.

Lemma all_bytes_complete c : In c all_bytes.
Proof.
  unfold all_bytes. apply in_map_iff. exists (nat_of_ascii c). split.
  - apply ascii_nat_embedding.
  - apply in_seq. pose proof (nat_ascii_bounded c). simpl. lia.
Qed.

Lemma forall_bytes (P : ascii -> bool) :
  forallb P all_bytes = true -> forall c, P c = true.
Proof.
  intros H c. rewrite forallb_forall in H. apply H, all_bytes_complete.
Qed.

(** ** hexencode *)

Section HexFacts.

Import Hex.

Lemma literal_never_special c : literal_ok c = true.
Proof. revert c. apply forall_bytes. vm_compute. reflexivity. Qed.

Lemma escape_digits_decode c : escape_ok c = true.
Proof. revert c. apply forall_bytes. vm_compute. reflexivity. Qed.

Lemma hexdecode_app_char c rest :
  falls_through c = false ->
  hexdecode (String.append (hexencode_char c) rest)
  = option_map (String c) (hexdecode rest).
Proof.
  intros Hft.
  pose proof (literal_never_special c) as Hlit.
  unfold falls_through in Hft. unfold literal_ok in Hlit.
  unfold hexencode_char.
  destruct (uchar c =? 32) eqn:Hsp.
  - apply Z.eqb_eq in Hsp. cbn [String.append hexdecode].
    change (uchar "+" =? 43) with true. cbn iota.
    replace c with " "%char; [reflexivity|].
    rewrite <- (byte_of_uchar c), Hsp. reflexivity.
  - destruct (is_escaped_case (uchar c)) eqn:Hesc.
    + pose proof (escape_digits_decode c) as Hrt. unfold escape_ok in Hrt.
      change (hexdecode (String.append (String "%" (String (hex_at (Z.shiftr (Z.land (uchar c) 240) 4))
          (String (hex_at (Z.land (uchar c) 15)) EmptyString))) rest))
        with (match unhex (hex_at (Z.shiftr (Z.land (uchar c) 240) 4)),
                    unhex (hex_at (Z.land (uchar c) 15)) with
              | Some hv, Some lv =>
                  option_map (String (byte_of (16 * hv + lv))) (hexdecode rest)
              | _, _ => None
              end).
      destruct (unhex (hex_at (Z.shiftr (Z.land (uchar c) 240) 4))); [|discriminate].
      destruct (unhex (hex_at (Z.land (uchar c) 15))); [|discriminate].
      apply Ascii.eqb_eq in Hrt. rewrite Hrt. reflexivity.
    + cbn [negb andb] in Hft. apply negb_false_iff in Hft.
      rewrite Hft in *.
      apply andb_true_iff in Hlit as [H43 H37].
      apply negb_true_iff in H43, H37.
      change (hexdecode (String.append (String c EmptyString) rest))
        with (if uchar c =? 43 then option_map (String " "%char) (hexdecode rest)
              else if uchar c =? 37 then
                match rest with
                | String h (String l rest') =>
                    match unhex h, unhex l with
                    | Some hv, Some lv =>
                        option_map (String (byte_of (16 * hv + lv))) (hexdecode rest')
                    | _, _ => None
                    end
                | _ => None
                end
              else option_map (String c) (hexdecode rest)).
      rewrite H43, H37. reflexivity.
Qed.

(** On input without control bytes, DEL and 0x80..0xA0 the round trip
    holds. *)
Lemma hexencode_roundtrip_safe s :
  (forall c, In c (list_ascii_of_string s) -> falls_through c = false) ->
  hexdecode (hexencode s) = Some s.
Proof.
  induction s as [|c s IH]; intros Hsafe; [reflexivity|].
  cbn [hexencode]. rewrite hexdecode_app_char.
  - rewrite IH; [reflexivity|].
    intros c' Hc'. apply Hsafe. cbn. right. exact Hc'.
  - apply Hsafe. cbn. left. reflexivity.
Qed.

(** Every byte that falls through is written as a plus sign, like the
    space. *)
Lemma hexencode_falls_through c :
  falls_through c = true -> hexencode_char c = "+".
Proof.
  unfold falls_through, hexencode_char. intros H.
  destruct (uchar c =? 32); [reflexivity|].
  destruct (is_escaped_case (uchar c)); [discriminate|].
  cbn [negb andb] in H. apply negb_true_iff in H. rewrite H. reflexivity.
Qed.

(** The bytes concerned: 0x00..0x1F, 0x7F and 0x80..0xA0. *)
Lemma falls_through_range c :
  falls_through c = true <->
  (uchar c < 32 \/ (127 <= uchar c <= 160)).
Proof.
  pose proof (uchar_range c).
  unfold falls_through, is_escaped_case. split.
  - intros H1. repeat (apply andb_true_iff in H1 as [H1 ?]).
    rewrite negb_true_iff in *. rewrite orb_false_iff in *.
    rewrite andb_false_iff in *. lia.
  - intros H1. repeat (apply andb_true_iff; split); rewrite negb_true_iff;
      repeat rewrite orb_false_iff; rewrite ?andb_false_iff; lia.
Qed.

(** No decoder at all can undo [hexencode]: two different inputs have
    the same encoding. *)
Lemma hexencode_not_injective :
  hexencode (String "001" EmptyString) = hexencode " "
  /\ String "001" EmptyString <> " ".
Proof. split; [reflexivity | discriminate]. Qed.

(** C1.  The client encoding does not round-trip: the one-byte input
    0x01 (a control byte) is written as a plus sign, not as [%01], and
    the decoder reads it back as a space.  The same happens to the
    second byte of the UTF-8 encoding 0xC3 0x84 of a capital A with
    diaeresis, a high-bit byte. *)
Theorem hexencode_control_byte_lost :
  hexencode (String "001" EmptyString) = "+"
  /\ hexencode (String "001" EmptyString) <> "%01"
  /\ hexdecode (hexencode (String "001" EmptyString)) = Some " "
  /\ hexdecode (hexencode (String "001" EmptyString))
     <> Some (String "001" EmptyString)
  /\ hexencode (String "195" (String "132" EmptyString))
     = String "195" "+"
  /\ hexdecode (hexencode (String "195" (String "132" EmptyString)))
     = Some (String "195" " ")
  /\ hexdecode (hexencode (String "195" (String "132" EmptyString)))
     <> Some (String "195" (String "132" EmptyString)).
Proof. repeat split; try reflexivity; discriminate. Qed.

End HexFacts.

(** ** Command options *)

Section OptionFacts.

Import Command.

Lemma null_or_empty_spec name :
  null_or_empty name = true <-> name = None \/ name = Some EmptyString.
Proof.
  destruct name as [n|]; cbn.
  - rewrite String.eqb_eq. split.
    + intros ->. right. reflexivity.
    + intros [H|H]; congruence.
  - split; [left; reflexivity | reflexivity].
Qed.

(** With a proper name the accessors do read and write the map. *)
Lemma optionValue_setOptionValue n v critical c :
  n <> EmptyString ->
  optionValue (Some n) (setOptionValue (Some n) v critical c) = v
  /\ isOptionSet (Some n) (setOptionValue (Some n) v critical c) = true
  /\ isOptionCritical (Some n) (setOptionValue (Some n) v critical c) = critical.
Proof.
  intros Hn. apply String.eqb_neq in Hn.
  unfold optionValue, isOptionSet, isOptionCritical, setOptionValue.
  cbn [null_or_empty key]. rewrite Hn. cbn.
  rewrite lookup_insert_eq. cbn. repeat split.
Qed.

Lemma isOptionSet_unsetOption n c :
  n <> EmptyString ->
  isOptionSet (Some n) (unsetOption (Some n) c) = false.
Proof.
  intros Hn. apply String.eqb_neq in Hn.
  unfold isOptionSet, unsetOption. cbn [null_or_empty key]. rewrite Hn. cbn.
  rewrite lookup_delete_eq. apply bool_decide_eq_false.
  intros [x Hx]. discriminate.
Qed.

(** C10.  With a null or empty option name the three setters leave the
    command as it is and the three getters answer the neutral value,
    whatever the option map holds. *)
Theorem null_or_empty_option_name_ignored
    (name : option string) (v : QVariant) (critical : bool) (c : Command.t) :
  name = None \/ name = Some EmptyString ->
  setOptionValue name v critical c = c
  /\ setOption name critical c = c
  /\ unsetOption name c = c
  /\ optionValue name c = None
  /\ isOptionSet name c = false
  /\ isOptionCritical name c = false.
Proof.
  intros H. apply null_or_empty_spec in H.
  unfold setOptionValue, setOption, unsetOption, optionValue, isOptionSet,
    isOptionCritical.
  rewrite H. repeat split.
Qed.

End OptionFacts.

Lemma null_or_empty_option_name_ignored_witness :
  (Some EmptyString = None \/ Some EmptyString = Some EmptyString)
  /\ Command.setOptionValue (Some EmptyString) (Some "x") true
       Sample.command_with_option = Sample.command_with_option
  /\ Command.setOption (Some EmptyString) true Sample.command_with_option
     = Sample.command_with_option
  /\ Command.unsetOption (Some EmptyString) Sample.command_with_option
     = Sample.command_with_option
  /\ Command.optionValue (Some EmptyString) Sample.command_with_option = None
  /\ Command.isOptionSet (Some EmptyString) Sample.command_with_option = false
  /\ Command.isOptionCritical (Some EmptyString) Sample.command_with_option = false.
Proof.
  split.
  - right. reflexivity.
  - apply (null_or_empty_option_name_ignored (Some EmptyString) (Some "x") true
             Sample.command_with_option).
    right. reflexivity.
Defined.

(** ** Opening the device *)

Section OpenFacts.

Import KDPipeIODevice.

Lemma invalid_descriptor_test (win32 : bool) (fd_ handle_ : Z) :
  (if win32 then handle_ =? 0 else fd_ <? 0) = true
  <-> invalid_descriptor win32 fd_ handle_.
Proof.
  unfold invalid_descriptor. destruct win32.
  - apply Z.eqb_eq.
  - apply Z.ltb_lt.
Qed.

Lemma doOpen_refused (win32 : bool) (d : KDPipeIODevice.t) (fd_ handle_ mode_ : Z) :
  isOpen d = true \/ invalid_descriptor win32 fd_ handle_
  \/ Z.land mode_ ReadWrite = 0 ->
  doOpen win32 d fd_ handle_ mode_ = (false, d).
Proof.
  intros H. unfold doOpen.
  destruct (isOpen d); [reflexivity|].
  destruct (if win32 then handle_ =? 0 else fd_ <? 0) eqn:Hinv; [reflexivity|].
  destruct (Z.land mode_ ReadWrite =? 0) eqn:Hm; [reflexivity|].
  exfalso. destruct H as [H|[H|H]].
  - discriminate.
  - apply invalid_descriptor_test in H. congruence.
  - apply Z.eqb_eq in H. congruence.
Qed.

Lemma doOpen_accepted (win32 : bool) (d : KDPipeIODevice.t) (fd_ handle_ mode_ : Z) :
  isOpen d = false -> ~ invalid_descriptor win32 fd_ handle_ ->
  Z.land mode_ ReadWrite <> 0 ->
  doOpen win32 d fd_ handle_ mode_ =
  (true,
   Make (Z.lor mode_ Unbuffered) fd_ handle_
        (if negb (Z.land mode_ ReadOnly =? 0)
         then Some (Reader.new fd_ handle_) else None)
        (if negb (Z.land mode_ WriteOnly =? 0)
         then Some (Writer.new fd_ handle_) else None)
        (triedToStartReader d) (triedToStartWriter d) (qbuffer d)).
Proof.
  intros Hopen Hinv Hm. unfold doOpen. rewrite Hopen.
  destruct (if win32 then handle_ =? 0 else fd_ <? 0) eqn:Hinv'.
  - apply invalid_descriptor_test in Hinv'. contradiction.
  - apply Z.eqb_neq in Hm. rewrite Hm. reflexivity.
Qed.

(** C9, as amended.  [doOpen] returns false and leaves the device as it
    was (still closed when it was closed, still open when it was open) in
    the three refusal cases; otherwise it returns true, creates a Reader
    exactly for [ReadOnly] and a Writer exactly for [WriteOnly], stores
    descriptor and handle and sets the mode to the requested one plus
    [Unbuffered]. *)
Theorem doOpen_refuses_or_commits
    (win32 : bool) (d : KDPipeIODevice.t) (fd_ handle_ mode_ : Z) :
  (isOpen d = true \/ invalid_descriptor win32 fd_ handle_
   \/ Z.land mode_ ReadWrite = 0 ->
   doOpen win32 d fd_ handle_ mode_ = (false, d))
  /\ (isOpen d = false -> ~ invalid_descriptor win32 fd_ handle_ ->
      Z.land mode_ ReadWrite <> 0 ->
      exists d',
        doOpen win32 d fd_ handle_ mode_ = (true, d')
        /\ openMode d' = Z.lor mode_ Unbuffered
        /\ fd d' = fd_ /\ handle d' = handle_
        /\ (is_Some (reader d') <-> Z.land mode_ ReadOnly <> 0)
        /\ (is_Some (writer d') <-> Z.land mode_ WriteOnly <> 0)
        /\ (forall r, reader d' = Some r -> r = Reader.new fd_ handle_)
        /\ (forall w, writer d' = Some w -> w = Writer.new fd_ handle_)).
Proof.
  split; [apply doOpen_refused|].
  intros Hopen Hinv Hm. eexists. split; [apply doOpen_accepted; assumption|].
  cbn [openMode fd handle reader writer].
  repeat split.
  - intros [r Hr]. destruct (Z.land mode_ ReadOnly =? 0) eqn:E; [discriminate|].
    apply Z.eqb_neq. exact E.
  - intros H. apply Z.eqb_neq in H. rewrite H. cbn. eauto.
  - intros [r Hr]. destruct (Z.land mode_ WriteOnly =? 0) eqn:E; [discriminate|].
    apply Z.eqb_neq. exact E.
  - intros H. apply Z.eqb_neq in H. rewrite H. cbn. eauto.
  - intros r Hr. destruct (Z.land mode_ ReadOnly =? 0); cbn in Hr; congruence.
  - intros w Hw. destruct (Z.land mode_ WriteOnly =? 0); cbn in Hw; congruence.
Qed.

Lemma doOpen_refuses_or_commits_witness :
  (isOpen Sample.read_device = true \/ invalid_descriptor false 5 0
   \/ Z.land ReadOnly ReadWrite = 0)
  /\ doOpen false Sample.read_device 5 0 ReadOnly = (false, Sample.read_device)
  /\ isOpen KDPipeIODevice.new = false
  /\ ~ invalid_descriptor false 3 0
  /\ Z.land ReadWrite ReadWrite <> 0
  /\ exists d',
       doOpen false KDPipeIODevice.new 3 0 ReadWrite = (true, d')
       /\ openMode d' = 35.
Proof.
  split; [left; reflexivity|].
  split.
  - apply (proj1 (doOpen_refuses_or_commits false Sample.read_device 5 0 ReadOnly)).
    left. reflexivity.
  - split; [reflexivity|].
    split; [unfold invalid_descriptor; lia|].
    split; [vm_compute; discriminate|].
    destruct (proj2 (doOpen_refuses_or_commits false KDPipeIODevice.new 3 0 ReadWrite))
      as (d' & Hd & Hmode & _).
    + reflexivity.
    + unfold invalid_descriptor. lia.
    + vm_compute. discriminate.
    + exists d'. split; [exact Hd | exact Hmode].
Defined.

(** C9 as stated fails on a device that is already open: the refused
    call returns false and changes nothing, so the device is open
    afterwards, not closed. *)
Lemma doOpen_on_open_device_stays_open :
  isOpen Sample.read_device = true
  /\ doOpen false Sample.read_device 5 0 ReadOnly = (false, Sample.read_device)
  /\ isOpen (snd (doOpen false Sample.read_device 5 0 ReadOnly)) = true
  /\ is_Some (reader (snd (doOpen false Sample.read_device 5 0 ReadOnly))).
Proof.
  repeat split. cbn. eauto.
Qed.

End OpenFacts.

(** ** Writing *)

Section WriteFacts.

Import KDPipeIODevice.

Lemma u32_small (x : Z) : 0 <= x < 2 ^ 32 -> u32 x = x.
Proof. intros H. unfold u32. apply Z.mod_small. exact H. Qed.

Lemma u64_small (x : Z) : 0 <= x < 2 ^ 64 -> u64 x = x.
Proof. intros H. unfold u64. apply Z.mod_small. exact H. Qed.

Lemma store_at_start (dst src : list ascii) :
  firstn (length src) (store dst 0 src) = src.
Proof.
  unfold store. change (Z.to_nat 0) with 0%nat.
  change (firstn 0 dst) with (@nil ascii). cbn [app].
  apply take_app_length.
Qed.

(** [Writer::writeData] takes [min(size, 4096)] bytes. *)
Lemma Writer_writeData_count (w : Writer.t) (data : list ascii) (size : Z) :
  0 <= size <= Z.of_nat (length data) ->
  let n := Z.min size BUFFER_SIZE in
  fst (Writer.writeData w data size) = n
  /\ Writer.numBytesInBuffer (snd (Writer.writeData w data size)) = n
  /\ firstn (Z.to_nat n) (Writer.buffer (snd (Writer.writeData w data size)))
     = firstn (Z.to_nat n) data
  /\ Writer.error (snd (Writer.writeData w data size)) = Writer.error w.
Proof.
  intros Hsize n. unfold Writer.writeData, Writer.sizeof_buffer.
  assert (Hn : (if size >? BUFFER_SIZE then BUFFER_SIZE else size) = n).
  { unfold n, BUFFER_SIZE. destruct (size >? 4096) eqn:E; lia. }
  rewrite Hn. cbn [fst snd Writer.numBytesInBuffer Writer.buffer Writer.error].
  assert (Hrange : 0 <= n <= 4096) by (unfold n, BUFFER_SIZE; lia).
  repeat split.
  - apply u32_small. lia.
  - assert (Hlen : length (firstn (Z.to_nat n) data) = Z.to_nat n).
    { apply firstn_length_le. unfold n. lia. }
    rewrite <- Hlen at 1. apply store_at_start.
Qed.

(** C7.  [writeData] on a device with a Writer: with the error latched it
    returns -1; with no error and the slot free it copies
    [min(n, 4096)] bytes into the slot and returns that count; with the
    slot still occupied the caller waits, and the woken call returns
    [min(n, 4096)] when the Writer flushed the slot and -1 when the
    Writer failed. *)
Theorem writeData_short_write
    (d : KDPipeIODevice.t) (w : Writer.t) (data : list ascii) (size : Z) :
  writer d = Some w ->
  0 <= size <= Z.of_nat (length data) ->
  let n := Z.min size BUFFER_SIZE in
  let flushed := set_writer (Some (Writer.run_flushed w)) (startWriterThread d) in
  (Writer.error w = true ->
   writeData d data size = Returned (-1) [] (startWriterThread d))
  /\ (Writer.error w = false -> Writer.bufferEmpty w = true ->
      exists w',
        writeData d data size
        = Returned n [] (set_writer (Some w') (startWriterThread d))
        /\ Writer.numBytesInBuffer w' = n
        /\ firstn (Z.to_nat n) (Writer.buffer w') = firstn (Z.to_nat n) data
        /\ Writer.error w' = false)
  /\ (Writer.error w = false -> Writer.bufferEmpty w = false ->
      writeData d data size = Blocked (startWriterThread d) size false
      /\ (exists w',
            writeData flushed data size
            = Returned n [] (set_writer (Some w') flushed)
            /\ Writer.numBytesInBuffer w' = n)
      /\ forall code,
           exists d',
             writeData (set_writer (Some (Writer.run_failed code w))
                                   (startWriterThread d)) data size
             = Returned (-1) [] d').
Proof.
  intros Hw Hsize n flushed.
  pose proof (Writer_writeData_count w data size Hsize) as Hcount.
  pose proof (Writer_writeData_count (Writer.run_flushed w) data size Hsize)
    as Hflushed.
  cbv zeta in Hcount, Hflushed. fold n in Hcount, Hflushed.
  split; [|split].
  - intros Herr. unfold writeData. cbn [startWriterThread writer].
    rewrite Hw, Herr. reflexivity.
  - intros Herr Hempty. exists (snd (Writer.writeData w data size)).
    destruct Hcount as (Hret & Hnum & Hbuf & Herr').
    split; [|split; [exact Hnum | split; [exact Hbuf | congruence]]].
    unfold writeData. cbn [startWriterThread writer].
    rewrite Hw, Herr, Hempty. cbn [negb andb].
    destruct (Writer.writeData w data size) as [n' w'] eqn:E.
    cbn [fst snd] in *. subst n'. reflexivity.
  - intros Herr Hfull. split; [|split].
    + unfold writeData. cbn [startWriterThread writer].
      rewrite Hw, Herr, Hfull. reflexivity.
    + exists (snd (Writer.writeData (Writer.run_flushed w) data size)).
      destruct Hflushed as (Hret & Hnum & _).
      split; [|exact Hnum].
      unfold writeData, flushed.
      cbn [startWriterThread set_writer writer openMode fd handle reader
           triedToStartReader triedToStartWriter qbuffer].
      unfold Writer.bufferEmpty.
      cbn [Writer.run_flushed Writer.error Writer.numBytesInBuffer].
      rewrite Herr. cbn [negb andb Z.eqb].
      destruct (Writer.writeData _ data size) as [n' w'] eqn:E.
      cbn [fst snd] in *. subst n'. reflexivity.
    + intros code. eexists. unfold writeData.
      cbn [startWriterThread set_writer writer openMode fd handle reader
           triedToStartReader triedToStartWriter qbuffer].
      cbn [Writer.run_failed Writer.error]. cbn [negb andb]. reflexivity.
Qed.

Lemma writeData_short_write_witness :
  writer Sample.write_device = Some (Writer.new 4 0)
  /\ 0 <= 5000 <= Z.of_nat (length (Sample.letters 5000))
  /\ exists w',
       writeData Sample.write_device (Sample.letters 5000) 5000
       = Returned 4096 []
           (set_writer (Some w') (startWriterThread Sample.write_device))
       /\ Writer.numBytesInBuffer w' = 4096.
Proof.
  split; [reflexivity|]. split; [vm_compute; split; discriminate|].
  destruct (writeData_short_write Sample.write_device (Writer.new 4 0)
              (Sample.letters 5000) 5000) as (_ & Hfree & _).
  - reflexivity.
  - vm_compute. split; discriminate.
  - destruct Hfree as (w' & Hret & Hnum & _).
    + reflexivity.
    + reflexivity.
    + exists w'. split; [exact Hret | exact Hnum].
Defined.

End WriteFacts.

(** ** Server start-up *)

Section StartupFacts.

Import UiServer.

Variable doMakeListeningSocket :
  string -> UiServer.t -> gmap string node -> (string + UiServer.t) * gmap string node.

Lemma QFile_exists_spec (fileName : string) (w : gmap string node) :
  QFile_exists fileName w = true <-> is_Some (w !! fileName).
Proof. unfold QFile_exists. apply bool_decide_eq_true. Qed.

(** The trial connect succeeds exactly on a live socket. *)
Lemma isStaleAssuanSocket_live (fileName : string) (w : gmap string node) :
  isStaleAssuanSocket 0 fileName w = false <-> w !! fileName = Some LiveSocket.
Proof.
  unfold isStaleAssuanSocket, assuan_socket_connect. cbn [Z.eqb negb orb].
  destruct (w !! fileName) as [[| |]|]; cbn; split; intros; congruence.
Qed.

(** Without a file at the path nothing is probed or deleted. *)
Lemma makeListeningSocket_free (assuan_new : Z) (d : UiServer.t) (w : gmap string node) :
  w !! suggestedSocketName d = None ->
  makeListeningSocket doMakeListeningSocket assuan_new d w
  = match doMakeListeningSocket (suggestedSocketName d) d w with
    | (inl msg, w2) => (inl msg, w2)
    | (inr d1, w2) =>
        (inr (Make (file d1) (connections d1) (suggestedSocketName d1)
                   (suggestedSocketName d1) (listening d1)
                   (cryptoCommandsEnabled d1)), w2)
    end.
Proof.
  intros Hfree. unfold makeListeningSocket.
  assert (QFile_exists (suggestedSocketName d) w = false) as ->.
  { unfold QFile_exists. apply bool_decide_eq_false. rewrite Hfree.
    intros [x Hx]. discriminate. }
  reflexivity.
Qed.

(** C3.  With a file at the configured path, the trial connect decides.
    When the context is allocated and [assuan_socket_connect] fails, the
    file is deleted and the server binds and listens at that path.  When
    it succeeds, start-up throws the message "Detected another running
    gnupg UI server listening at" followed by the path, and the file
    system is left as it was, the other server's socket file included.
    When the context cannot be allocated the trial connect fails before
    any connection is attempted, and the file is deleted as well. *)
Theorem makeListeningSocket_stale_or_live
    (assuan_new : Z) (d : UiServer.t) (w : gmap string node) :
  binds_free_path doMakeListeningSocket ->
  is_Some (w !! suggestedSocketName d) ->
  let fileName := suggestedSocketName d in
  let binds :=
    exists d',
      makeListeningSocket doMakeListeningSocket assuan_new d w
      = (inr d', <[fileName := LiveSocket]> (delete fileName w))
      /\ listening d' = true
      /\ actualSocketName d' = fileName in
  (assuan_new = 0 -> assuan_socket_connect fileName w <> 0 -> binds)
  /\ (assuan_new = 0 -> assuan_socket_connect fileName w = 0 ->
      makeListeningSocket doMakeListeningSocket assuan_new d w
      = (inl (String.append
                "Detected another running gnupg UI server listening at "
                (String.append fileName ".")), w)
      /\ w !! fileName = Some LiveSocket)
  /\ (assuan_new <> 0 -> binds).
Proof.
  intros Hbind Hexists fileName binds.
  apply QFile_exists_spec in Hexists. fold fileName in Hexists.
  assert (Hstale : isStaleAssuanSocket assuan_new fileName w = true -> binds).
  { intros Hstale.
    destruct (Hbind fileName d (delete fileName w)) as (d' & Hd' & Hlisten & Hname).
    { apply lookup_delete_eq. }
    unfold binds. eexists. unfold makeListeningSocket. fold fileName.
    rewrite Hexists, Hstale. unfold QFile_remove. rewrite Hd'.
    cbn [listening actualSocketName].
    split; [reflexivity|]. split; [exact Hlisten | exact Hname]. }
  split; [|split].
  - intros Hnew Hconn. apply Hstale. unfold isStaleAssuanSocket.
    apply Z.eqb_neq in Hconn. rewrite Hconn. apply orb_true_r.
  - intros Hnew Hconn. unfold makeListeningSocket. fold fileName.
    assert (Hlive : isStaleAssuanSocket assuan_new fileName w = false).
    { unfold isStaleAssuanSocket. rewrite Hnew, Hconn. reflexivity. }
    rewrite Hexists, Hlive. split; [reflexivity|].
    unfold assuan_socket_connect in Hconn.
    destruct (w !! fileName) as [[| |]|]; congruence.
  - intros Hnew. apply Hstale. unfold isStaleAssuanSocket.
    apply Z.eqb_neq in Hnew. rewrite Hnew. reflexivity.
Qed.

End StartupFacts.

Lemma bind_and_listen_binds_free_path :
  UiServer.binds_free_path UiServer.bind_and_listen.
Proof.
  intros fileName d w Hfree. eexists. unfold UiServer.bind_and_listen.
  assert (UiServer.QFile_exists fileName w = false) as ->.
  { unfold UiServer.QFile_exists. apply bool_decide_eq_false. rewrite Hfree.
    intros [x Hx]. discriminate. }
  repeat split.
Defined.

Lemma makeListeningSocket_stale_or_live_witness :
  UiServer.binds_free_path UiServer.bind_and_listen
  /\ is_Some (Sample.stale_world !! UiServer.suggestedSocketName Sample.server)
  /\ UiServer.assuan_socket_connect "/run/S.uiserver" Sample.stale_world <> 0
  /\ (exists d',
        UiServer.makeListeningSocket UiServer.bind_and_listen 0 Sample.server
          Sample.stale_world
        = (inr d', <["/run/S.uiserver" := UiServer.LiveSocket]>
                     (delete "/run/S.uiserver" Sample.stale_world))
        /\ UiServer.listening d' = true
        /\ UiServer.actualSocketName d' = "/run/S.uiserver")
  /\ is_Some (Sample.live_world !! UiServer.suggestedSocketName Sample.server)
  /\ UiServer.assuan_socket_connect "/run/S.uiserver" Sample.live_world = 0
  /\ UiServer.makeListeningSocket UiServer.bind_and_listen 0 Sample.server
       Sample.live_world
     = (inl "Detected another running gnupg UI server listening at /run/S.uiserver.",
        Sample.live_world).
Proof.
  assert (Hstale : UiServer.assuan_socket_connect "/run/S.uiserver"
                     Sample.stale_world <> 0) by (vm_compute; discriminate).
  split; [exact bind_and_listen_binds_free_path|].
  split; [vm_compute; eauto|].
  split; [exact Hstale|].
  split.
  - exact (proj1 (makeListeningSocket_stale_or_live UiServer.bind_and_listen 0
                    Sample.server Sample.stale_world
                    bind_and_listen_binds_free_path
                    (ex_intro _ UiServer.StaleSocket eq_refl))
             eq_refl Hstale).
  - split; [vm_compute; eauto|].
    split; [reflexivity|].
    exact (proj1 (proj1 (proj2 (makeListeningSocket_stale_or_live
                                  UiServer.bind_and_listen 0
                                  Sample.server Sample.live_world
                                  bind_and_listen_binds_free_path
                                  (ex_intro _ UiServer.LiveSocket eq_refl)))
                    eq_refl eq_refl)).
Defined.

(** The second instance: start-up against a live socket. *)
Lemma makeListeningSocket_live_example :
  UiServer.makeListeningSocket UiServer.bind_and_listen 0 Sample.server
    Sample.live_world
  = (inl "Detected another running gnupg UI server listening at /run/S.uiserver.",
     Sample.live_world).
Proof. reflexivity. Qed.

(** ** Stopping the server *)

Section StopFacts.

Import UiServer.

Lemma isStopped_spec (d : UiServer.t) :
  isStopped d = true <-> connections d = [] /\ listening d = false.
Proof.
  unfold isStopped. rewrite andb_true_iff, bool_decide_eq_true, negb_true_iff.
  reflexivity.
Qed.


Lemma stop_signals (d : UiServer.t) (w : gmap string node) :
  In stopped (snd (stop d w)) <-> connections d = [].
Proof.
  unfold stop.
  destruct (isStopped (close d)) eqn:E; cbn [snd].
  - apply isStopped_spec in E as [E _]. cbn in E. split; [auto|].
    intros _. right. left. reflexivity.
  - split; [intros []|]. intros Hnil.
    assert (isStopped (close d) = true) by (apply isStopped_spec; split; auto).
    congruence.
Qed.

Lemma slotConnectionClosed_state (conn : Z) (d : UiServer.t) :
  connections (fst (slotConnectionClosed conn d))
  = List.filter (fun other => negb (conn =? other)) (connections d)
  /\ listening (fst (slotConnectionClosed conn d)) = listening d.
Proof.
  unfold slotConnectionClosed.
  match goal with |- context [if ?b then _ else _] => destruct b end;
    split; reflexivity.
Qed.

Lemma slotConnectionClosed_signals (conn : Z) (d : UiServer.t) :
  In stopped (snd (slotConnectionClosed conn d))
  <-> isStopped (fst (slotConnectionClosed conn d)) = true.
Proof.
  unfold slotConnectionClosed.
  match goal with |- context [if ?b then _ else _] => destruct b eqn:E end;
    cbn [fst snd].
  - split; [intros _; exact E|]. intros _. right. left. reflexivity.
  - split; [intros [] | congruence].
Qed.



(** The two connections of the sample server close one after the other:
    only the second removal emits [stopped]. *)
Lemma draining_server_example :
  let '(d1, s1) := slotConnectionClosed 11 Sample.draining_server in
  let '(d2, s2) := slotConnectionClosed 12 d1 in
  s1 = [] /\ isStopped d1 = false
  /\ s2 = [sessionDataCleared; stopped] /\ isStopped d2 = true.
Proof. vm_compute. repeat split. Qed.

End StopFacts.

(** ** The ring buffer *)

(** Arithmetic on the pointers: the conversions are the identity on the
    values that occur, and the remainders are those of a division by
    4097. *)
Ltac ring_arith :=
  unfold u32, u64, Reader.sizeof_buffer, BUFFER_SIZE in *;
  change (2 ^ 32) with 4294967296 in *;
  change (2 ^ 64) with 18446744073709551616 in *;
  Z.div_mod_to_equations; lia.

Section RingFacts.

Import Reader.

Lemma bytesInBuffer_eq (r : Reader.t) :
  ptrs_ok r ->
  bytesInBuffer r
  = if rptr r <=? wptr r then wptr r - rptr r
    else wptr r + sizeof_buffer - rptr r.
Proof.
  intros [Hr Hw]. unfold bytesInBuffer.
  destruct (Z.leb_spec (rptr r) (wptr r)); ring_arith.
Qed.

Lemma bytesInBuffer_range (r : Reader.t) :
  ptrs_ok r -> 0 <= bytesInBuffer r <= BUFFER_SIZE.
Proof.
  intros H. rewrite (bytesInBuffer_eq r H). destruct H as [Hr Hw].
  destruct (Z.leb_spec (rptr r) (wptr r)); ring_arith.
Qed.

Lemma bufferEmpty_iff (r : Reader.t) :
  ptrs_ok r -> (bufferEmpty r = true <-> rptr r = wptr r).
Proof.
  intros H. unfold bufferEmpty. rewrite (bytesInBuffer_eq r H), Z.eqb_eq.
  destruct H as [Hr Hw].
  destruct (Z.leb_spec (rptr r) (wptr r)); ring_arith.
Qed.

Lemma bufferFull_iff (r : Reader.t) :
  bufferFull r = true <-> bytesInBuffer r = BUFFER_SIZE.
Proof.
  unfold bufferFull. rewrite Z.eqb_eq.
  replace (u64 (sizeof_buffer - 1)) with BUFFER_SIZE by reflexivity.
  reflexivity.
Qed.

Lemma contiguous_le (r : Reader.t) :
  ptrs_ok r -> bufferEmpty r = false ->
  0 < contiguous r <= bytesInBuffer r.
Proof.
  intros H Hne.
  assert (rptr r <> wptr r) as Hneq.
  { intros E. apply (bufferEmpty_iff r H) in E. congruence. }
  rewrite (bytesInBuffer_eq r H). unfold contiguous. destruct H as [Hr Hw].
  destruct (Z.ltb_spec (rptr r) (wptr r));
    destruct (Z.leb_spec (rptr r) (wptr r)); ring_arith.
Qed.

Lemma contiguous_unwrapped (r : Reader.t) :
  ptrs_ok r -> rptr r < wptr r -> contiguous r = bytesInBuffer r.
Proof.
  intros H Hlt. rewrite (bytesInBuffer_eq r H). unfold contiguous.
  destruct (Z.ltb_spec (rptr r) (wptr r));
    destruct (Z.leb_spec (rptr r) (wptr r)); lia.
Qed.

(** [Reader::readData] hands out the contiguous piece, capped by
    [maxSize], and advances the read pointer by as much. *)
Lemma Reader_readData_spec (r : Reader.t) (maxSize : Z) :
  ptrs_ok r -> bufferEmpty r = false -> 0 <= maxSize ->
  let n := Z.min maxSize (contiguous r) in
  let r' := snd (readData r maxSize) in
  fst (fst (readData r maxSize)) = n
  /\ snd (fst (readData r maxSize)) = fetch (buffer r) (rptr r) n
  /\ ptrs_ok r'
  /\ bytesInBuffer r' = bytesInBuffer r - n
  /\ wptr r' = wptr r /\ buffer r' = buffer r
  /\ eof r' = eof r /\ error r' = error r /\ eofShortCut r' = eofShortCut r
  /\ cancel r' = cancel r.
Proof.
  intros H Hne Hmax n r'.
  pose proof (contiguous_le r H Hne) as Hc.
  pose proof (bytesInBuffer_eq r H) as Hb.
  assert (Hnum :
    (if (if rptr r <? wptr r then u32 (wptr r - rptr r)
         else u64 (sizeof_buffer - rptr r)) >? maxSize
     then maxSize
     else (if rptr r <? wptr r then u32 (wptr r - rptr r)
           else u64 (sizeof_buffer - rptr r))) = n).
  { unfold n, contiguous in *. destruct H as [Hr Hw].
    destruct (Z.ltb_spec (rptr r) (wptr r)).
    - rewrite u32_small by ring_arith.
      destruct (Z.gtb_spec (wptr r - rptr r) maxSize); lia.
    - rewrite u64_small by ring_arith.
      destruct (Z.gtb_spec (sizeof_buffer - rptr r) maxSize); lia. }
  unfold r', readData. rewrite Hnum. cbn [fst snd].
  assert (Hn : 0 <= n <= contiguous r) by (unfold n; lia).
  assert (Hr' : ptrs_ok (set_rptr (u32 (u64 (rptr r + n) mod sizeof_buffer)) r)).
  { destruct H as [Hr Hw]. split; cbn [set_rptr rptr wptr]; [|exact Hw].
    ring_arith. }
  repeat split; try reflexivity; try apply Hr'.
  rewrite (bytesInBuffer_eq _ Hr'), Hb. cbn [set_rptr rptr wptr].
  unfold contiguous in Hn. destruct H as [Hr Hw].
  assert (rptr r <> wptr r) as Hneq.
  { intros E. apply (bufferEmpty_iff r (conj Hr Hw)) in E. congruence. }
  destruct (Z.ltb_spec (rptr r) (wptr r));
    destruct (Z.leb_spec (rptr r) (wptr r));
    destruct (Z.leb_spec (u32 (u64 (rptr r + n) mod sizeof_buffer)) (wptr r));
    ring_arith.
Qed.

(** The size of the next OS read: the smaller of the free space and the
    room up to the end of the array, and never zero. *)
Lemma run_numBytes_eq (r : Reader.t) :
  ptrs_ok r -> bufferFull r = false ->
  run_numBytes r = Z.min (free r) (sizeof_buffer - wptr r)
  /\ 0 < run_numBytes r.
Proof.
  intros H Hnf.
  assert (bytesInBuffer r <> BUFFER_SIZE) as Hne.
  { intros E. apply bufferFull_iff in E. congruence. }
  pose proof (bytesInBuffer_range r H) as Hrange.
  pose proof (bytesInBuffer_eq r H) as Hb.
  unfold run_numBytes, free. destruct H as [Hr Hw].
  assert (E1 : u32 (u64 (rptr r + sizeof_buffer - wptr r - 1) mod sizeof_buffer)
               = sizeof_buffer - 1 - bytesInBuffer r).
  { rewrite Hb. destruct (Z.leb_spec (rptr r) (wptr r)); ring_arith. }
  assert (E2 : u64 (sizeof_buffer - wptr r) = sizeof_buffer - wptr r)
    by (apply u64_small; ring_arith).
  rewrite E1, E2.
  rewrite (u32_small (sizeof_buffer - wptr r)) by ring_arith.
  destruct (Z.gtb_spec (sizeof_buffer - 1 - bytesInBuffer r) (sizeof_buffer - wptr r));
    unfold sizeof_buffer, BUFFER_SIZE in *; lia.
Qed.

Lemma safe_request_of_bounds (r : Reader.t) (n : Z) :
  ptrs_ok r -> 0 < n -> n <= free r -> wptr r + n <= sizeof_buffer ->
  safe_request r n.
Proof.
  intros H Hpos Hfree Hend. repeat split; try assumption.
  intros i Hi Hin. unfold unread_index, free in *.
  rewrite (bytesInBuffer_eq r H) in *. destruct H as [Hr Hw].
  destruct (Z.leb_spec (rptr r) (wptr r)); ring_arith.
Qed.

(** When [Reader::run] reaches its OS read the request is safe. *)
Lemma run_prepare_spec (r r1 : Reader.t) (n : Z) :
  ptrs_ok r -> run_prepare r = Some (r1, n) ->
  ptrs_ok r1
  /\ n = Z.min (free r1) (sizeof_buffer - wptr r1)
  /\ safe_request r1 n
  /\ bytesInBuffer r1 = bytesInBuffer r
  /\ buffer r1 = buffer r
  /\ eof r1 = false /\ error r1 = false /\ cancel r1 = false
  /\ eof r = false /\ error r = false
  /\ eofShortCut r1 = eofShortCut r.
Proof.
  intros H. unfold run_prepare.
  destruct (cancel r) eqn:Hc; [discriminate|].
  destruct (error r) eqn:He; cbn [negb andb].
  { destruct (eof r); discriminate. }
  destruct (bufferFull r) eqn:Hf; [discriminate|].
  destruct (eof r) eqn:Heof; cbn [negb andb]; [discriminate|].
  intros Hsome. injection Hsome as Hr1 Hn.
  assert (Hr1ok : ptrs_ok r1 /\ bytesInBuffer r1 = bytesInBuffer r
                  /\ buffer r1 = buffer r /\ eof r1 = false /\ error r1 = false
                  /\ cancel r1 = false /\ eofShortCut r1 = eofShortCut r).
  { subst r1. destruct (Z.eqb_spec (rptr r) (wptr r)) as [E|E].
    - assert (ptrs_ok (set_wptr 0 (set_rptr 0 r))) as Hok.
      { split; cbn; unfold sizeof_buffer, BUFFER_SIZE; lia. }
      split; [exact Hok|]. split.
      + rewrite (bytesInBuffer_eq _ Hok), (bytesInBuffer_eq r H). cbn.
        rewrite E. destruct (Z.leb_spec (wptr r) (wptr r)); lia.
      + cbn. repeat split; assumption.
    - repeat split; solve [apply H | assumption]. }
  destruct Hr1ok as (Hok & Hbib & Hbuf & Heof1 & Herr1 & Hc1 & Hsc).
  assert (Hnf1 : bufferFull r1 = false).
  { destruct (bufferFull r1) eqn:E; [|reflexivity].
    apply bufferFull_iff in E. rewrite Hbib in E.
    apply bufferFull_iff in E. congruence. }
  destruct (run_numBytes_eq r1 Hok Hnf1) as [Hmin Hpos].
  rewrite Hr1 in Hn. subst n.
  split; [exact Hok|]. split; [exact Hmin|].
  split; [apply safe_request_of_bounds; try assumption; lia|].
  repeat split; assumption.
Qed.

End RingFacts.

(** ** The read side: invariants *)

Section ReadSideFacts.

Import Reader KDPipeIODevice ReadSide.

Lemma length_store (dst src : list ascii) (pos : Z) :
  0 <= pos -> pos + Z.of_nat (length src) <= Z.of_nat (length dst) ->
  length (store dst pos src) = length dst.
Proof.
  intros Hpos Hfit. unfold store.
  rewrite !length_app, length_take, length_drop. lia.
Qed.

Lemma reader_inv_new (fd_ handle_ : Z) : reader_inv (Reader.new fd_ handle_).
Proof.
  unfold reader_inv, ptrs_ok. cbn.
  repeat split; try discriminate; try reflexivity;
    unfold sizeof_buffer, BUFFER_SIZE; lia.
Qed.

Lemma shortcut_off (r : Reader.t) :
  reader_inv r -> eof r = false -> error r = false -> eofShortCut r = false.
Proof.
  intros (_ & _ & _ & Hsc) Heof Herr.
  destruct (eofShortCut r); [|reflexivity].
  destruct (Hsc eq_refl) as [H _]. rewrite Heof, Herr in H. discriminate.
Qed.

(** The Reader thread keeps the invariant when its OS read returns. *)
Lemma run_complete_inv (r : Reader.t) (n : Z) (res : os_read) :
  reader_inv r -> pending_inv r (Some n) -> os_read_ok n res ->
  reader_inv (run_complete r res).
Proof.
  intros Hinv (Hsafe & Heof & Herr) Hos.
  pose proof (shortcut_off r Hinv Heof Herr) as Hsc.
  destruct Hinv as (Hp & Hlen & Hboth & _).
  destruct Hsafe as (Hpos & Hfree & Hend & _).
  unfold run_complete.
  destruct (Z.ltb_spec (numRead res) 0) as [Hneg|Hnneg].
  - destruct (Z.gtb_spec (numRead res) 0); [lia|].
    repeat split; cbn in *; try apply Hp; try assumption; try congruence.
  - destruct (Z.eqb_spec (numRead res) 0) as [Hz|Hnz].
    + destruct (Z.gtb_spec (numRead res) 0); [lia|].
      repeat split; cbn in *; try apply Hp; try assumption; try congruence.
    + destruct (Z.gtb_spec (numRead res) 0); [|lia].
      destruct Hos as [Hos|[Hrange Hbytes]]; [lia|].
      destruct Hp as [Hr Hw].
      assert (Hok : ptrs_ok
                (set_wptr (u32 (u64 (wptr r + numRead res) mod sizeof_buffer))
                   (set_buffer (store (buffer r) (wptr r) (bytesRead res)) r))).
      { split; cbn; [exact Hr|]. ring_arith. }
      split; [exact Hok|]. split.
      { cbn. rewrite length_store; [exact Hlen| lia | lia]. }
      split; cbn; [exact Hboth|]. congruence.
Qed.

(** A returning [readData_locked] keeps the invariant, leaves the write
    pointer and the flags alone and frees space. *)
Lemma readData_locked_inv (d d' : KDPipeIODevice.t) (r : Reader.t)
    (maxSize ret : Z) (data : list ascii) :
  reader_inv r -> 0 <= maxSize ->
  (bufferEmpty r = true -> (eof r || error r) = true) ->
  readData_locked d r maxSize = Returned ret data d' ->
  exists r',
    d' = set_reader (Some r') d
    /\ reader_inv r'
    /\ ptrs_ok r' /\ wptr r' = wptr r /\ free r <= free r'
    /\ eof r' = eof r /\ error r' = error r.
Proof.
  intros Hinv Hmax Hlatched. unfold readData_locked.
  destruct (bufferEmpty r) eqn:Hempty.
  - intros H. injection H as _ _ Hd'.
    exists (set_eofShortCut true r). split; [congruence|].
    destruct Hinv as (Hp & Hlen & Hboth & Hsc).
    assert (Hp' : ptrs_ok (set_eofShortCut true r)) by exact Hp.
    split; [|split; [exact Hp'|split; [reflexivity|
                     split; [apply Z.le_refl|split; reflexivity]]]].
    split; [exact Hp'|]. split; [exact Hlen|]. split; [exact Hboth|].
    intros _. split; [apply Hlatched; reflexivity | exact Hempty].
  - destruct (Reader.readData r maxSize) as [[n' data'] r'] eqn:E.
    intros H. injection H as _ _ Hd'.
    destruct Hinv as (Hp & Hlen & Hboth & Hsc).
    pose proof (Reader_readData_spec r maxSize Hp Hempty Hmax) as Hspec.
    cbv zeta in Hspec. rewrite E in Hspec. cbn [fst snd] in Hspec.
    destruct Hspec as (Hn & _ & Hp' & Hbib & Hw & Hbuf & Heof & Herr & Hsc' & _).
    pose proof (contiguous_le r Hp Hempty).
    exists r'. split; [congruence|].
    assert (Hsc0 : eofShortCut r = false).
    { destruct (eofShortCut r); [|reflexivity].
      destruct (Hsc eq_refl) as [_ H']. congruence. }
    split; [|split; [exact Hp'|split; [exact Hw|split; [|split; assumption]]]].
    + split; [exact Hp'|]. split; [rewrite Hbuf; exact Hlen|].
      split.
      * intros He. rewrite Herr. apply Hboth. rewrite <- Heof. exact He.
      * intros Hon. congruence.
    + unfold free. lia.
Qed.

(** [readData] with the clamped size made explicit. *)
Lemma readData_unfold (d : KDPipeIODevice.t) (r : Reader.t) (maxSize : Z) :
  reader d = Some r ->
  exists m,
    0 <= m
    /\ (0 <= maxSize -> 0 <= qbuffer d -> bufferEmpty r = false ->
        m = Z.min maxSize (qbuffer d + bytesInBuffer r))
    /\ readData d maxSize
       = if eofShortCut r then Returned 0 [] (startReaderThread d)
         else if bufferEmpty r && negb (error r) && negb (eof r)
              then Blocked (set_reader (Some (set_consumerBlocksOnUs true r))
                                       (startReaderThread d))
                           m (consumerBlocksOnUs r)
              else readData_locked (startReaderThread d) r m.
Proof.
  intros Hr. unfold readData.
  cbn [startReaderThread reader]. rewrite Hr.
  set (m1 := if maxSize <? 0 then 0 else maxSize).
  set (avail := fst (bytesAvailable _)).
  set (m := if ALLOW_QIODEVICE_BUFFERING && (avail >? 0)
            then Z.min m1 avail else m1).
  assert (Havail : avail = qbuffer d + bytesInBuffer r).
  { unfold avail, bytesAvailable, QIODevice_bytesAvailable, startReaderThread.
    cbn [triedToStartReader negb reader qbuffer fst]. rewrite Hr. reflexivity. }
  assert (Hm1 : 0 <= m1).
  { unfold m1. destruct (Z.ltb_spec maxSize 0); lia. }
  exists m. split; [|split; [|reflexivity]].
  - unfold m, ALLOW_QIODEVICE_BUFFERING. cbn [andb].
    destruct (Z.gtb_spec avail 0); lia.
  - intros Hmax Hq Hne. unfold m, ALLOW_QIODEVICE_BUFFERING. cbn [andb].
    assert (m1 = maxSize) as ->.
    { unfold m1. destruct (Z.ltb_spec maxSize 0); lia. }
    rewrite Havail. unfold bufferEmpty in Hne. apply Z.eqb_neq in Hne.
    assert (0 <= bytesInBuffer r).
    { unfold bytesInBuffer, u32. apply Z.mod_pos_bound. reflexivity. }
    destruct (Z.gtb_spec (qbuffer d + bytesInBuffer r) 0); lia.
Qed.

Lemma notified_empty_is_latched (r : Reader.t) :
  run_notifies r = true -> bufferEmpty r = true -> (eof r || error r) = true.
Proof.
  unfold run_notifies. intros Hn Hempty.
  assert (bufferFull r = false) as Hnf.
  { destruct (bufferFull r) eqn:E; [|reflexivity].
    apply bufferFull_iff in E. unfold bufferEmpty in Hempty.
    apply Z.eqb_eq in Hempty. rewrite E in Hempty. discriminate. }
  rewrite Hnf, Hempty in Hn.
  destruct (eof r), (error r), (cancel r); cbn in *; congruence.
Qed.

Lemma reader_inv_consumerBlocksOnUs (b : bool) (r : Reader.t) :
  reader_inv r -> reader_inv (set_consumerBlocksOnUs b r).
Proof. intros H. exact H. Qed.

Lemma pending_inv_frees (r r' : Reader.t) (p : option Z) :
  ptrs_ok r' -> wptr r' = wptr r -> free r <= free r' ->
  eof r' = eof r -> error r' = error r ->
  pending_inv r p -> pending_inv r' p.
Proof.
  intros Hp Hw Hfree Heof Herr. destruct p as [n|]; [|trivial].
  intros ((Hpos & Hn & Hend & _) & He1 & He2).
  split; [|split; congruence].
  apply safe_request_of_bounds; try assumption; lia.
Qed.

(** Every transition keeps the invariant. *)
Lemma step_inv (s s' : state) : state_inv s -> step s s' -> state_inv s'.
Proof.
  intros (Hopen & Hq & Hc & Hr) Hstep.
  destruct Hstep as [d r r1 n c Hd Hprep | d r n res c Hd Hos
                    | d p maxSize ret data d' Hcall
                    | d p maxSize d' maxSize' old Hcall
                    | d r maxSize old ret data d' Hd Hnot Hcall];
    cbn [dev pending cons] in *.
  - destruct (Hr r Hd) as [Hinv _].
    destruct Hinv as (Hp & Hlen & Hboth & Hsc).
    destruct (run_prepare_spec r r1 n Hp Hprep)
      as (Hp1 & _ & Hsafe & _ & Hbuf & Heof1 & Herr1 & _ & Heof & Herr & Hsc1).
    split; [exact Hopen|]. split; [exact Hq|]. split; [exact Hc|].
    intros r' Hr'. cbn in Hr'. injection Hr' as <-.
    split; [|split; [exact Hsafe|split; assumption]].
    split; [exact Hp1|]. split; [rewrite Hbuf; exact Hlen|].
    split; [congruence|]. intros Hon. exfalso.
    rewrite Hsc1 in Hon.
    rewrite (shortcut_off r (conj Hp (conj Hlen (conj Hboth Hsc))) Heof Herr) in Hon.
    discriminate.
  - destruct (Hr r Hd) as [Hinv Hpend].
    split; [exact Hopen|]. split; [exact Hq|]. split; [exact Hc|].
    intros r' Hr'. cbn in Hr'. injection Hr' as <-.
    split; [|exact I]. apply (run_complete_inv r n res); assumption.
  - destruct (reader d) as [r|] eqn:Hd;
      [|unfold readData in Hcall; cbn [startReaderThread reader] in Hcall;
        rewrite Hd in Hcall; discriminate].
    destruct (Hr r eq_refl) as [Hinv Hpend].
    destruct (readData_unfold d r maxSize Hd) as (m & Hm & _ & Hcall').
    rewrite Hcall' in Hcall. clear Hcall'.
    destruct (eofShortCut r) eqn:Hsc.
    { injection Hcall as _ _ <-.
      split; [exact Hopen|]. split; [exact Hq|]. split; [exact I|].
      intros r' Hr'. cbn in Hr'. rewrite Hd in Hr'. injection Hr' as <-.
      split; assumption. }
    destruct (bufferEmpty r && negb (error r) && negb (eof r)) eqn:Hblock;
      [discriminate|].
    assert (Hlatched : bufferEmpty r = true -> (eof r || error r) = true).
    { intros Hempty. rewrite Hempty in Hblock.
      destruct (eof r), (error r); cbn in *; congruence. }
    destruct (readData_locked_inv _ d' r m ret data Hinv Hm Hlatched Hcall)
      as (r' & Hd' & Hinv' & Hp' & Hw & Hfree & Heof & Herr).
    subst d'.
    split; [exact Hopen|]. split; [exact Hq|]. split; [exact I|].
    intros r'' Hr''. cbn in Hr''. injection Hr'' as <-.
    split; [exact Hinv'|].
    apply (pending_inv_frees r); assumption.
  - destruct (reader d) as [r|] eqn:Hd;
      [|unfold readData in Hcall; cbn [startReaderThread reader] in Hcall;
        rewrite Hd in Hcall; discriminate].
    destruct (Hr r eq_refl) as [Hinv Hpend].
    destruct (readData_unfold d r maxSize Hd) as (m & Hm & _ & Hcall').
    rewrite Hcall' in Hcall. clear Hcall'.
    destruct (eofShortCut r) eqn:Hsc; [discriminate|].
    destruct (bufferEmpty r && negb (error r) && negb (eof r)) eqn:Hblock.
    + injection Hcall as <- <- _.
      split; [exact Hopen|]. split; [exact Hq|]. split; [exact Hm|].
      intros r' Hr'. cbn in Hr'. injection Hr' as <-.
      split; [exact Hinv | exact Hpend].
    + unfold readData_locked in Hcall.
      destruct (bufferEmpty r); [discriminate|].
      destruct (Reader.readData r m) as [[? ?] ?]. discriminate.
  - destruct (Hr r Hd) as [Hinv _].
    unfold readData_woken in Hcall. rewrite Hd in Hcall.
    assert (Hlatched : bufferEmpty (set_consumerBlocksOnUs old r) = true ->
                       (eof (set_consumerBlocksOnUs old r)
                        || error (set_consumerBlocksOnUs old r)) = true).
    { intros Hempty. apply (notified_empty_is_latched r Hnot Hempty). }
    destruct (readData_locked_inv _ d' _ maxSize ret data
                (reader_inv_consumerBlocksOnUs old r Hinv) Hc Hlatched Hcall)
      as (r' & Hd' & Hinv' & _).
    subst d'.
    split; [exact Hopen|]. split; [exact Hq|]. split; [exact I|].
    intros r'' Hr''. cbn in Hr''. injection Hr'' as <-.
    split; [exact Hinv' | exact I].
Qed.

Lemma initial_inv (fd_ mode_ : Z) :
  fst (KDPipeIODevice.open KDPipeIODevice.new fd_ mode_) = true ->
  state_inv (initial fd_ mode_).
Proof.
  unfold initial, KDPipeIODevice.open. intros Hopen.
  pose proof (doOpen_refused false KDPipeIODevice.new fd_ 0 mode_) as Hrefuse.
  assert (Hfd : ~ invalid_descriptor false fd_ 0).
  { intros Hbad. rewrite Hrefuse in Hopen; [discriminate|]. right. left. exact Hbad. }
  assert (Hmode : Z.land mode_ ReadWrite <> 0).
  { intros Hbad. rewrite Hrefuse in Hopen; [discriminate|]. right. right. exact Hbad. }
  rewrite (doOpen_accepted false KDPipeIODevice.new fd_ 0 mode_ eq_refl Hfd Hmode).
  cbn [snd]. split; [|split; [reflexivity|split; [exact I|]]].
  - unfold isOpen. cbn [openMode]. apply negb_true_iff, Z.eqb_neq.
    intros Hzero. apply Z.lor_eq_0_iff in Hzero as [_ Hzero]. discriminate.
  - intros r Hr. cbn [dev reader pending] in *.
    destruct (Z.land mode_ ReadOnly =? 0); cbn in Hr; [discriminate|].
    injection Hr as <-. split; [apply reader_inv_new | exact I].
Qed.

(** The invariant holds in every reachable state. *)
Lemma reachable_inv (s : state) : reachable s -> state_inv s.
Proof.
  intros (fd_ & mode_ & Hopen & Hsteps). revert s Hsteps.
  apply (rtc_ind_r (fun s => state_inv s) (initial fd_ mode_)).
  - apply initial_inv. exact Hopen.
  - intros s2 s3 _ Hstep IH. apply (step_inv s2); assumption.
Qed.

End ReadSideFacts.

(** ** The Reader's OS reads *)

Section ReaderSafety.

Import Reader KDPipeIODevice ReadSide.

(** C8.  In every reachable state, when [Reader::run] reaches its OS
    read the requested size is positive, at most the free space and at
    most the room from the write pointer to the end of the array, being
    the smaller of the two (so a free region that wraps takes two
    reads); the bytes stored touch no unread byte.  The same holds of a
    read in flight, whatever the consumer did meanwhile. *)
Theorem reader_read_request_safe (s : state) (r : Reader.t) :
  reachable s ->
  reader (dev s) = Some r ->
  (forall r1 n,
      run_prepare r = Some (r1, n) ->
      n = Z.min (free r1) (sizeof_buffer - wptr r1)
      /\ safe_request r1 n
      /\ Z.of_nat (length (buffer r1)) = sizeof_buffer)
  /\ (forall n, pending s = Some n -> safe_request r n).
Proof.
  intros Hreach Hr.
  destruct (reachable_inv s Hreach) as (_ & _ & _ & Hinv).
  destruct (Hinv r Hr) as [(Hp & Hlen & _) Hpend].
  split.
  - intros r1 n Hprep.
    destruct (run_prepare_spec r r1 n Hp Hprep)
      as (_ & Hmin & Hsafe & _ & Hbuf & _).
    split; [exact Hmin|]. split; [exact Hsafe|]. rewrite Hbuf. exact Hlen.
  - intros n Hn. rewrite Hn in Hpend. apply Hpend.
Qed.

Lemma reachable_initial :
  reachable (State Sample.read_device None Idle).
Proof.
  exists 3, ReadOnly. split; [reflexivity|]. apply rtc_refl.
Qed.

Lemma reader_read_request_safe_witness :
  reachable (State Sample.read_device None Idle)
  /\ reader Sample.read_device = Some (Reader.new 3 0)
  /\ run_prepare (Reader.new 3 0) = Some (Reader.new 3 0, 4096)
  /\ safe_request (Reader.new 3 0) 4096.
Proof.
  split; [exact reachable_initial|]. split; [reflexivity|].
  split; [reflexivity|].
  apply (proj1 (reader_read_request_safe (State Sample.read_device None Idle)
                  (Reader.new 3 0) reachable_initial eq_refl)
           (Reader.new 3 0) 4096 eq_refl).
Defined.

(** One iteration of the Reader thread, as two transitions. *)
Lemma reachable_after_read (d : KDPipeIODevice.t) (c : consumer)
    (r r1 : Reader.t) (n : Z) (res : os_read) :
  reachable (State d None c) ->
  reader d = Some r -> run_prepare r = Some (r1, n) -> os_read_ok n res ->
  reachable (State (Sample.after_read res d) None c).
Proof.
  intros (fd_ & mode_ & Hopen & Hsteps) Hr Hprep Hos.
  exists fd_, mode_. split; [exact Hopen|].
  eapply rtc_r; [eapply rtc_r; [exact Hsteps|]|].
  - eapply reader_issues_read; eassumption.
  - unfold Sample.after_read. rewrite Hr, Hprep.
    replace (set_reader (Some (run_complete r1 res)) d)
      with (set_reader (Some (run_complete r1 res)) (set_reader (Some r1) d))
      by reflexivity.
    eapply reader_read_returns; [reflexivity | exact Hos].
Qed.

Lemma reachable_after_consume (d d' : KDPipeIODevice.t) (p : option Z)
    (maxSize ret : Z) (data : list ascii) :
  reachable (State d p Idle) ->
  readData d maxSize = Returned ret data d' ->
  reachable (State (Sample.after_consume maxSize d) p Idle).
Proof.
  intros (fd_ & mode_ & Hopen & Hsteps) Hcall.
  exists fd_, mode_. split; [exact Hopen|].
  eapply rtc_r; [exact Hsteps|].
  unfold Sample.after_consume. rewrite Hcall.
  eapply consumer_reads. exact Hcall.
Qed.

Lemma os_data_ok (n : Z) (k : nat) :
  Z.of_nat k <= n -> os_read_ok n (Sample.os_data k).
Proof.
  intros H. right. unfold Sample.os_data, Sample.letters. cbn.
  rewrite repeat_length. lia.
Qed.

(** The wrapped buffer of the samples is reachable: the free region
    behind a full buffer of which ten bytes were taken wraps, and the
    Reader fills it with two reads, of one byte and of nine. *)
Lemma reachable_wrapped :
  reachable (State Sample.wrapped_device None Idle)
  /\ (exists r, reader Sample.wrapped_device = Some r
                /\ rptr r = 10 /\ wptr r = 9 /\ bytesInBuffer r = 4096).
Proof.
  split.
  - unfold Sample.wrapped_device.
    eapply reachable_after_read with (n := 9);
      [|vm_compute; reflexivity|vm_compute; reflexivity|apply os_data_ok; lia].
    eapply reachable_after_read with (n := 1);
      [|vm_compute; reflexivity|vm_compute; reflexivity|apply os_data_ok; lia].
    eapply reachable_after_consume; [|vm_compute; reflexivity].
    eapply reachable_after_read with (n := 4096);
      [|vm_compute; reflexivity|vm_compute; reflexivity|apply os_data_ok; lia].
    exact reachable_initial.
  - eexists. split; [vm_compute; reflexivity|]. vm_compute. repeat split.
Qed.

Lemma reachable_failed :
  reachable (State Sample.failed_device None Idle).
Proof.
  unfold Sample.failed_device.
  eapply reachable_after_read with (n := 4096);
    [exact reachable_initial|reflexivity|reflexivity|].
  left. reflexivity.
Qed.

End ReaderSafety.

(** ** Reading and end of stream *)

Section ReadFacts.

Import Reader KDPipeIODevice ReadSide.

(** The device of a reachable state with a Reader is [readable]. *)
Lemma reachable_readable (s : state) (r : Reader.t) :
  reachable s -> reader (dev s) = Some r -> readable (dev s) r.
Proof.
  intros Hreach Hr.
  destruct (reachable_inv s Hreach) as (Hopen & Hq & _ & Hinv).
  destruct (Hinv r Hr) as [Hrinv _].
  split; [exact Hopen|]. split; [lia|]. split; assumption.
Qed.

(** A [readData_locked] on a consistent Reader returns [read_result]. *)
Lemma readData_locked_result (d : KDPipeIODevice.t) (r : Reader.t) (m : Z) :
  reader_inv r -> 0 <= m ->
  exists data r',
    readData_locked d r m = Returned (read_result r m) data (set_reader (Some r') d)
    /\ Z.of_nat (length data) = (if bufferEmpty r then 0 else read_result r m)
    /\ bytesInBuffer r' = (if bufferEmpty r then 0 else bytesInBuffer r - read_result r m)
    /\ eofShortCut r' = bufferEmpty r.
Proof.
  intros (Hp & Hlen & Hboth & Hsc) Hm. unfold readData_locked, read_result.
  destruct (bufferEmpty r) eqn:Hempty.
  - exists [], (set_eofShortCut true r). split; [reflexivity|].
    split; [reflexivity|]. split; [|reflexivity].
    unfold bufferEmpty in Hempty. apply Z.eqb_eq in Hempty. exact Hempty.
  - pose proof (Reader_readData_spec r m Hp Hempty Hm) as Hspec.
    cbv zeta in Hspec.
    destruct (Reader.readData r m) as [[n data] r'] eqn:E. cbn [fst snd] in Hspec.
    destruct Hspec as (Hn & Hdata & _ & Hbib & _ & _ & _ & _ & Hsc' & _).
    pose proof (contiguous_le r Hp Hempty) as Hc.
    pose proof (bytesInBuffer_range r Hp) as Hrange.
    exists data, r'. subst n. split; [reflexivity|].
    split; [|split; [exact Hbib|]].
    + rewrite Hdata. unfold fetch. rewrite length_take, length_drop.
      assert (contiguous r <= sizeof_buffer - rptr r).
      { unfold contiguous. destruct Hp as [Hr Hw].
        destruct (Z.ltb_spec (rptr r) (wptr r)); lia. }
      destruct Hp as [Hr _]. unfold sizeof_buffer, BUFFER_SIZE in *. lia.
    + rewrite Hsc'. destruct (eofShortCut r); [|reflexivity].
      destruct (Hsc eq_refl) as [_ H]. congruence.
Qed.

(** C2, as amended.  [readData(buf, n)] with [n >= 0] on an open readable
    device: with bytes buffered it returns at once the smaller of [n]
    and the contiguous piece at the read pointer (which is
    [min(n, bytesAvailable)] when the content does not wrap and the
    generic buffer is empty); with end-of-file latched and the buffer
    empty it returns 0; with the error latched and the buffer empty it
    returns -1 on the first such call, which latches the shortcut, and 0
    on every later call; otherwise the caller waits, and once woken by
    the Reader (bytes stored, end-of-file or error) the call returns by
    the same rule. *)
Theorem readData_contract (d : KDPipeIODevice.t) (r : Reader.t) (n : Z) :
  readable d r ->
  0 <= n ->
  (bufferEmpty r = false ->
   exists data d',
     readData d n = Returned (Z.min n (contiguous r)) data d'
     /\ Z.of_nat (length data) = Z.min n (contiguous r)
     /\ (rptr r < wptr r -> qbuffer d = 0 ->
         Z.min n (contiguous r) = Z.min n (fst (bytesAvailable (startReaderThread d)))))
  /\ (eof r = true -> bufferEmpty r = true ->
      exists d', readData d n = Returned 0 [] d')
  /\ (error r = true -> bufferEmpty r = true -> eofShortCut r = false ->
      exists d',
        readData d n = Returned (-1) [] d'
        /\ forall m, readData d' m = Returned 0 [] (startReaderThread d'))
  /\ (eof r = false -> error r = false -> bufferEmpty r = true ->
      exists m,
        readData d n
        = Blocked (set_reader (Some (set_consumerBlocksOnUs true r))
                              (startReaderThread d)) m (consumerBlocksOnUs r)
        /\ 0 <= m)
  /\ (forall m old, 0 <= m -> run_notifies r = true ->
      exists data d', readData_woken d m old = Returned (read_result r m) data d').
Proof.
  intros (Hopen & Hq & Hr & Hinv) Hn.
  destruct (readData_unfold d r n Hr) as (m & Hm & Hmeq & Hcall).
  pose proof Hinv as (Hp & Hlen & Hboth & Hsc).
  split; [|split; [|split; [|split]]].
  - intros Hne.
    assert (Hsc0 : eofShortCut r = false).
    { destruct (eofShortCut r); [|reflexivity].
      destruct (Hsc eq_refl) as [_ H]. congruence. }
    rewrite Hcall, Hsc0, Hne. cbn [andb].
    destruct (readData_locked_result (startReaderThread d) r m Hinv Hm)
      as (data & r' & Hret & Hdata & _).
    pose proof (contiguous_le r Hp Hne) as Hc.
    specialize (Hmeq Hn Hq Hne).
    assert (Hres : read_result r m = Z.min n (contiguous r)).
    { unfold read_result. rewrite Hne. lia. }
    rewrite Hne in Hdata. rewrite Hres in *.
    exists data, (set_reader (Some r') (startReaderThread d)).
    split; [exact Hret|]. split; [exact Hdata|].
    intros Hlt Hq0. rewrite (contiguous_unwrapped r Hp Hlt).
    unfold bytesAvailable, QIODevice_bytesAvailable, startReaderThread.
    cbn [triedToStartReader negb reader qbuffer fst]. rewrite Hr, Hq0.
    reflexivity.
  - intros Heof Hempty. rewrite Hcall.
    destruct (eofShortCut r); [eexists; reflexivity|].
    rewrite Hempty, Heof. cbn [negb andb]. rewrite andb_false_r.
    unfold readData_locked. rewrite Hempty, Heof. eexists. reflexivity.
  - intros Herr Hempty Hsc0.
    assert (Heof : eof r = false).
    { destruct (eof r) eqn:E; [|reflexivity]. rewrite (Hboth eq_refl) in Herr.
      discriminate. }
    rewrite Hcall, Hsc0, Hempty, Herr. cbn [negb andb].
    unfold readData_locked. rewrite Hempty, Heof. eexists. split; [reflexivity|].
    intros m'. unfold readData. cbn. reflexivity.
  - intros Heof Herr Hempty.
    rewrite Hcall, (shortcut_off r Hinv Heof Herr), Hempty, Heof, Herr.
    cbn [negb andb]. exists m. split; [reflexivity | exact Hm].
  - intros m' old Hm' Hnot. unfold readData_woken. rewrite Hr.
    destruct (readData_locked_result d (set_consumerBlocksOnUs old r) m'
                (reader_inv_consumerBlocksOnUs old r Hinv) Hm')
      as (data & r' & Hret & _).
    exists data, (set_reader (Some r') d). exact Hret.
Qed.

Lemma reachable_device_readable (d : KDPipeIODevice.t) (p : option Z)
    (c : consumer) :
  reachable (State d p c) -> is_Some (reader d) ->
  readable d (Sample.reader_of d).
Proof.
  intros Hreach [r Hr].
  apply (reachable_readable (State d p c) _ Hreach).
  cbn [dev]. unfold Sample.reader_of. rewrite Hr. reflexivity.
Qed.

Lemma readable_wrapped :
  readable Sample.wrapped_device (Sample.reader_of Sample.wrapped_device).
Proof.
  destruct reachable_wrapped as [Hreach (r & Hr & _)].
  apply (reachable_device_readable _ None Idle Hreach).
  exists r. exact Hr.
Qed.

Lemma readData_contract_witness :
  readable Sample.wrapped_device (Sample.reader_of Sample.wrapped_device)
  /\ 0 <= 4096
  /\ bufferEmpty (Sample.reader_of Sample.wrapped_device) = false
  /\ exists data d',
       readData Sample.wrapped_device 4096
       = Returned (Z.min 4096 (contiguous (Sample.reader_of Sample.wrapped_device)))
                  data d'.
Proof.
  split; [exact readable_wrapped|]. split; [lia|].
  split; [vm_compute; reflexivity|].
  destruct (proj1 (readData_contract Sample.wrapped_device
                     (Sample.reader_of Sample.wrapped_device) 4096
                     readable_wrapped ltac:(lia)))
    as (data & d' & Hret & _).
  - vm_compute. reflexivity.
  - exists data, d'. exact Hret.
Defined.

(** C2 as stated fails twice.  On the reachable wrapped buffer 4096
    bytes are available and [readData] with [n = 4096] returns 4087,
    the piece up to the end of the array.  And with the error latched
    and the buffer empty the first call returns -1 but the next one
    returns 0. *)
Lemma readData_not_min_of_available :
  reachable (State Sample.wrapped_device None Idle)
  /\ bufferEmpty (Sample.reader_of Sample.wrapped_device) = false
  /\ fst (bytesAvailable Sample.wrapped_device) = 4096
  /\ (exists data d',
        readData Sample.wrapped_device 4096 = Returned 4087 data d')
  /\ 4087 <> Z.min 4096 4096
  /\ reachable (State Sample.failed_device None Idle)
  /\ error (Sample.reader_of Sample.failed_device) = true
  /\ bufferEmpty (Sample.reader_of Sample.failed_device) = true
  /\ (exists d1,
        readData Sample.failed_device 1 = Returned (-1) [] d1
        /\ error (Sample.reader_of d1) = true
        /\ bufferEmpty (Sample.reader_of d1) = true
        /\ readData d1 1 = Returned 0 [] d1).
Proof.
  split; [apply reachable_wrapped|].
  split; [vm_compute; reflexivity|].
  split; [vm_compute; reflexivity|].
  split; [eexists; eexists; vm_compute; reflexivity|].
  split; [discriminate|].
  split; [exact reachable_failed|].
  split; [vm_compute; reflexivity|].
  split; [vm_compute; reflexivity|].
  eexists. split; [vm_compute; reflexivity|].
  split; [vm_compute; reflexivity|].
  split; vm_compute; reflexivity.
Qed.

Lemma isOpen_not_NotOpen (d : KDPipeIODevice.t) :
  isOpen d = true -> (openMode d =? NotOpen) = false.
Proof. unfold isOpen. intros H. apply negb_true_iff in H. exact H. Qed.

(** C6.  On an open readable device [atEnd()] is true exactly when
    end-of-file or error is latched and both the ring buffer and the
    generic buffer are empty.  With neither latched it is false, also
    when [bytesAvailable()] is 0. *)
Theorem atEnd_iff_latched_and_drained (d : KDPipeIODevice.t) (r : Reader.t) :
  readable d r ->
  exists b,
    atEnd d = Some b
    /\ (b = true <->
        (eof r || error r) = true /\ bufferEmpty r = true /\ qbuffer d = 0)
    /\ (eof r = false -> error r = false ->
        b = false
        /\ (bufferEmpty r = true -> qbuffer d = 0 ->
            fst (bytesAvailable (startReaderThread d)) = 0)).
Proof.
  intros (Hopen & Hq & Hr & Hinv).
  pose proof Hinv as (Hp & Hlen & Hboth & Hsc).
  pose proof (bytesInBuffer_range r Hp) as Hrange.
  assert (Havail : fst (bytesAvailable (startReaderThread d))
                   = qbuffer d + bytesInBuffer r).
  { unfold bytesAvailable, QIODevice_bytesAvailable, startReaderThread.
    cbn [triedToStartReader negb reader qbuffer fst]. rewrite Hr. reflexivity. }
  assert (Hend : QIODevice_atEnd (startReaderThread d)
                 = (qbuffer d =? 0) && bufferEmpty r).
  { unfold QIODevice_atEnd. rewrite Havail.
    change (openMode (startReaderThread d)) with (openMode d).
    change (qbuffer (startReaderThread d)) with (qbuffer d).
    rewrite (isOpen_not_NotOpen d Hopen). cbn [orb]. unfold bufferEmpty.
    destruct (Z.eqb_spec (qbuffer d) 0) as [E|E]; [|reflexivity].
    rewrite E. reflexivity. }
  unfold atEnd. rewrite Hend.
  change (isOpen (startReaderThread d)) with (isOpen d).
  change (reader (startReaderThread d)) with (reader d).
  rewrite Hopen, Hr. cbn [negb].
  destruct (Z.eqb_spec (qbuffer d) 0) as [Hq0|Hq0]; cbn [andb negb].
  - destruct (bufferEmpty r) eqn:Hempty; cbn [negb].
    + destruct (eofShortCut r) eqn:Hshort.
      * destruct (Hsc eq_refl) as [Hlatched _].
        exists true. split; [reflexivity|]. split; [tauto|].
        intros Heof Herr. rewrite Heof, Herr in Hlatched. discriminate.
      * exists ((error r || eof r) && true). split; [reflexivity|].
        rewrite andb_true_r, (orb_comm (error r) (eof r)). split; [tauto|].
        intros Heof Herr. rewrite Heof, Herr. split; [reflexivity|].
        intros _ _. rewrite Havail, Hq0.
        unfold bufferEmpty in Hempty. apply Z.eqb_eq in Hempty. lia.
    + exists false. split; [reflexivity|]. split.
      * split; [discriminate|]. intros (_ & H & _). discriminate.
      * intros _ _. split; [reflexivity|]. discriminate.
  - exists false. split; [reflexivity|]. split.
    + split; [discriminate|]. intros (_ & _ & H). contradiction.
    + intros _ _. split; [reflexivity|]. intros _ H. contradiction.
Qed.

Lemma readable_initial :
  readable Sample.read_device (Reader.new 3 0).
Proof.
  apply (reachable_readable (State Sample.read_device None Idle)).
  - apply reachable_initial.
  - reflexivity.
Defined.

Lemma atEnd_iff_latched_and_drained_witness :
  readable Sample.read_device (Reader.new 3 0)
  /\ atEnd Sample.read_device = Some false
  /\ fst (bytesAvailable (startReaderThread Sample.read_device)) = 0.
Proof.
  split; [exact readable_initial|].
  destruct (atEnd_iff_latched_and_drained Sample.read_device (Reader.new 3 0)
              readable_initial) as (b & Hb & _ & Hfalse).
  destruct (Hfalse eq_refl eq_refl) as [-> Havail].
  split; [exact Hb|]. apply Havail; reflexivity.
Defined.

(** After the failed read the stream is at its end. *)
Lemma atEnd_failed_device : atEnd Sample.failed_device = Some true.
Proof. vm_compute. reflexivity. Qed.

End ReadFacts.

(** ** The client exchange *)

Section RunFacts.

Import Command.

Variable env : Env.
Variable in_ : Inputs.

Lemma i18n2_not_empty (c0 : ascii) (a b c d : string) :
  i18n2 (String c0 a) b c d <> EmptyString.
Proof. discriminate. Qed.

Lemma transact_spec (st : Step) (line_ : string)
    (reply : string -> option string) (s : RunState) :
  out (snd (my_assuan_transact env st line_ reply s)) = out s
  /\ trace (snd (my_assuan_transact env st line_ reply s))
     = (trace s ++ [MakeExchange st line_
                      (fst (my_assuan_transact env st line_ reply s))
                      (List.map reply
                         (inquiries (fst (my_assuan_transact env st line_ reply s))))])%list.
Proof. split; reflexivity. Qed.

Lemma clean_snoc (tr : list Exchange) (e : Exchange) :
  clean env in_ tr -> ~ fatal_failure env in_ e -> clean env in_ (tr ++ [e]).
Proof.
  intros Htr He. unfold clean. apply Forall_app. split; [exact Htr|].
  constructor; [exact He | constructor].
Qed.

Lemma flow_ok_andThen (f : Flow) (k : RunState -> Flow) :
  flow_ok env in_ f ->
  (forall s, ok_state env in_ s -> flow_ok env in_ (k s)) ->
  flow_ok env in_ (andThen f k).
Proof.
  intros Hf Hk. destruct f as [s|s]; cbn [andThen].
  - apply Hk. exact Hf.
  - exact Hf.
Qed.

(** A step that transacts one line and gives up exactly when the answer
    is a fatal failure that is not a cancellation. *)
Lemma leave_failed (s s1 : RunState) (e : Exchange) (msg : string) :
  ok_state env in_ s ->
  trace s1 = (trace s ++ [e])%list ->
  canceled (out s1) = false ->
  msg <> EmptyString ->
  fatal_failure env in_ e -> step e <> MainCommand ->
  left_state env in_ (set_errorString msg s1).
Proof.
  intros [_ Hclean] Htrace Hcan Hmsg Hfatal Hstep.
  right. left. split.
  - split; cbn; assumption.
  - right. exists (trace s), e. cbn [set_errorString trace].
    split; [exact Htrace|]. split; [exact Hclean|]. split; [exact Hfatal|].
    intros [Hmain _]. contradiction.
Qed.

Lemma connect_ok (s : RunState) :
  ok_state env in_ s -> trace s = [] -> flow_ok env in_ (connect env s).
Proof.
  intros [[Herr Hcan] Hclean] Hnil. unfold connect.
  set (s' := if String.eqb (serverLocation (out s)) EmptyString
             then set_serverLocation (default_socket_name env) s else s).
  assert (Hs' : errorString (out s') = EmptyString /\ canceled (out s') = false
                /\ trace s' = trace s).
  { unfold s'. destruct (String.eqb (serverLocation (out s)) EmptyString);
      cbn; repeat split; assumption. }
  destruct Hs' as (Herr' & Hcan' & Htrace').
  assert (Hleave : forall msg, msg <> EmptyString ->
                     flow_ok env in_ (Leave (set_errorString msg s'))).
  { intros msg Hmsg. right. left. split.
    - split; cbn; assumption.
    - left. cbn. rewrite Htrace'. exact Hnil. }
  destruct (String.eqb (serverLocation (out s')) EmptyString).
  { apply Hleave. discriminate. }
  destruct (negb (assuan_new env =? 0)).
  { apply Hleave. apply i18n2_not_empty. }
  assert (Hend : forall e,
             flow_ok env in_
               (if negb (e =? 0)
                then Leave (set_errorString
                              (i18n2 "Could not connect to Kleopatra UI server at "
                                     (serverLocation (out s')) ": "
                                     (to_error_string env e)) s')
                else Continue s')).
  { intros e. destruct (negb (e =? 0)).
    - apply Hleave. apply i18n2_not_empty.
    - split; [split; assumption|]. rewrite Htrace'. exact Hclean. }
  destruct (negb (assuan_socket_connect env 0 (serverLocation (out s')) =? 0)).
  - destruct (String.eqb (start_uiserver env) EmptyString) eqn:Hstart; cbn [negb].
    + apply Hend.
    + apply Hleave. apply String.eqb_neq. exact Hstart.
  - apply Hend.
Qed.

Lemma getinfo_pid_ok (s : RunState) :
  ok_state env in_ s -> flow_ok env in_ (getinfo_pid env s).
Proof.
  intros Hok. pose proof Hok as [[Herr Hcan] Hclean]. unfold getinfo_pid.
  destruct (my_assuan_transact env GetInfoPid "GETINFO pid" no_inquire_cb
              (set_serverPid (-1) s)) as [resp s1] eqn:E.
  pose proof (transact_spec GetInfoPid "GETINFO pid" no_inquire_cb
                (set_serverPid (-1) s)) as [Hout Htrace].
  rewrite E in Hout, Htrace. cbn [fst snd] in Hout, Htrace.
  set (e := MakeExchange GetInfoPid "GETINFO pid" resp
              (List.map no_inquire_cb (inquiries resp))) in *.
  assert (Hpid : serverPid (out s1) = -1) by (rewrite Hout; reflexivity).
  rewrite Hpid.
  cbn [set_serverPid out serverPid trace].
  destruct (negb (err resp =? 0) || (fold_left (getinfo_pid_cb env) (chunks resp) (-1) <=? 0))
    eqn:Hfail.
  - cbn [flow_ok].
    apply (leave_failed s _ e _ Hok).
    + exact Htrace.
    + cbn [set_serverPid out canceled]. rewrite Hout. exact Hcan.
    + apply i18n2_not_empty.
    + cbn. apply orb_true_iff in Hfail as [H|H].
      * left. apply negb_true_iff, Z.eqb_neq in H. exact H.
      * right. apply Z.leb_le in H. exact H.
    + discriminate.
  - cbn [flow_ok]. split.
    + split; cbn; rewrite Hout; assumption.
    + change (clean env in_ (trace s1)). rewrite Htrace.
      apply clean_snoc; [exact Hclean|].
      apply orb_false_iff in Hfail as [H1 H2].
      apply negb_false_iff, Z.eqb_eq in H1. apply Z.leb_gt in H2.
      cbn. lia.
Qed.

(** One line whose failure is fatal: the step gives up with an error
    string, or goes on with a clean trace. *)
Lemma fatal_line_ok (st : Step) (line_ : string) (s : RunState)
    (msg : Response -> string) (k : RunState -> Flow) :
  ok_state env in_ s ->
  (st = SendFile \/ st = SendSender \/ st = SendRecipient) ->
  (forall resp, msg resp <> EmptyString) ->
  (forall s1, ok_state env in_ s1 -> flow_ok env in_ (k s1)) ->
  flow_ok env in_
    (let '(resp, s1) := my_assuan_transact env st line_ no_inquire_cb s in
     if negb (err resp =? 0) then Leave (set_errorString (msg resp) s1)
     else k s1).
Proof.
  intros Hok Hst Hmsg Hk. pose proof Hok as [[Herr Hcan] Hclean].
  pose proof (transact_spec st line_ no_inquire_cb s) as [Hout Htrace].
  destruct (my_assuan_transact env st line_ no_inquire_cb s) as [resp s1].
  cbn [fst snd] in Hout, Htrace.
  set (e := MakeExchange st line_ resp (List.map no_inquire_cb (inquiries resp))) in *.
  assert (Hfatal : fatal_failure env in_ e <-> err resp <> 0).
  { unfold fatal_failure. cbn [step e response].
    destruct Hst as [-> | [-> | ->]]; reflexivity. }
  destruct (Z.eqb_spec (err resp) 0) as [Hz|Hnz]; cbn [negb].
  - apply Hk. split.
    + split; rewrite Hout; assumption.
    + rewrite Htrace. apply clean_snoc; [exact Hclean|].
      rewrite Hfatal. intros H. contradiction.
  - apply (leave_failed s s1 e _ Hok Htrace).
    + rewrite Hout. exact Hcan.
    + apply Hmsg.
    + apply Hfatal. exact Hnz.
    + cbn. destruct Hst as [-> | [-> | ->]]; discriminate.
Qed.

Lemma send_files_ok (l : list string) (s : RunState) :
  ok_state env in_ s -> flow_ok env in_ (send_files env l s).
Proof.
  revert s. induction l as [|f l IH]; intros s Hok; cbn [send_files].
  - exact Hok.
  - unfold send_file.
    apply (fatal_line_ok SendFile _ s
             (fun resp => i18n2 "Failed to send file path " f ": "
                                (to_error_string env (err resp)))
             (send_files env l) Hok).
    + left. reflexivity.
    + intros resp. apply i18n2_not_empty.
    + exact IH.
Qed.

Lemma send_senders_ok (info : bool) (l : list string) (s : RunState) :
  ok_state env in_ s -> flow_ok env in_ (send_senders env info l s).
Proof.
  revert s. induction l as [|f l IH]; intros s Hok; cbn [send_senders].
  - exact Hok.
  - unfold send_sender.
    apply (fatal_line_ok SendSender _ s
             (fun resp => i18n2 "Failed to send sender " f ": "
                                (to_error_string env (err resp)))
             (send_senders env info l) Hok).
    + right. left. reflexivity.
    + intros resp. apply i18n2_not_empty.
    + exact IH.
Qed.

Lemma send_recipients_ok (info : bool) (l : list string) (s : RunState) :
  ok_state env in_ s -> flow_ok env in_ (send_recipients env info l s).
Proof.
  revert s. induction l as [|f l IH]; intros s Hok; cbn [send_recipients].
  - exact Hok.
  - unfold send_recipient.
    apply (fatal_line_ok SendRecipient _ s
             (fun resp => i18n2 "Failed to send recipient " f ": "
                                (to_error_string env (err resp)))
             (send_recipients env info l) Hok).
    + right. right. reflexivity.
    + intros resp. apply i18n2_not_empty.
    + exact IH.
Qed.

Lemma send_window_id_ok (s : RunState) :
  ok_state env in_ s -> flow_ok env in_ (send_window_id env in_ s).
Proof.
  intros Hok. pose proof Hok as [[Herr Hcan] Hclean]. unfold send_window_id.
  destruct (negb (parentWId in_ =? 0)); [|exact Hok].
  unfold send_option.
  pose proof (transact_spec WindowId
                (send_option_line "window-id" (Some (asprintf_lx (parentWId in_))))
                no_inquire_cb s) as [Hout Htrace].
  destruct (my_assuan_transact env WindowId _ no_inquire_cb s) as [resp s1].
  cbn [fst snd] in Hout, Htrace. split.
  - split; rewrite Hout; assumption.
  - rewrite Htrace. apply clean_snoc; [exact Hclean|].
    unfold fatal_failure. cbn. intros [].
Qed.

(** The options: a failed option gives up only when it is critical. *)
Lemma send_options_ok (l : list (string * Option)) (s : RunState) :
  (forall name o, In (name, o) l -> options in_ !! name = Some o) ->
  ok_state env in_ s -> flow_ok env in_ (send_options env l s).
Proof.
  revert s. induction l as [|[name o] l IH]; intros s Hin Hok;
    cbn [send_options].
  - exact Hok.
  - pose proof Hok as [[Herr Hcan] Hclean].
    assert (Hname : options in_ !! name = Some o) by (apply Hin; left; reflexivity).
    assert (Hrest : forall name' o', In (name', o') l ->
                                     options in_ !! name' = Some o').
    { intros name' o' H. apply Hin. right. exact H. }
    unfold send_option.
    pose proof (transact_spec (SendOption name)
                  (send_option_line name
                     (if hasValue o then Some (toString (value o)) else None))
                  no_inquire_cb s) as [Hout Htrace].
    destruct (my_assuan_transact env (SendOption name) _ no_inquire_cb s)
      as [resp s1].
    cbn [fst snd] in Hout, Htrace.
    match type of Htrace with
    | _ = (_ ++ [?x])%list => set (e := x) in *
    end.
    assert (Hgo : ~ fatal_failure env in_ e -> flow_ok env in_ (send_options env l s1)).
    { intros Hnf. apply IH; [exact Hrest|]. split.
      - split; rewrite Hout; assumption.
      - rewrite Htrace. apply clean_snoc; assumption. }
    destruct (Z.eqb_spec (err resp) 0) as [Hz|Hnz]; cbn [negb].
    + apply Hgo. unfold fatal_failure. cbn. intros [H _]. contradiction.
    + destruct (isCritical o) eqn:Hcrit.
      * apply (leave_failed s s1 e _ Hok Htrace).
        -- rewrite Hout. exact Hcan.
        -- apply i18n2_not_empty.
        -- unfold fatal_failure. cbn. split; [exact Hnz|]. exists o. split; assumption.
        -- discriminate.
      * apply Hgo. unfold fatal_failure. cbn. intros [_ (o' & Ho' & Hc')].
        rewrite Hname in Ho'. injection Ho' as <-. congruence.
Qed.

Lemma options_in_order_lookup (name : string) (o : Option) :
  In (name, o) (options_in_order (options in_)) ->
  options in_ !! name = Some o.
Proof.
  unfold options_in_order. intros H.
  apply list_elem_of_In in H. rewrite merge_sort_Permutation in H.
  apply elem_of_map_to_list in H. exact H.
Qed.

(** The main command: "canceled" sets the flag, any other failure the
    error string. *)
Lemma send_command_ok (s : RunState) :
  ok_state env in_ s -> left_state env in_ (final (send_command env in_ s)).
Proof.
  intros Hok. pose proof Hok as [[Herr Hcan] Hclean]. unfold send_command.
  pose proof (transact_spec MainCommand (command in_)
                (command_inquire_cb (inquireData in_)) s) as [Hout Htrace].
  destruct (my_assuan_transact env MainCommand (command in_)
              (command_inquire_cb (inquireData in_)) s) as [resp s1].
  cbn [fst snd] in Hout, Htrace.
  match type of Htrace with
  | _ = (_ ++ [?x])%list => set (e := x) in *
  end.
  destruct (Z.eqb_spec (err resp) 0) as [Hz|Hnz]; cbn [negb final].
  - left. split.
    + split; cbn; rewrite Hout; assumption.
    + cbn. rewrite Htrace. apply clean_snoc; [exact Hclean|].
      unfold fatal_failure. cbn. intros H. contradiction.
  - destruct (Z.eqb_spec (gpg_err_code (err resp)) GPG_ERR_CANCELED) as [Hc|Hnc];
      cbn [final].
    + right. right. split.
      * split; cbn; [rewrite Hout; exact Herr | reflexivity].
      * exists (trace s), e. cbn. split; [exact Htrace|]. split; [exact Hclean|].
        repeat split; assumption.
    + right. left. split.
      * split; cbn; [apply i18n2_not_empty | rewrite Hout; exact Hcan].
      * right. exists (trace s), e. cbn. split; [exact Htrace|].
        split; [exact Hclean|]. split; [exact Hnz|].
        intros (_ & _ & H). contradiction.
Qed.

Lemma left_of_flow (f : Flow) :
  flow_ok env in_ f -> left_state env in_ (final f).
Proof.
  destruct f as [s|s]; cbn; [|auto]. intros H. left. exact H.
Qed.

(** The whole of [run()] ends in one of the three states of [leave]. *)
Lemma run_flow_left : left_state env in_ (final (run_flow env in_)).
Proof.
  unfold run_flow.
  assert (Hstart : ok_state env in_
            (set_canceled false (MakeRunState Outputs_default []))).
  { split; [split; reflexivity | unfold clean; constructor]. }
  destruct (connect env _) as [s1|s1] eqn:E1;
    pose proof (connect_ok _ Hstart eq_refl) as H1; rewrite E1 in H1;
    cbn [andThen final];
    [|exact H1].
  destruct (getinfo_pid env s1) as [s2|s2] eqn:E2;
    pose proof (getinfo_pid_ok _ H1) as H2; rewrite E2 in H2; cbn [andThen final];
    [|exact H2].
  destruct (String.eqb (command in_) EmptyString); cbn [final].
  { left. exact H2. }
  destruct (send_window_id env in_ s2) as [s3|s3] eqn:E3;
    pose proof (send_window_id_ok _ H2) as H3; rewrite E3 in H3; cbn [andThen final];
    [|exact H3].
  destruct (send_options env _ s3) as [s4|s4] eqn:E4;
    pose proof (send_options_ok _ s3 options_in_order_lookup H3) as H4;
    rewrite E4 in H4; cbn [andThen final]; [|exact H4].
  destruct (send_files env _ s4) as [s5|s5] eqn:E5;
    pose proof (send_files_ok (filePaths in_) _ H4) as H5; rewrite E5 in H5;
    cbn [andThen final]; [|exact H5].
  destruct (send_senders env _ _ s5) as [s6|s6] eqn:E6;
    pose proof (send_senders_ok (areSendersInformative in_) (senders in_) _ H5) as H6;
    rewrite E6 in H6; cbn [andThen final]; [|exact H6].
  destruct (send_recipients env _ _ s6) as [s7|s7] eqn:E7;
    pose proof (send_recipients_ok (areRecipientsInformative in_) (recipients in_) _ H6)
      as H7;
    rewrite E7 in H7; cbn [andThen final]; [|exact H7].
  apply send_command_ok. exact H7.
Qed.

End RunFacts.

Section RunOutcome.

Import Command.

Lemma outcomes_exclusive (o : Outputs) :
  ~ (succeeded o /\ was_canceled o)
  /\ ~ (succeeded o /\ failed o)
  /\ ~ (was_canceled o /\ failed o).
Proof.
  unfold succeeded, was_canceled, failed.
  repeat split; intros [[? ?] [? ?]]; congruence.
Qed.

Lemma error_iff_errorString (c : Command.t) :
  error c = true <-> errorString (outputs c) <> EmptyString.
Proof.
  unfold error. rewrite negb_true_iff. apply String.eqb_neq.
Qed.

Lemma clean_no_fatal (env : Env) (in_ : Inputs) (tr : list Exchange) (e : Exchange) :
  clean env in_ tr -> In e tr -> ~ fatal_failure env in_ e.
Proof.
  intros Hclean Hin. unfold clean in Hclean.
  rewrite Forall_forall in Hclean. apply Hclean.
  apply list_elem_of_In. exact Hin.
Qed.

Lemma snoc_split (A : Type) (pre pre' post' : list A) (e e' : A) :
  (pre ++ [e])%list = (pre' ++ e' :: post')%list ->
  (post' = [] /\ pre = pre' /\ e = e') \/ In e' pre.
Proof.
  intros H. induction post' as [|x post'' _] using rev_ind.
  - left. apply app_inj_tail in H as [-> ->]. auto.
  - right. rewrite app_comm_cons, app_assoc in H.
    apply app_inj_tail in H as [-> _].
    apply in_or_app. right. left. reflexivity.
Qed.

Lemma clean_short_circuited (env : Env) (in_ : Inputs) (tr : list Exchange) :
  clean env in_ tr -> short_circuited env in_ tr.
Proof.
  intros Hclean pre e post -> Hfatal. exfalso.
  apply (clean_no_fatal env in_ _ e Hclean); [|exact Hfatal].
  apply in_or_app. right. left. reflexivity.
Qed.

Lemma snoc_short_circuited (env : Env) (in_ : Inputs) (pre : list Exchange)
    (e : Exchange) :
  clean env in_ pre -> short_circuited env in_ (pre ++ [e]).
Proof.
  intros Hclean pre' e' post' Heq Hfatal.
  destruct (snoc_split _ _ _ _ _ _ Heq) as [(Hpost & _)|Hin]; [exact Hpost|].
  exfalso. exact (clean_no_fatal env in_ pre e' Hclean Hin Hfatal).
Qed.

End RunOutcome.

(** * Further properties *)

(** ** hexencode: the shape of the output *)

Section HexShape.

Import Hex.

Lemma append_nil_l (s : string) : String.append EmptyString s = s.
Proof. reflexivity. Qed.

Lemma append_cons (c : ascii) (s1 s2 : string) :
  String.append (String c s1) s2 = String c (String.append s1 s2).
Proof. reflexivity. Qed.

Lemma string_forall_app (p : ascii -> bool) (s1 s2 : string) :
  string_forall p (String.append s1 s2)
  = string_forall p s1 && string_forall p s2.
Proof.
  induction s1 as [|c s1 IH].
  - reflexivity.
  - rewrite append_cons. cbn [string_forall]. rewrite IH. apply andb_assoc.
Qed.

Lemma hexencode_char_token (c : ascii) :
  string_forall token_char (hexencode_char c) = true.
Proof.
  revert c.
  apply (forall_bytes (fun c => string_forall token_char (hexencode_char c))).
  vm_compute. reflexivity.
Qed.

Lemma hexencode_char_length (c : ascii) :
  (1 <= String.length (hexencode_char c) <= 3)%nat.
Proof.
  unfold hexencode_char.
  destruct (uchar c =? 32); [cbn; lia|].
  destruct (is_escaped_case (uchar c)); [cbn; lia|].
  destruct (((33 <=? uchar c) && (uchar c <=? 126)) || (160 <? uchar c));
    cbn; lia.
Qed.

Lemma string_length_append (s1 s2 : string) :
  String.length (String.append s1 s2)
  = (String.length s1 + String.length s2)%nat.
Proof.
  induction s1 as [|c s1 IH].
  - reflexivity.
  - rewrite append_cons. cbn [String.length]. rewrite IH. reflexivity.
Qed.

(** X1.  Whatever the input, [hexencode] writes a single token: every
    byte of the result is printable ASCII other than the space or lies
    above 0xA0, and none is a double quote, [#], [$], a single quote or
    [=].  In particular the result holds no space and no control
    byte. *)
Theorem hexencode_is_token (s : string) :
  string_forall token_char (hexencode s) = true.
Proof.
  induction s as [|c s IH]; cbn [hexencode].
  - reflexivity.
  - rewrite string_forall_app, hexencode_char_token, IH. reflexivity.
Qed.

(** X2.  [hexencode] works byte by byte: the encoding of a
    concatenation is the concatenation of the encodings, and the result
    has at least as many bytes as the input and at most three times as
    many (the size reserved for [result]). *)
Theorem hexencode_append_and_length (s1 s2 : string) :
  hexencode (String.append s1 s2)
  = String.append (hexencode s1) (hexencode s2)
  /\ (String.length s1 <= String.length (hexencode s1)
      <= 3 * String.length s1)%nat.
Proof.
  split.
  - induction s1 as [|c s1 IH].
    + reflexivity.
    + rewrite append_cons. cbn [hexencode]. rewrite IH.
      generalize (hexencode_char c) (hexencode s1) (hexencode s2).
      intros a b d. induction a as [|x a IHa].
      * reflexivity.
      * rewrite !append_cons, IHa. reflexivity.
  - induction s1 as [|c s1 IH]; cbn [hexencode String.length].
    + lia.
    + rewrite string_length_append.
      pose proof (hexencode_char_length c). lia.
Qed.

(** X3.  On inputs without control bytes, DEL and the bytes
    0x80..0xA0, [hexencode] loses nothing: two such inputs with the same
    encoding are equal. *)
Theorem hexencode_injective_on_safe (s1 s2 : string) :
  string_forall (fun c => negb (falls_through c)) s1 = true ->
  string_forall (fun c => negb (falls_through c)) s2 = true ->
  hexencode s1 = hexencode s2 ->
  s1 = s2.
Proof.
  assert (Hsafe : forall s,
             string_forall (fun c => negb (falls_through c)) s = true ->
             forall c, In c (list_ascii_of_string s) -> falls_through c = false).
  { induction s as [|c s IH]; cbn [string_forall list_ascii_of_string].
    - intros _ c [].
    - intros H c' [<-|Hin].
      + apply andb_true_iff in H as [H _]. apply negb_true_iff. exact H.
      + apply andb_true_iff in H as [_ H]. apply IH; assumption. }
  intros H1 H2 Heq.
  pose proof (hexencode_roundtrip_safe s1 (Hsafe s1 H1)) as R1.
  pose proof (hexencode_roundtrip_safe s2 (Hsafe s2 H2)) as R2.
  rewrite Heq in R1. rewrite R1 in R2. injection R2 as ->. reflexivity.
Qed.

Lemma hexencode_injective_on_safe_witness :
  string_forall (fun c => negb (falls_through c)) "a b%" = true
  /\ string_forall (fun c => negb (falls_through c)) "a b%" = true
  /\ hexencode "a b%" = "a+b%25"
  /\ "a b%" = "a b%".
Proof.
  split; [reflexivity|]. split; [reflexivity|]. split; [reflexivity|].
  apply (hexencode_injective_on_safe "a b%" "a b%"); reflexivity.
Defined.

End HexShape.

(** ** The client exchange: order of the lines, answers, outputs *)

Section RunOrder.

Import Command.

Variable env : Env.
Variable in_ : Inputs.

Lemma sent_app (tr1 tr2 : list Exchange) :
  sent (tr1 ++ tr2) = (sent tr1 ++ sent tr2)%list.
Proof. unfold sent. apply map_app. Qed.

Lemma answers_ok_nil : answers_ok env in_ [].
Proof. intros pre e post H. destruct pre; discriminate. Qed.

Lemma answers_ok_snoc (tr : list Exchange) (st : Step) (line_ : string) :
  answers_ok env in_ tr ->
  answers_ok env in_
    (tr ++ [MakeExchange st line_ (peer env (List.map line tr) line_)
              (List.map (reply_for in_ st)
                 (inquiries (peer env (List.map line tr) line_)))]).
Proof.
  intros Hok pre e post Heq.
  induction post as [|x post' _] using rev_ind.
  - apply app_inj_tail in Heq as [-> <-]. cbn. split; reflexivity.
  - rewrite app_comm_cons, app_assoc in Heq.
    apply app_inj_tail in Heq as [-> _].
    apply (Hok pre e post'). reflexivity.
Qed.

(** One line sent with the callback of its step. *)
Lemma transact_facts (st : Step) (line_ : string) (s : RunState) :
  let r := my_assuan_transact env st line_ (reply_for in_ st) s in
  exists e,
    out (snd r) = out s
    /\ trace (snd r) = (trace s ++ [e])%list
    /\ step e = st /\ line e = line_ /\ response e = fst r
    /\ fst r = peer env (List.map line (trace s)) line_
    /\ (answers_ok env in_ (trace s) -> answers_ok env in_ (trace (snd r))).
Proof.
  cbv zeta. unfold my_assuan_transact. cbn [fst snd out trace].
  eexists. split; [reflexivity|]. split; [reflexivity|].
  cbn [step line response]. repeat (split; [reflexivity|]).
  apply answers_ok_snoc.
Qed.

Lemma not_succeeded_error (msg : string) (s : RunState) :
  msg <> EmptyString -> ~ succeeded (out (set_errorString msg s)).
Proof. intros Hmsg [H _]. cbn in H. contradiction. Qed.

Lemma phase_spec_andThen (td1 td2 : bool) (l1 l2 : list (Step * string))
    (s : RunState) (f : Flow) (k : RunState -> Flow) :
  phase_spec env in_ td1 l1 s f ->
  (forall s', f = Continue s' -> phase_spec env in_ td2 l2 s' (k s')) ->
  phase_spec env in_ (td1 || td2) (l1 ++ l2) s (andThen f k).
Proof.
  intros (x1 & Htr & Hans & Hloc & Hdata & Hsent) Hk.
  destruct f as [s'|s']; cbn [andThen].
  - destruct (Hk s' eq_refl) as (x2 & Htr' & Hans' & Hloc' & Hdata' & Hsent').
    cbn [final] in *. exists (x1 ++ x2)%list.
    split; [rewrite Htr', Htr, app_assoc; reflexivity|].
    split; [auto|]. split; [congruence|]. split.
    + intros Htd. apply orb_false_iff in Htd as [H1 H2].
      destruct (Hdata H1) as [D1 F1]. destruct (Hdata' H2) as [D2 F2].
      split; [congruence|]. apply Forall_app. split; assumption.
    + rewrite sent_app, Hsent. destruct (k s') as [s''|s''].
      * rewrite Hsent'. reflexivity.
      * destruct Hsent' as [(rest & Hl) Hnot]. split; [|exact Hnot].
        exists rest. rewrite Hl, app_assoc. reflexivity.
  - cbn [final] in *. exists x1. split; [exact Htr|].
    split; [exact Hans|]. split; [exact Hloc|]. split.
    + intros Htd. apply orb_false_iff in Htd as [H1 _]. apply Hdata. exact H1.
    + destruct Hsent as [(rest & Hl) Hnot]. split; [|exact Hnot].
      exists (rest ++ l2)%list. rewrite Hl, app_assoc. reflexivity.
Qed.

Lemma phase_spec_nil (s : RunState) : phase_spec env in_ false [] s (Continue s).
Proof.
  exists []. cbn [final]. split; [rewrite app_nil_r; reflexivity|].
  split; [auto|]. split; [reflexivity|].
  split; [|reflexivity]. intros _. split; [reflexivity | constructor].
Qed.

(** The state after one line that is not the main command, followed by
    the rest of a step. *)
Lemma phase_spec_cons (st : Step) (line_ : string) (s s1 : RunState)
    (e : Exchange) (rest : list (Step * string)) (f : Flow) :
  out s1 = out s -> trace s1 = (trace s ++ [e])%list ->
  step e = st -> line e = line_ -> st <> MainCommand ->
  (answers_ok env in_ (trace s) -> answers_ok env in_ (trace s1)) ->
  phase_spec env in_ false rest s1 f ->
  phase_spec env in_ false ((st, line_) :: rest) s f.
Proof.
  intros Hout Htr Hst Hline Hnot Hans (x & Htr' & Hans' & Hloc' & Hdata' & Hsent').
  exists (e :: x). split; [rewrite Htr', Htr, <- app_assoc; reflexivity|].
  split; [auto|]. split; [congruence|]. split.
  - intros _. destruct (Hdata' eq_refl) as [D F].
    split; [congruence|]. constructor; [congruence | exact F].
  - assert (Hs : sent (e :: x) = (st, line_) :: sent x).
    { unfold sent. cbn. rewrite Hst, Hline. reflexivity. }
    rewrite Hs. destruct f as [s2|s2].
    + rewrite Hsent'. reflexivity.
    + destruct Hsent' as [(rest' & Hl) Hn]. split; [|exact Hn].
      exists rest'. rewrite Hl. reflexivity.
Qed.

(** The state after one failed line that makes [run()] leave. *)
Lemma phase_spec_leave (st : Step) (line_ : string) (s s1 : RunState)
    (e : Exchange) (rest : list (Step * string)) (msg : string) :
  out s1 = out s -> trace s1 = (trace s ++ [e])%list ->
  step e = st -> line e = line_ -> st <> MainCommand ->
  (answers_ok env in_ (trace s) -> answers_ok env in_ (trace s1)) ->
  msg <> EmptyString ->
  phase_spec env in_ false ((st, line_) :: rest) s
    (Leave (set_errorString msg s1)).
Proof.
  intros Hout Htr Hst Hline Hnot Hans Hmsg.
  exists [e]. cbn [final]. split; [exact Htr|]. split; [exact Hans|].
  split; [cbn; rewrite Hout; reflexivity|]. split.
  - intros _. split; [cbn; rewrite Hout; reflexivity|].
    constructor; [congruence | constructor].
  - split; [|apply not_succeeded_error, Hmsg].
    exists rest. unfold sent. cbn. rewrite Hst, Hline. reflexivity.
Qed.

(** A line whose failure makes [run()] leave with an error string. *)
Lemma fatal_line_phase (st : Step) (line_ : string) (s : RunState)
    (msg : Response -> string) (k : RunState -> Flow)
    (rest : list (Step * string)) :
  reply_for in_ st = no_inquire_cb -> st <> MainCommand ->
  (forall resp, msg resp <> EmptyString) ->
  (forall s1, phase_spec env in_ false rest s1 (k s1)) ->
  phase_spec env in_ false ((st, line_) :: rest) s
    (let '(resp, s1) := my_assuan_transact env st line_ no_inquire_cb s in
     if negb (err resp =? 0) then Leave (set_errorString (msg resp) s1)
     else k s1).
Proof.
  intros Hreply Hst Hmsg Hk.
  pose proof (transact_facts st line_ s) as Hfacts. cbv zeta in Hfacts.
  rewrite Hreply in Hfacts.
  destruct (my_assuan_transact env st line_ no_inquire_cb s) as [resp s1].
  cbn [fst snd] in Hfacts.
  destruct Hfacts as (e & Hout & Htr & He1 & He2 & _ & _ & Hans).
  destruct (negb (err resp =? 0)).
  - apply (phase_spec_leave st line_ s s1 e); auto.
  - apply (phase_spec_cons st line_ s s1 e); auto.
Qed.

Lemma send_files_phase (l : list string) (s : RunState) :
  phase_spec env in_ false (List.map (fun f => (SendFile, file_line f)) l) s
    (send_files env l s).
Proof.
  revert s. induction l as [|f l IH]; intros s; cbn [send_files List.map].
  - apply phase_spec_nil.
  - unfold send_file.
    apply (fatal_line_phase SendFile (file_line f) s
             (fun resp => i18n2 "Failed to send file path " f ": "
                                (to_error_string env (err resp)))
             (send_files env l)).
    + reflexivity.
    + discriminate.
    + intros resp. apply i18n2_not_empty.
    + exact IH.
Qed.

Lemma send_senders_phase (info : bool) (l : list string) (s : RunState) :
  phase_spec env in_ false
    (List.map (fun x => (SendSender, sender_line info x)) l) s
    (send_senders env info l s).
Proof.
  revert s. induction l as [|f l IH]; intros s; cbn [send_senders List.map].
  - apply phase_spec_nil.
  - unfold send_sender.
    apply (fatal_line_phase SendSender (sender_line info f) s
             (fun resp => i18n2 "Failed to send sender " f ": "
                                (to_error_string env (err resp)))
             (send_senders env info l)).
    + reflexivity.
    + discriminate.
    + intros resp. apply i18n2_not_empty.
    + exact IH.
Qed.

Lemma send_recipients_phase (info : bool) (l : list string) (s : RunState) :
  phase_spec env in_ false
    (List.map (fun x => (SendRecipient, recipient_line info x)) l) s
    (send_recipients env info l s).
Proof.
  revert s. induction l as [|f l IH]; intros s; cbn [send_recipients List.map].
  - apply phase_spec_nil.
  - unfold send_recipient.
    apply (fatal_line_phase SendRecipient (recipient_line info f) s
             (fun resp => i18n2 "Failed to send recipient " f ": "
                                (to_error_string env (err resp)))
             (send_recipients env info l)).
    + reflexivity.
    + discriminate.
    + intros resp. apply i18n2_not_empty.
    + exact IH.
Qed.

Lemma send_options_phase (l : list (string * Option)) (s : RunState) :
  phase_spec env in_ false
    (List.map (fun no => (SendOption (fst no),
                          send_option_line (fst no) (option_arg (snd no)))) l)
    s (send_options env l s).
Proof.
  revert s. induction l as [|[name o] l IH]; intros s;
    cbn [send_options List.map fst snd].
  - apply phase_spec_nil.
  - unfold send_option. fold (option_arg o).
    pose proof (transact_facts (SendOption name)
                  (send_option_line name (option_arg o)) s) as Hfacts.
    cbv zeta in Hfacts. cbn [reply_for] in Hfacts.
    destruct (my_assuan_transact env (SendOption name) _ no_inquire_cb s)
      as [resp s1].
    cbn [fst snd] in Hfacts.
    destruct Hfacts as (e & Hout & Htr & He1 & He2 & _ & _ & Hans).
    assert (Hgo : phase_spec env in_ false
                    ((SendOption name, send_option_line name (option_arg o))
                     :: List.map (fun no => (SendOption (fst no),
                                   send_option_line (fst no) (option_arg (snd no)))) l)
                    s (send_options env l s1)).
    { apply (phase_spec_cons _ _ s s1 e); auto; discriminate. }
    destruct (negb (err resp =? 0)); [|exact Hgo].
    destruct (isCritical o); [|exact Hgo].
    apply (phase_spec_leave _ _ s s1 e); auto; try discriminate;
      apply i18n2_not_empty.
Qed.

Lemma send_window_id_phase (s : RunState) :
  phase_spec env in_ false
    (if negb (parentWId in_ =? 0)
     then [(WindowId, send_option_line "window-id"
                        (Some (asprintf_lx (parentWId in_))))]
     else [])
    s (send_window_id env in_ s).
Proof.
  unfold send_window_id. destruct (negb (parentWId in_ =? 0));
    [|apply phase_spec_nil].
  unfold send_option.
  pose proof (transact_facts WindowId
                (send_option_line "window-id" (Some (asprintf_lx (parentWId in_))))
                s) as Hfacts.
  cbv zeta in Hfacts. cbn [reply_for] in Hfacts.
  destruct (my_assuan_transact env WindowId _ no_inquire_cb s) as [resp s1].
  cbn [fst snd] in Hfacts.
  destruct Hfacts as (e & Hout & Htr & He1 & He2 & _ & _ & Hans).
  apply (phase_spec_cons _ _ s s1 e); auto; try discriminate;
    apply phase_spec_nil.
Qed.

Lemma getinfo_pid_phase (s : RunState) :
  phase_spec env in_ false [(GetInfoPid, "GETINFO pid")] s (getinfo_pid env s).
Proof.
  unfold getinfo_pid.
  pose proof (transact_facts GetInfoPid "GETINFO pid" (set_serverPid (-1) s))
    as Hfacts.
  cbv zeta in Hfacts. cbn [reply_for] in Hfacts.
  destruct (my_assuan_transact env GetInfoPid "GETINFO pid" no_inquire_cb
              (set_serverPid (-1) s)) as [resp s1].
  cbn [fst snd] in Hfacts.
  destruct Hfacts as (e & Hout & Htr & He1 & He2 & _ & _ & Hans).
  set (s2 := set_serverPid _ s1).
  assert (Hout2 : serverLocation (out s2) = serverLocation (out s)
                  /\ data (out s2) = data (out s)
                  /\ errorString (out s2) = errorString (out s)
                  /\ canceled (out s2) = canceled (out s)).
  { unfold s2. cbn. rewrite Hout. cbn. repeat split. }
  destruct Hout2 as (L2 & D2 & _).
  assert (Htr2 : trace s2 = (trace s ++ [e])%list) by exact Htr.
  match goal with
  | |- context [if ?b then _ else _] => destruct b
  end.
  - exists [e]. cbn [final]. split; [exact Htr2|]. split; [exact Hans|].
    split; [exact L2|]. split.
    + intros _. split; [exact D2|]. constructor; [congruence | constructor].
    + split; [|apply not_succeeded_error, i18n2_not_empty].
      exists []. unfold sent. cbn. rewrite He1, He2. reflexivity.
  - exists [e]. cbn [final]. split; [exact Htr2|]. split; [exact Hans|].
    split; [exact L2|]. split.
    + intros _. split; [exact D2|]. constructor; [congruence | constructor].
    + unfold sent. cbn. rewrite He1, He2. reflexivity.
Qed.

(** The main command: what it leaves in [data] is what the peer sent
    as data lines, kept also when the command fails or is canceled. *)
Lemma send_command_phase (s : RunState) :
  phase_spec env in_ true [(MainCommand, command in_)] s (send_command env in_ s)
  /\ exists e,
       trace (final (send_command env in_ s)) = (trace s ++ [e])%list
       /\ step e = MainCommand
       /\ data (out (final (send_command env in_ s)))
          = fold_left command_data_cb (chunks (response e)) (data (out s)).
Proof.
  unfold send_command.
  pose proof (transact_facts MainCommand (command in_) s) as Hfacts.
  cbv zeta in Hfacts. cbn [reply_for] in Hfacts.
  destruct (my_assuan_transact env MainCommand (command in_)
              (command_inquire_cb (inquireData in_)) s) as [resp s1].
  cbn [fst snd] in Hfacts.
  destruct Hfacts as (e & Hout & Htr & He1 & He2 & He3 & _ & Hans).
  set (s2 := set_data _ s1).
  assert (Hs2 : serverLocation (out s2) = serverLocation (out s)
                /\ data (out s2)
                   = fold_left command_data_cb (chunks (response e)) (data (out s))).
  { unfold s2. cbn. rewrite Hout, He3. split; reflexivity. }
  destruct Hs2 as [L2 D2].
  assert (Hsent : sent [e] = [(MainCommand, command in_)]).
  { unfold sent. cbn. rewrite He1, He2. reflexivity. }
  destruct (negb (err resp =? 0)).
  - destruct (gpg_err_code (err resp) =? GPG_ERR_CANCELED); cbn [final].
    + split; [|exists e; split; [exact Htr|split; [exact He1 | exact D2]]].
      exists [e]. cbn [final]. split; [exact Htr|]. split; [exact Hans|].
      split; [exact L2|]. split; [discriminate|]. split.
      * exists []. rewrite Hsent. reflexivity.
      * intros [_ H]. cbn in H. discriminate.
    + split; [|exists e; split; [exact Htr|split; [exact He1 | exact D2]]].
      exists [e]. cbn [final]. split; [exact Htr|]. split; [exact Hans|].
      split; [exact L2|]. split; [discriminate|].
      split; [|apply not_succeeded_error, i18n2_not_empty].
      exists []. rewrite Hsent. reflexivity.
  - cbn [final].
    split; [|exists e; split; [exact Htr|split; [exact He1 | exact D2]]].
    exists [e]. cbn [final]. split; [exact Htr|]. split; [exact Hans|].
    split; [exact L2|]. split; [discriminate | exact Hsent].
Qed.

End RunOrder.

Section RunWhole.

Import Command.

Variable env : Env.

Lemma connect_retry_spec (name : string) (n i : nat) (e : Z) :
  connect_retry env name n i e = 0
  <-> e = 0 \/ exists k, (i < k <= i + n)%nat /\ assuan_socket_connect env k name = 0.
Proof.
  revert i e. induction n as [|n IH]; intros i e; cbn [connect_retry].
  - split; [auto|]. intros [H|(k & Hk & _)]; [exact H | lia].
  - destruct (Z.eqb_spec e 0) as [He|He].
    + split; auto.
    + rewrite IH. split.
      * intros [H|(k & Hk & H)]; right.
        -- exists (S i). split; [lia | exact H].
        -- exists k. split; [lia | exact H].
      * intros [H|(k & Hk & H)]; [contradiction|].
        destruct (Nat.eq_dec k (S i)) as [->|Hne]; [left; exact H|].
        right. exists k. split; [lia | exact H].
Qed.

(** The connection phase of [run()]: when it succeeds and what it
    leaves behind. *)
Lemma connect_spec (s : RunState) :
  let name := resolved_location env s in
  ((exists s', connect env s = Continue s')
   <-> name <> EmptyString /\ assuan_new env = 0 /\ can_connect env name)
  /\ trace (final (connect env s)) = trace s
  /\ data (out (final (connect env s))) = data (out s)
  /\ serverLocation (out (final (connect env s))) = name
  /\ (forall s', connect env s = Leave s' -> errorString (out s') <> EmptyString).
Proof.
  intros name. unfold connect. fold (resolved_location env s).
  set (s0 := if String.eqb (serverLocation (out s)) EmptyString
             then set_serverLocation (default_socket_name env) s else s).
  assert (Hs0 : serverLocation (out s0) = name /\ trace s0 = trace s
                /\ data (out s0) = data (out s)).
  { unfold s0, name, resolved_location.
    destruct (String.eqb (serverLocation (out s)) EmptyString);
      repeat split. }
  destruct Hs0 as (Hname & Htr & Hdata). rewrite Hname.
  destruct (String.eqb_spec name EmptyString) as [Hempty|Hne].
  { cbn [final]. split; [|repeat split; try assumption].
    - split; [intros [s' H]; discriminate | intros [H _]; contradiction].
    - intros s' H. injection H as <-. discriminate. }
  destruct (Z.eqb_spec (assuan_new env) 0) as [Hnew|Hnew]; cbn [negb].
  2:{ cbn [final]. split; [|repeat split; try assumption].
      - split; [intros [s' H]; discriminate | intros (_ & H & _); contradiction].
      - intros s' H. injection H as <-. apply i18n2_not_empty. }
  assert (Hend : forall e,
    let f := if negb (e =? 0)
             then Leave (set_errorString
                           (i18n2 "Could not connect to Kleopatra UI server at "
                                  name ": " (to_error_string env e)) s0)
             else Continue s0 in
    ((exists s', f = Continue s') <-> e = 0)
    /\ trace (final f) = trace s /\ data (out (final f)) = data (out s)
    /\ serverLocation (out (final f)) = name
    /\ (forall s', f = Leave s' -> errorString (out s') <> EmptyString)).
  { intros e. cbv zeta. destruct (Z.eqb_spec e 0) as [He|He]; cbn [negb final].
    - split; [split; eauto|]. repeat split; try assumption.
      intros s' H. discriminate.
    - split; [split; [intros [s' H]; discriminate | contradiction]|].
      repeat split; try assumption.
      intros s' H. injection H as <-. apply i18n2_not_empty. }
  destruct (Z.eqb_spec (assuan_socket_connect env 0 name) 0) as [H0|H0]; cbn [negb].
  - destruct (Hend (assuan_socket_connect env 0 name)) as (Hc & Hrest).
    split; [|exact Hrest].
    rewrite Hc. split; [intros _|intros _; exact H0].
    split; [exact Hne|]. split; [exact Hnew|]. left. exact H0.
  - destruct (String.eqb_spec (start_uiserver env) EmptyString) as [Hst|Hst];
      cbn [negb].
    + destruct (Hend (connect_retry env name 20 0 (assuan_socket_connect env 0 name)))
        as (Hc & Hrest).
      split; [|exact Hrest].
      rewrite Hc, connect_retry_spec. split.
      * intros [H|(k & Hk & H)]; [contradiction|].
        split; [exact Hne|]. split; [exact Hnew|]. right. split; [exact Hst|].
        exists k. split; [lia | exact H].
      * intros (_ & _ & [H|(_ & k & Hk & H)]); [contradiction|].
        right. exists k. split; [lia | exact H].
    + cbn [final]. split; [|repeat split; try assumption].
      * split; [intros [s' H]; discriminate|].
        intros (_ & _ & [H|(H & _)]); contradiction.
      * intros s' H. injection H as <-. exact Hst.
Qed.

(** X4.  [run()] gets past the connection phase exactly when the socket
    name is not empty, the context could be allocated, and either the
    first connection attempt succeeds or the server could be spawned and
    one of at most twenty further attempts succeeds.  The phase sends no
    line, and when it gives up it leaves an error string. *)
Theorem connect_bounded_retry (s : RunState) :
  let name := resolved_location env s in
  ((exists s', connect env s = Continue s')
   <-> name <> EmptyString /\ assuan_new env = 0 /\ can_connect env name)
  /\ trace (final (connect env s)) = trace s
  /\ data (out (final (connect env s))) = data (out s)
  /\ serverLocation (out (final (connect env s))) = name
  /\ (forall s', connect env s = Leave s' -> errorString (out s') <> EmptyString).
Proof.
  intros name. unfold name. clear name.
  destruct (connect_spec s) as (Hiff & Htrace & Hdata & Hloc & Hleave).
  split; [exact Hiff|]. split; [exact Htrace|]. split; [exact Hdata|].
  split; [exact Hloc | exact Hleave].
Qed.

End RunWhole.

Section RunPlan.

Import Command.

Variable env : Env.
Variable in_ : Inputs.

(** The steps of [run()] after the test for an empty command. *)
Lemma command_steps_phase (s : RunState) :
  phase_spec env in_ true (command_plan in_) s
    (andThen (send_window_id env in_ s) (fun s =>
     andThen (send_options env (options_in_order (options in_)) s) (fun s =>
     andThen (send_files env (filePaths in_) s) (fun s =>
     andThen (send_senders env (areSendersInformative in_) (senders in_) s) (fun s =>
     andThen (send_recipients env (areRecipientsInformative in_) (recipients in_) s)
       (fun s => send_command env in_ s)))))).
Proof.
  unfold command_plan.
  apply (phase_spec_andThen env in_ false true); [apply send_window_id_phase|].
  intros s1 _.
  apply (phase_spec_andThen env in_ false true); [apply send_options_phase|].
  intros s2 _.
  apply (phase_spec_andThen env in_ false true); [apply send_files_phase|].
  intros s3 _.
  apply (phase_spec_andThen env in_ false true); [apply send_senders_phase|].
  intros s4 _.
  apply (phase_spec_andThen env in_ false true); [apply send_recipients_phase|].
  intros s5 _. apply send_command_phase.
Qed.

Lemma command_chunks_app (tr1 tr2 : list Exchange) :
  command_chunks (tr1 ++ tr2) = (command_chunks tr1 ++ command_chunks tr2)%list.
Proof. unfold command_chunks. apply flat_map_app. Qed.

Lemma command_chunks_none (tr : list Exchange) :
  Forall (fun e => step e <> MainCommand) tr -> command_chunks tr = [].
Proof.
  induction 1 as [|e tr He _ IH]; [reflexivity|].
  cbn [command_chunks flat_map]. fold (command_chunks tr). rewrite IH.
  destruct (step e); try reflexivity. contradiction.
Qed.

Lemma data_ok_phase (l : list (Step * string)) (s : RunState) (f : Flow) :
  phase_spec env in_ false l s f -> data_ok s -> data_ok (final f).
Proof.
  intros (x & Htr & _ & _ & Hdata & _) Hok. destruct (Hdata eq_refl) as [D F].
  unfold data_ok in *. rewrite D, Htr, command_chunks_app.
  rewrite (command_chunks_none x F), app_nil_r. exact Hok.
Qed.

Lemma data_ok_command (s : RunState) :
  data_ok s -> data_ok (final (send_command env in_ s)).
Proof.
  intros Hok. destruct (send_command_phase env in_ s) as [_ (e & Htr & He & D)].
  unfold data_ok in *. rewrite D, Htr, command_chunks_app, fold_left_app.
  rewrite <- Hok. cbn [command_chunks flat_map]. rewrite He, app_nil_r.
  reflexivity.
Qed.

Lemma data_ok_andThen (f : Flow) (k : RunState -> Flow) :
  data_ok (final f) ->
  (forall s, data_ok s -> data_ok (final (k s))) ->
  data_ok (final (andThen f k)).
Proof.
  intros Hf Hk. destruct f as [s|s]; cbn [andThen final] in *; auto.
Qed.

Lemma command_steps_data (s : RunState) :
  data_ok s ->
  data_ok (final
    (andThen (send_window_id env in_ s) (fun s =>
     andThen (send_options env (options_in_order (options in_)) s) (fun s =>
     andThen (send_files env (filePaths in_) s) (fun s =>
     andThen (send_senders env (areSendersInformative in_) (senders in_) s) (fun s =>
     andThen (send_recipients env (areRecipientsInformative in_) (recipients in_) s)
       (fun s => send_command env in_ s))))))).
Proof.
  intros H0.
  apply data_ok_andThen;
    [exact (data_ok_phase _ _ _ (send_window_id_phase env in_ s) H0)|].
  intros s1 H1. apply data_ok_andThen;
    [exact (data_ok_phase _ _ _ (send_options_phase env in_ _ s1) H1)|].
  intros s2 H2. apply data_ok_andThen;
    [exact (data_ok_phase _ _ _ (send_files_phase env in_ _ s2) H2)|].
  intros s3 H3. apply data_ok_andThen;
    [exact (data_ok_phase _ _ _ (send_senders_phase env in_ _ _ s3) H3)|].
  intros s4 H4. apply data_ok_andThen;
    [exact (data_ok_phase _ _ _ (send_recipients_phase env in_ _ _ s4) H4)|].
  intros s5 H5. apply data_ok_command. exact H5.
Qed.

(** The state at [leave], whatever happened. *)
Lemma run_flow_facts :
  let s := final (run_flow env in_) in
  (exists rest, plan in_ = (sent (trace s) ++ rest)%list)
  /\ (succeeded (out s) -> sent (trace s) = plan in_)
  /\ answers_ok env in_ (trace s)
  /\ data_ok s
  /\ serverLocation (out s) = default_socket_name env.
Proof.
  cbv zeta. unfold run_flow.
  set (s0 := set_canceled false (MakeRunState Outputs_default [])).
  destruct (connect_spec env s0) as (_ & Htr0 & Hd0 & Hl0 & Hleave0).
  cbv zeta in Hl0. change (resolved_location env s0) with (default_socket_name env) in Hl0.
  destruct (connect env s0) as [s1|s1] eqn:E1; cbn [andThen final] in *.
  2:{ rewrite Htr0. cbn. split; [eexists; reflexivity|].
      split; [|split; [apply answers_ok_nil|split; [|exact Hl0]]].
      - intros [H _]. exfalso. exact (Hleave0 s1 eq_refl H).
      - unfold data_ok. rewrite Hd0, Htr0. reflexivity. }
  assert (A1 : answers_ok env in_ (trace s1)) by (rewrite Htr0; apply answers_ok_nil).
  assert (D1 : data_ok s1) by (unfold data_ok; rewrite Hd0, Htr0; reflexivity).
  destruct (getinfo_pid_phase env in_ s1) as (x2 & Htr2 & Hans2 & Hl2 & Hdata2 & Hsent2).
  pose proof (data_ok_phase _ _ _ (getinfo_pid_phase env in_ s1) D1) as D2.
  rewrite Htr0 in Htr2. change (trace s0) with (@nil Exchange) in Htr2.
  cbn [app] in Htr2.
  destruct (getinfo_pid env s1) as [s2|s2] eqn:E2; cbn [andThen final] in *.
  2:{ destruct Hsent2 as [(rest & Hrest) Hnot].
      split; [|split; [contradiction|split; [auto|split; [exact D2|congruence]]]].
      rewrite Htr2. unfold plan. exists (rest ++
        (if String.eqb (command in_) EmptyString then [] else command_plan in_))%list.
      rewrite app_assoc, <- Hrest. reflexivity. }
  assert (Hs2 : sent (trace s2) = [(GetInfoPid, "GETINFO pid")]).
  { rewrite Htr2. exact Hsent2. }
  unfold plan.
  destruct (String.eqb (command in_) EmptyString); cbn [final].
  { rewrite Hs2. split; [exists []; reflexivity|].
    split; [reflexivity|]. split; [auto|]. split; [exact D2 | congruence]. }
  pose proof (command_steps_data s2 D2) as D3.
  destruct (command_steps_phase s2) as (x3 & Htr3 & Hans3 & Hl3 & _ & Hsent3).
  match type of Htr3 with
  | trace (final ?f) = _ => set (f3 := f) in *
  end.
  split; [|split; [|split; [auto|split; [exact D3|congruence]]]].
  - rewrite Htr3, sent_app, Hs2. destruct f3 as [s3|s3].
    + rewrite Hsent3. exists []. rewrite app_nil_r. reflexivity.
    + destruct Hsent3 as [(rest & Hrest) _]. exists rest. rewrite Hrest.
      rewrite <- app_assoc. reflexivity.
  - rewrite Htr3, sent_app, Hs2. destruct f3 as [s3|s3]; cbn [final].
    + intros _. rewrite Hsent3. reflexivity.
    + destruct Hsent3 as [_ Hnot]. contradiction.
Qed.

End RunPlan.

(** ** The client exchange: the outcome of [run()] *)

Section RunVerdict.

Import Command.

Lemma getinfo_pid_trace (env : Env) (s : RunState) :
  exists e, trace (final (getinfo_pid env s)) = (trace s ++ [e])%list.
Proof.
  unfold getinfo_pid.
  destruct (my_assuan_transact env GetInfoPid "GETINFO pid" no_inquire_cb
              (set_serverPid (-1) s)) as [resp s1] eqn:E.
  pose proof (transact_spec env GetInfoPid "GETINFO pid" no_inquire_cb
                (set_serverPid (-1) s)) as [_ Htrace].
  rewrite E in Htrace. cbn [fst snd] in Htrace.
  eexists. destruct (_ || _); cbn [final set_errorString set_serverPid trace];
    exact Htrace.
Qed.

(** [run()] sends its first line exactly when the connection phase gets
    through; otherwise it sends nothing and leaves an error string. *)
Lemma run_flow_connection (env : Env) (in_ : Inputs) :
  (connects env
   /\ exists e rest, trace (final (run_flow env in_)) = e :: rest)
  \/ (~ connects env
      /\ trace (final (run_flow env in_)) = []
      /\ errorString (out (final (run_flow env in_))) <> EmptyString).
Proof.
  unfold run_flow.
  set (s0 := set_canceled false (MakeRunState Outputs_default [])).
  destruct (connect_spec env s0) as (Hiff & Htrace & _ & _ & Hleave).
  change (resolved_location env s0) with (default_socket_name env) in Hiff.
  fold (connects env) in Hiff.
  destruct (connect env s0) as [s1|s1] eqn:E1; cbn [andThen final] in *.
  - left. split; [apply Hiff; eauto|].
    destruct (getinfo_pid_trace env s1) as (e & He).
    rewrite Htrace in He. cbn [s0 set_canceled trace app] in He.
    destruct (getinfo_pid env s1) as [s2|s2] eqn:E2; cbn [andThen final] in *;
      [|eauto].
    destruct (String.eqb (command in_) EmptyString); cbn [final]; [eauto|].
    destruct (command_steps_phase env in_ s2) as (extra & Hextra & _).
    rewrite Hextra, He. cbn [app]. eauto.
  - right. split; [|split].
    + intros Hc. apply Hiff in Hc as [s' Hs']. discriminate.
    + exact Htrace.
    + apply Hleave. reflexivity.
Qed.

Lemma plan_last (in_ : Inputs) :
  exists l st line_,
    plan in_ = (l ++ [(st, line_)])%list /\ (st = GetInfoPid \/ st = MainCommand).
Proof.
  unfold plan. destruct (String.eqb (command in_) EmptyString).
  - exists [], GetInfoPid, "GETINFO pid". split; [reflexivity | left; reflexivity].
  - unfold command_plan. rewrite !app_assoc, app_comm_cons.
    eexists _, MainCommand, _. split; [reflexivity | right; reflexivity].
Qed.

Lemma ignored_not_fatal (env : Env) (in_ : Inputs) (e : Exchange) :
  ignored_failure in_ e -> ~ fatal_failure env in_ e.
Proof.
  unfold ignored_failure, fatal_failure. intros [_ H].
  destruct (step e); try contradiction.
  - intros [].
  - destruct H as (o & Ho & Hc). intros [_ (o' & Ho' & Hc')].
    rewrite Ho in Ho'. injection Ho' as <-. congruence.
Qed.

(** C5, as amended.  [run()] ends in exactly one of three states:
    success, canceled (flag set, error string empty, so [error()] is
    false) or failed (error string not empty, flag clear).  It is
    canceled exactly when the last line sent is the main command and
    its answer carries the status "canceled".  It is failed exactly
    when the connection phase does not get through (no line is sent
    then) or the last line sent met a fatal failure other than that (of
    [GETINFO pid], a critical option, a file, a sender, a recipient or
    the main command, whatever the status code).  It succeeds exactly
    when the connection phase gets through and no exchange is a fatal
    failure, and then every line of the protocol was sent: an error
    status answering the [window-id] option or an option that is not
    critical is not a fatal failure and is always followed by the next
    line.  No line is sent after a fatal failure. *)
Theorem run_outcome (env : Env) (c : Command.t) :
  let c' := fst (run env c) in
  let tr := snd (run env c) in
  let o := outputs c' in
  let in_ := inputs c in
  (succeeded o \/ was_canceled o \/ failed o)
  /\ (~ (succeeded o /\ was_canceled o)
      /\ ~ (succeeded o /\ failed o)
      /\ ~ (was_canceled o /\ failed o))
  /\ (was_canceled o <-> exists pre e, tr = (pre ++ [e])%list /\ canceled_answer e)
  /\ (was_canceled o -> error c' = false /\ wasCanceled c' = true)
  /\ (failed o
      <-> (~ connects env /\ tr = [])
          \/ exists pre e, tr = (pre ++ [e])%list
                           /\ fatal_failure env in_ e /\ ~ canceled_answer e)
  /\ (failed o -> error c' = true /\ wasCanceled c' = false)
  /\ (~ connects env -> failed o /\ tr = [])
  /\ (forall e, In e tr -> fatal_failure env in_ e ->
                ~ canceled_answer e -> failed o)
  /\ (succeeded o <-> connects env /\ clean env in_ tr)
  /\ (succeeded o -> sent tr = plan in_)
  /\ (forall pre e post,
        tr = (pre ++ e :: post)%list -> ignored_failure in_ e ->
        ~ fatal_failure env in_ e /\ post <> [])
  /\ short_circuited env in_ tr.
Proof.
  intros c' tr o in_.
  pose proof (run_flow_left env in_) as Hleft.
  pose proof (run_flow_facts env in_) as (_ & Hplan & _).
  pose proof (run_flow_connection env in_) as Hconn.
  unfold left_state in Hleft. cbn zeta in Hplan.
  change (out (final (run_flow env in_))) with o in Hleft, Hplan, Hconn.
  change (trace (final (run_flow env in_))) with tr in Hleft, Hplan, Hconn.
  pose proof (outcomes_exclusive o) as (Hx1 & Hx2 & Hx3).
  assert (Hmain_fatal : forall e, canceled_answer e -> fatal_failure env in_ e).
  { intros e (Hstep & Herr & _). unfold fatal_failure. rewrite Hstep. exact Herr. }
  assert (Hlast : forall pre e, tr = (pre ++ [e])%list -> In e tr).
  { intros pre e ->. apply in_or_app. right. left. reflexivity. }
  assert (Hnonempty : connects env -> tr <> []).
  { intros Hc. destruct Hconn as [(_ & e & rest & ->)|(Hn & _)];
      [discriminate | contradiction]. }
  assert (Hunconnected : ~ connects env -> failed o /\ tr = []).
  { intros Hn. destruct Hconn as [(Hc & _)|(_ & Hnil & Herr)]; [contradiction|].
    split; [|exact Hnil].
    destruct Hleft as [[[H _] _]|[[H _]|[[H _] _]]]; [contradiction | exact H | contradiction]. }
  assert (Hfatal_failed : forall e, In e tr -> fatal_failure env in_ e ->
                                    ~ canceled_answer e -> failed o).
  { intros e Hin Hfatal Hnot.
    destruct Hleft as [[_ H]|[[Hf _]|[_ H]]]; [|exact Hf|].
    - exfalso. exact (clean_no_fatal _ _ _ e H Hin Hfatal).
    - exfalso. destruct H as (pre & e' & Hsplit & Hclean & Hans).
      rewrite Hsplit in Hin. apply in_app_or in Hin as [Hin|[<-|[]]].
      + exact (clean_no_fatal _ _ _ e Hclean Hin Hfatal).
      + contradiction. }
  assert (Hlast_fatal_not_clean :
            forall pre e, tr = (pre ++ [e])%list -> fatal_failure env in_ e ->
                          ~ clean env in_ tr).
  { intros pre e Hsplit Hfatal Hclean.
    exact (clean_no_fatal _ _ _ e Hclean (Hlast pre e Hsplit) Hfatal). }
  split; [|split; [|split; [|split; [|split; [|split; [|split; [|split;
    [|split; [|split; [|split]]]]]]]]]].
  - destruct Hleft as [[H _]|[[H _]|[H _]]]; auto.
  - split; [exact Hx1 | split; [exact Hx2 | exact Hx3]].
  - split.
    + intros Hcan. destruct Hleft as [[H _]|[[H _]|[_ H]]].
      * exfalso. apply Hx1. auto.
      * exfalso. apply Hx3. auto.
      * destruct H as (pre & e & Hsplit & _ & Hans). exists pre, e. auto.
    + intros (pre & e & Hsplit & Hans).
      destruct Hleft as [[_ H]|[[_ H]|[H _]]]; [| |exact H].
      * exfalso. apply (Hlast_fatal_not_clean pre e Hsplit); auto.
      * exfalso. destruct H as [H|(pre' & e' & Hsplit' & _ & _ & Hnot)].
        -- rewrite H in Hsplit. destruct pre; discriminate.
        -- rewrite Hsplit in Hsplit'. apply app_inj_tail in Hsplit' as [_ ->].
           contradiction.
  - intros [Herr Hcan]. split; [|exact Hcan].
    unfold error. fold o. rewrite Herr. reflexivity.
  - split.
    + intros Hf. destruct Hleft as [[H _]|[[_ H]|[H _]]].
      * exfalso. apply Hx2. auto.
      * destruct H as [Hnil|(pre & e & Hsplit & _ & Hfatal & Hnot)].
        -- left. split; [|exact Hnil]. intros Hc. exact (Hnonempty Hc Hnil).
        -- right. exists pre, e. auto.
      * exfalso. apply Hx3. auto.
    + intros [[Hn _]|(pre & e & Hsplit & Hfatal & Hnot)].
      * apply Hunconnected. exact Hn.
      * apply (Hfatal_failed e); auto. exact (Hlast pre e Hsplit).
  - intros [Herr Hcan]. split; [|exact Hcan].
    apply error_iff_errorString. exact Herr.
  - exact Hunconnected.
  - exact Hfatal_failed.
  - split.
    + intros Hs. split.
      * destruct Hconn as [(Hc & _)|(_ & _ & Herr)]; [exact Hc|].
        destruct Hs as [Hs _]. contradiction.
      * destruct Hleft as [[_ H]|[[H _]|[H _]]]; [exact H| |].
        -- exfalso. apply Hx2. auto.
        -- exfalso. apply Hx1. auto.
    + intros [Hc Hclean].
      destruct Hleft as [[H _]|[[_ H]|[_ H]]]; [exact H| |].
      * exfalso. destruct H as [Hnil|(pre & e & Hsplit & _ & Hfatal & _)].
        -- exact (Hnonempty Hc Hnil).
        -- exact (Hlast_fatal_not_clean pre e Hsplit Hfatal Hclean).
      * exfalso. destruct H as (pre & e & Hsplit & _ & Hans).
        exact (Hlast_fatal_not_clean pre e Hsplit (Hmain_fatal e Hans) Hclean).
  - exact Hplan.
  - intros pre e post Hsplit Hign.
    pose proof (ignored_not_fatal env in_ e Hign) as Hnf.
    split; [exact Hnf|]. intros ->.
    assert (Hstep : step e <> GetInfoPid /\ step e <> MainCommand).
    { destruct Hign as [_ H]. destruct (step e); try contradiction;
        split; discriminate. }
    destruct Hleft as [[Hs _]|[[_ H]|[_ H]]].
    + destruct (plan_last in_) as (l & st & line_ & Hpl & Hst).
      pose proof (Hplan Hs) as Hsent. rewrite Hsplit, Hpl in Hsent.
      unfold sent in Hsent. rewrite map_app in Hsent. cbn [List.map] in Hsent.
      apply app_inj_tail in Hsent as [_ Hsent]. injection Hsent as Hsent _.
      destruct Hst as [-> | ->]; tauto.
    + destruct H as [Hnil|(pre' & e' & Hsplit' & _ & Hfatal & _)].
      * rewrite Hnil in Hsplit. destruct pre; discriminate.
      * rewrite Hsplit in Hsplit'. apply app_inj_tail in Hsplit' as [_ ->].
        contradiction.
    + destruct H as (pre' & e' & Hsplit' & _ & Hans).
      rewrite Hsplit in Hsplit'. apply app_inj_tail in Hsplit' as [_ ->].
      destruct Hans as [Hmain _]. tauto.
  - destruct Hleft as [[_ H]|[[_ [H|H]]|[_ H]]].
    + apply clean_short_circuited. exact H.
    + rewrite H. intros pre e post Hsplit. destruct pre; discriminate.
    + destruct H as (pre & e & -> & Hclean & _).
      apply snoc_short_circuited. exact Hclean.
    + destruct H as (pre & e & -> & Hclean & _).
      apply snoc_short_circuited. exact Hclean.
Qed.

Lemma unreachable_env_does_not_connect : ~ connects Sample.unreachable_env.
Proof.
  intros (_ & _ & [H|(_ & k & _ & H)]); discriminate.
Qed.

Lemma run_outcome_witness :
  (was_canceled
     (outputs (fst (run Sample.canceling_main_env Sample.decrypt_command)))
   /\ error (fst (run Sample.canceling_main_env Sample.decrypt_command)) = false
   /\ wasCanceled (fst (run Sample.canceling_main_env Sample.decrypt_command)) = true)
  /\ (~ connects Sample.unreachable_env
      /\ failed (outputs (fst (run Sample.unreachable_env Sample.decrypt_command)))
      /\ snd (run Sample.unreachable_env Sample.decrypt_command) = []
      /\ errorString (outputs (fst (run Sample.unreachable_env Sample.decrypt_command)))
         = "Could not connect to Kleopatra UI server at /run/S.uiserver: Connection refused")
  /\ (succeeded
        (outputs (fst (run Sample.option_rejecting_env Sample.window_command)))
      /\ sent (snd (run Sample.option_rejecting_env Sample.window_command))
         = plan (inputs Sample.window_command)
      /\ List.map (fun e => (line e, err (response e)))
           (snd (run Sample.option_rejecting_env Sample.window_command))
         = [("GETINFO pid", 0); ("OPTION window-id=ff", 5);
            ("OPTION mode=quick", 5); ("FILE a+b", 0); ("DECRYPT_FILES", 0)]).
Proof.
  split; [|split].
  - assert (H : was_canceled
                  (outputs (fst (run Sample.canceling_main_env
                                   Sample.decrypt_command)))).
    { split; reflexivity. }
    split; [exact H|].
    exact (proj1 (proj2 (proj2 (proj2 (run_outcome Sample.canceling_main_env
                                         Sample.decrypt_command)))) H).
  - split; [exact unreachable_env_does_not_connect|].
    destruct (proj1 (proj2 (proj2 (proj2 (proj2 (proj2 (proj2
                (run_outcome Sample.unreachable_env Sample.decrypt_command)))))))
                unreachable_env_does_not_connect) as [Hf Hnil].
    split; [exact Hf|]. split; [exact Hnil | reflexivity].
  - assert (H : succeeded
                  (outputs (fst (run Sample.option_rejecting_env
                                   Sample.window_command)))).
    { split; reflexivity. }
    split; [exact H|]. split; [|reflexivity].
    exact (proj1 (proj2 (proj2 (proj2 (proj2 (proj2 (proj2 (proj2 (proj2 (proj2
             (run_outcome Sample.option_rejecting_env
                Sample.window_command)))))))))) H).
Defined.

(** C5 as stated fails when the status "canceled" answers a line other
    than the main command: here the [FILE] line.  The flag stays clear
    and the error string is set. *)
Lemma canceled_file_answer_is_an_error :
  let '(c, tr) := run Sample.canceling_env Sample.decrypt_command in
  (exists e, In e tr /\ line e = "FILE a+b"
             /\ gpg_err_code (err (response e)) = GPG_ERR_CANCELED)
  /\ canceled (outputs c) = false
  /\ errorString (outputs c) = "Failed to send file path a b: Operation cancelled"
  /\ error c = true
  /\ List.map line tr = ["GETINFO pid"; "FILE a+b"].
Proof.
  vm_compute. split; [|repeat split].
  eexists. split; [right; left; reflexivity|]. split; reflexivity.
Qed.

End RunVerdict.

Section RunTheorems.

Import Command.

Lemma run_trace (env : Env) (c : Command.t) :
  snd (run env c) = trace (final (run_flow env (inputs c)))
  /\ outputs (fst (run env c)) = out (final (run_flow env (inputs c)))
  /\ inputs (fst (run env c)) = inputs c.
Proof. repeat split. Qed.

(** X5.  The lines [run()] sends are always an initial part of the
    fixed sequence [GETINFO pid], the [window-id] option when a parent
    window is set, the options in the order of their names, the files,
    the senders, the recipients and the main command, each rendered by
    its [send_] function; with an empty command the sequence is
    [GETINFO pid] alone.  When [run()] ends in success all of them were
    sent. *)
Theorem run_follows_plan (env : Env) (c : Command.t) :
  (exists rest, plan (inputs c) = (sent (snd (run env c)) ++ rest)%list)
  /\ (succeeded (outputs (fst (run env c))) ->
      sent (snd (run env c)) = plan (inputs c)).
Proof.
  destruct (run_trace env c) as (-> & -> & _).
  destruct (run_flow_facts env (inputs c)) as (H1 & H2 & _).
  split; assumption.
Qed.

Lemma run_replies (env : Env) (c : Command.t) (e : Exchange) :
  In e (snd (run env c)) ->
  replies e
  = List.map (fun what => match step e with
                          | MainCommand => getInquireData what c
                          | _ => None
                          end) (inquiries (response e)).
Proof.
  destruct (run_trace env c) as (-> & _ & _).
  destruct (run_flow_facts env (inputs c)) as (_ & _ & Hans & _).
  intros Hin. apply in_split in Hin as (pre & post & Heq).
  destruct (Hans pre e post Heq) as [_ Hrep]. rewrite Hrep.
  apply map_ext. intros what. unfold reply_for.
  destruct (step e); reflexivity.
Qed.

(** X6.  When the peer inquires during the main command of [run()] it
    is answered with the payload staged under that name, and with
    nothing when no payload is staged; inquiries during any other line
    are never answered.  Each exchange holds the peer's answer to its
    line, given the lines sent before. *)
Theorem run_answers_inquiries (env : Env) (c : Command.t) (e : Exchange) :
  In e (snd (run env c)) ->
  replies e
  = List.map (fun what => match step e with
                          | MainCommand => getInquireData what c
                          | _ => None
                          end) (inquiries (response e))
  /\ exists pre post,
       snd (run env c) = (pre ++ e :: post)%list
       /\ response e = peer env (List.map line pre) (line e).
Proof.
  intros Hin. split; [exact (run_replies env c e Hin)|].
  destruct (run_trace env c) as (-> & _ & _).
  destruct (run_flow_facts env (inputs c)) as (_ & _ & Hans & _).
  apply in_split in Hin as (pre & post & Heq).
  exists pre, post. split; [exact Heq|].
  exact (proj1 (Hans pre e post Heq)).
Qed.

Lemma run_answers_inquiries_witness :
  let tr := snd (run Sample.inquiring_env Sample.staged_command) in
  In (nth 1 tr Sample.no_exchange) tr
  /\ step (nth 1 tr Sample.no_exchange) = SendFile
  /\ inquiries (response (nth 1 tr Sample.no_exchange)) = ["passphrase"]
  /\ replies (nth 1 tr Sample.no_exchange) = [None]
  /\ In (nth 2 tr Sample.no_exchange) tr
  /\ step (nth 2 tr Sample.no_exchange) = MainCommand
  /\ inquiries (response (nth 2 tr Sample.no_exchange)) = ["passphrase"; "pin"]
  /\ replies (nth 2 tr Sample.no_exchange) = [Some "s3cr3t"; None].
Proof.
  intros tr.
  assert (H1 : In (nth 1 tr Sample.no_exchange) tr).
  { vm_compute. right. left. reflexivity. }
  assert (H2 : In (nth 2 tr Sample.no_exchange) tr).
  { vm_compute. right. right. left. reflexivity. }
  split; [exact H1|]. split; [reflexivity|]. split; [reflexivity|].
  split.
  - rewrite (proj1 (run_answers_inquiries Sample.inquiring_env
                      Sample.staged_command _ H1)).
    reflexivity.
  - split; [exact H2|]. split; [reflexivity|]. split; [reflexivity|].
    rewrite (proj1 (run_answers_inquiries Sample.inquiring_env
                      Sample.staged_command _ H2)).
    reflexivity.
Defined.

(** X7.  Whatever was set with [setServerLocation], [run()] works with
    the default socket name and reports it as the server location; the
    data it reports is what the peer sent as data lines in answer to
    the main command, in order (nothing when the main command was not
    sent), also when the command failed or was canceled; the inputs are
    left as they were. *)
Theorem run_outputs (env : Env) (c : Command.t) (location : string) :
  let r := run env (setServerLocation location c) in
  serverLocation (outputs (fst r)) = default_socket_name env
  /\ data (outputs (fst r))
     = fold_left command_data_cb (command_chunks (snd r)) EmptyString
  /\ inputs (fst r) = inputs c
  /\ snd r = snd (run env c).
Proof.
  cbv zeta.
  destruct (run_trace env (setServerLocation location c)) as (-> & -> & ->).
  change (inputs (setServerLocation location c)) with (inputs c).
  destruct (run_flow_facts env (inputs c)) as (_ & _ & _ & Hdata & Hloc).
  split; [exact Hloc|]. split; [exact Hdata|]. split; reflexivity.
Qed.

(** X8.  The option accessors on a name that is not empty: a value set
    is read back with its criticality; [setOption] leaves the option set
    without a value; [unsetOption] removes it; and none of the three
    changes what is read under another name. *)
Theorem option_accessors_round_trip
    (n n' : string) (v : QVariant) (critical : bool) (c : Command.t) :
  n <> EmptyString ->
  (optionValue (Some n) (setOptionValue (Some n) v critical c) = v
   /\ isOptionSet (Some n) (setOptionValue (Some n) v critical c) = true
   /\ isOptionCritical (Some n) (setOptionValue (Some n) v critical c) = critical)
  /\ (optionValue (Some n) (setOption (Some n) critical c) = None
      /\ isOptionSet (Some n) (setOption (Some n) critical c) = true
      /\ isOptionCritical (Some n) (setOption (Some n) critical c) = critical)
  /\ (optionValue (Some n) (unsetOption (Some n) c) = None
      /\ isOptionSet (Some n) (unsetOption (Some n) c) = false
      /\ isOptionCritical (Some n) (unsetOption (Some n) c) = false)
  /\ (n' <> n ->
      forall c', c' = setOptionValue (Some n) v critical c
                 \/ c' = setOption (Some n) critical c
                 \/ c' = unsetOption (Some n) c ->
        optionValue (Some n') c' = optionValue (Some n') c
        /\ isOptionSet (Some n') c' = isOptionSet (Some n') c
        /\ isOptionCritical (Some n') c' = isOptionCritical (Some n') c).
Proof.
  intros Hn. pose proof (optionValue_setOptionValue n v critical c Hn) as Hset.
  apply String.eqb_neq in Hn.
  split; [exact Hset|].
  assert (Hopt : options (inputs (setOption (Some n) critical c))
                 = <[n := MakeOption None false critical]> (options (inputs c))).
  { unfold setOption, isOptionSet, unsetOption. cbn [null_or_empty key]. rewrite Hn.
    destruct (bool_decide (is_Some (options (inputs c) !! n))); cbn.
    - apply insert_delete_eq.
    - reflexivity. }
  assert (Hunset : options (inputs (unsetOption (Some n) c))
                   = delete n (options (inputs c))).
  { unfold unsetOption. cbn [null_or_empty key]. rewrite Hn. reflexivity. }
  assert (Hsetv : options (inputs (setOptionValue (Some n) v critical c))
                  = <[n := MakeOption v true critical]> (options (inputs c))).
  { unfold setOptionValue. cbn [null_or_empty key]. rewrite Hn. reflexivity. }
  split; [|split].
  - unfold optionValue, isOptionSet, isOptionCritical. cbn [null_or_empty key].
    rewrite Hn, Hopt, lookup_insert_eq. cbn. repeat split.
  - unfold optionValue, isOptionSet, isOptionCritical. cbn [null_or_empty key].
    rewrite Hn, Hunset, lookup_delete_eq. repeat split.
  - intros Hne c' Hc'.
    assert (Hlook : options (inputs c') !! n' = options (inputs c) !! n').
    { destruct Hc' as [-> | [-> | ->]].
      - rewrite Hsetv. apply lookup_insert_ne. congruence.
      - rewrite Hopt. apply lookup_insert_ne. congruence.
      - rewrite Hunset. apply lookup_delete_ne. congruence. }
    unfold optionValue, isOptionSet, isOptionCritical.
    destruct (null_or_empty (Some n')); [repeat split|].
    cbn [key]. rewrite Hlook. repeat split.
Qed.

Lemma option_accessors_round_trip_witness :
  "mode" <> EmptyString
  /\ optionValue (Some "mode")
       (setOptionValue (Some "mode") (Some "quick") true Sample.decrypt_command)
     = Some "quick".
Proof.
  split; [discriminate|].
  apply (option_accessors_round_trip "mode" "x" (Some "quick") true
           Sample.decrypt_command).
  discriminate.
Defined.

(** X9.  A payload staged with [setInquireData] is read back by
    [inquireData] and is what [run()] answers to an inquiry of that name
    during the main command; after [unsetInquireData] nothing is staged
    under the name and such an inquiry is answered with nothing.  Other
    names are not affected. *)
Theorem inquire_data_round_trip
    (env : Env) (what what' payload : string) (c : Command.t) :
  getInquireData what (setInquireData what payload c) = Some payload
  /\ isInquireDataSet what (setInquireData what payload c) = true
  /\ getInquireData what (unsetInquireData what c) = None
  /\ isInquireDataSet what (unsetInquireData what c) = false
  /\ (what' <> what ->
      getInquireData what' (setInquireData what payload c) = getInquireData what' c
      /\ getInquireData what' (unsetInquireData what c) = getInquireData what' c)
  /\ (forall e,
        In e (snd (run env (setInquireData what payload c))) ->
        step e = MainCommand ->
        forall i, nth_error (inquiries (response e)) i = Some what ->
                  nth_error (replies e) i = Some (Some payload))
  /\ (forall e,
        In e (snd (run env (unsetInquireData what c))) ->
        step e = MainCommand ->
        forall i, nth_error (inquiries (response e)) i = Some what ->
                  nth_error (replies e) i = Some None).
Proof.
  assert (G1 : getInquireData what (setInquireData what payload c) = Some payload).
  { unfold getInquireData, setInquireData. cbn. apply lookup_insert_eq. }
  assert (G2 : getInquireData what (unsetInquireData what c) = None).
  { unfold getInquireData, unsetInquireData. cbn. apply lookup_delete_eq. }
  split; [exact G1|]. split.
  { unfold isInquireDataSet. fold (getInquireData what (setInquireData what payload c)).
    rewrite G1. apply bool_decide_eq_true. eauto. }
  split; [exact G2|]. split.
  { unfold isInquireDataSet. fold (getInquireData what (unsetInquireData what c)).
    rewrite G2. apply bool_decide_eq_false. intros [x Hx]. discriminate. }
  split.
  { intros Hne. unfold getInquireData, setInquireData, unsetInquireData. cbn.
    split; [apply lookup_insert_ne | apply lookup_delete_ne]; congruence. }
  split.
  - intros e Hin Hstep i Hi.
    rewrite (run_replies env _ e Hin), Hstep.
    rewrite nth_error_map, Hi. cbn. rewrite G1. reflexivity.
  - intros e Hin Hstep i Hi.
    rewrite (run_replies env _ e Hin), Hstep.
    rewrite nth_error_map, Hi. cbn. rewrite G2. reflexivity.
Qed.

End RunTheorems.

(** ** The server: one instance, draining *)

Section ServerLifecycle.

Import UiServer.

Variable doMakeListeningSocket :
  string -> UiServer.t -> gmap string node -> (string + UiServer.t) * gmap string node.

Hypothesis binds : binds_free_path doMakeListeningSocket.

(** A start-up that succeeds leaves the socket of a listening server at
    the path. *)
Lemma makeListeningSocket_started
    (assuan_new : Z) (d d' : UiServer.t) (w w1 : gmap string node) :
  makeListeningSocket doMakeListeningSocket assuan_new d w = (inr d', w1) ->
  listening d' = true
  /\ actualSocketName d' = suggestedSocketName d
  /\ w1 = <[suggestedSocketName d := LiveSocket]> (delete (suggestedSocketName d) w).
Proof.
  unfold makeListeningSocket. set (f := suggestedSocketName d).
  assert (Hfree : forall w0, w0 !! f = None ->
            match doMakeListeningSocket f d w0 with
            | (inl msg, w2) => (inl msg, w2)
            | (inr d1, w2) =>
                (inr (Make (file d1) (connections d1) (suggestedSocketName d1)
                           (suggestedSocketName d1) (listening d1)
                           (cryptoCommandsEnabled d1)), w2)
            end = (inr d', w1) ->
            listening d' = true /\ actualSocketName d' = f
            /\ w1 = <[f := LiveSocket]> w0).
  { intros w0 Hw0. destruct (binds f d w0 Hw0) as (d1 & Hd1 & Hl & Hn).
    rewrite Hd1. intros E. injection E as <- <-. cbn.
    split; [exact Hl|]. split; [exact Hn | reflexivity]. }
  unfold QFile_exists, QFile_remove.
  destruct (w !! f) as [n|] eqn:Hw.
  - rewrite bool_decide_eq_true_2 by eauto.
    destruct (isStaleAssuanSocket assuan_new f w); [|discriminate].
    apply Hfree. apply lookup_delete_eq.
  - rewrite bool_decide_eq_false_2 by (intros [x Hx]; discriminate).
    intros E. destruct (Hfree w Hw E) as (Hl & Hn & Hw1).
    split; [exact Hl|]. split; [exact Hn|].
    rewrite (delete_id w f Hw). exact Hw1.
Qed.

(** X10.  A second instance at the path of a started server.  After a
    start-up that succeeded, the socket of the listening server is at
    the path.  A second instance configured for the same path whose
    assuan context is allocated finds it with its trial connect and
    fails with the message "Detected another running gnupg UI server
    listening at" followed by the path, leaving the file system as it
    is.  A second instance whose context cannot be allocated makes no
    trial connect: it deletes the first server's socket file and binds
    at the path itself. *)
Theorem second_instance_refused_unless_allocation_fails
    (first second : Z) (d1 d1' d2 : UiServer.t) (w w1 : gmap string node) :
  makeListeningSocket doMakeListeningSocket first d1 w = (inr d1', w1) ->
  suggestedSocketName d2 = suggestedSocketName d1 ->
  let fileName := suggestedSocketName d1 in
  listening d1' = true
  /\ w1 !! fileName = Some LiveSocket
  /\ assuan_socket_connect fileName w1 = 0
  /\ (second = 0 ->
      makeListeningSocket doMakeListeningSocket second d2 w1
      = (inl (String.append
                "Detected another running gnupg UI server listening at "
                (String.append fileName ".")), w1))
  /\ (second <> 0 ->
      exists d2',
        makeListeningSocket doMakeListeningSocket second d2 w1
        = (inr d2', <[fileName := LiveSocket]> (delete fileName w1))
        /\ listening d2' = true).
Proof.
  intros Hstart Hsame fileName.
  destruct (makeListeningSocket_started first d1 d1' w w1 Hstart)
    as (Hl & _ & Hw1). fold fileName in Hw1.
  assert (Hlive : w1 !! fileName = Some LiveSocket).
  { rewrite Hw1. apply lookup_insert_eq. }
  assert (Hconn : assuan_socket_connect fileName w1 = 0).
  { unfold assuan_socket_connect. rewrite Hlive. reflexivity. }
  split; [exact Hl|]. split; [exact Hlive|]. split; [exact Hconn|].
  assert (Hexists : QFile_exists fileName w1 = true).
  { unfold QFile_exists. apply bool_decide_eq_true_2. eauto. }
  split.
  - intros ->. unfold makeListeningSocket. rewrite Hsame. fold fileName.
    rewrite Hexists. unfold isStaleAssuanSocket. rewrite Hconn. reflexivity.
  - intros Hsecond.
    destruct (binds fileName d2 (delete fileName w1)) as (d2' & Hd2' & Hl2 & _);
      [apply lookup_delete_eq|].
    unfold makeListeningSocket. rewrite Hsame. fold fileName.
    rewrite Hexists. unfold isStaleAssuanSocket.
    apply Z.eqb_neq in Hsecond. rewrite Hsecond. cbn [negb orb].
    unfold QFile_remove. rewrite Hd2'. eexists. split; [reflexivity | exact Hl2].
Qed.

(** X11.  When the context for the trial connect cannot be allocated,
    [isStaleAssuanSocket] reports the file as stale without connecting:
    start-up then deletes the file at the path and binds there, also
    when a running server listens on it. *)
Theorem allocation_failure_counts_as_stale
    (assuan_new : Z) (d : UiServer.t) (w : gmap string node) :
  assuan_new <> 0 ->
  is_Some (w !! suggestedSocketName d) ->
  isStaleAssuanSocket assuan_new (suggestedSocketName d) w = true
  /\ exists d',
       makeListeningSocket doMakeListeningSocket assuan_new d w
       = (inr d', <[suggestedSocketName d := LiveSocket]>
                    (delete (suggestedSocketName d) w))
       /\ listening d' = true.
Proof.
  intros Hnew Hsome. set (f := suggestedSocketName d) in *.
  assert (Hstale : isStaleAssuanSocket assuan_new f w = true).
  { unfold isStaleAssuanSocket. apply Z.eqb_neq in Hnew. rewrite Hnew. reflexivity. }
  split; [exact Hstale|].
  destruct (binds f d (delete f w)) as (d' & Hd' & Hl & Hn);
    [apply lookup_delete_eq|].
  unfold makeListeningSocket. fold f. unfold QFile_exists.
  rewrite bool_decide_eq_true_2 by exact Hsome.
  rewrite Hstale. unfold QFile_remove. rewrite Hd'.
  eexists. split; [reflexivity|]. exact Hl.
Qed.

End ServerLifecycle.

Lemma second_instance_refused_unless_allocation_fails_witness :
  (exists d1',
     UiServer.makeListeningSocket UiServer.bind_and_listen 0 Sample.server
       Sample.stale_world
     = (inr d1', Sample.live_world))
  /\ UiServer.makeListeningSocket UiServer.bind_and_listen 0 Sample.server
       Sample.live_world
     = (inl "Detected another running gnupg UI server listening at /run/S.uiserver.",
        Sample.live_world)
  /\ exists d2',
       UiServer.makeListeningSocket UiServer.bind_and_listen 12 Sample.server
         Sample.live_world
       = (inr d2', <["/run/S.uiserver" := UiServer.LiveSocket]>
                     (delete "/run/S.uiserver" Sample.live_world))
       /\ UiServer.listening d2' = true.
Proof.
  assert (Hstart : exists d1',
            UiServer.makeListeningSocket UiServer.bind_and_listen 0 Sample.server
              Sample.stale_world
            = (inr d1', Sample.live_world)).
  { eexists. vm_compute. reflexivity. }
  split; [exact Hstart|].
  destruct Hstart as (d1' & Hstart).
  destruct (second_instance_refused_unless_allocation_fails UiServer.bind_and_listen
              bind_and_listen_binds_free_path 0 0 Sample.server d1' Sample.server
              Sample.stale_world Sample.live_world Hstart eq_refl)
    as (_ & _ & _ & Hrefused & _).
  split; [exact (Hrefused eq_refl)|].
  destruct (second_instance_refused_unless_allocation_fails UiServer.bind_and_listen
              bind_and_listen_binds_free_path 0 12 Sample.server d1' Sample.server
              Sample.stale_world Sample.live_world Hstart eq_refl)
    as (_ & _ & _ & _ & Htakes).
  apply Htakes. discriminate.
Defined.

Lemma allocation_failure_counts_as_stale_witness :
  UiServer.binds_free_path UiServer.bind_and_listen
  /\ 12 <> 0
  /\ is_Some (Sample.live_world !! UiServer.suggestedSocketName Sample.server)
  /\ UiServer.isStaleAssuanSocket 12 "/run/S.uiserver" Sample.live_world = true.
Proof.
  split; [exact bind_and_listen_binds_free_path|].
  split; [discriminate|].
  split; [vm_compute; eauto|].
  apply (allocation_failure_counts_as_stale UiServer.bind_and_listen
           bind_and_listen_binds_free_path 12 Sample.server Sample.live_world).
  - discriminate.
  - vm_compute. eauto.
Defined.

Section ServerDraining.

Import UiServer.

Lemma filter_other_In (conn x : Z) (l : list Z) :
  In x (List.filter (fun other => negb (conn =? other)) l)
  <-> In x l /\ x <> conn.
Proof.
  rewrite filter_In, negb_true_iff, Z.eqb_neq. intuition congruence.
Qed.

Lemma nil_iff_no_member (A : Type) (l : list A) :
  l = [] <-> forall x, ~ In x l.
Proof.
  split; [intros -> x []|]. destruct l as [|a l]; [reflexivity|].
  intros H. exfalso. apply (H a). left. reflexivity.
Qed.

(** X12.  Draining after [stop()]: when the socket is closed and every
    live connection reports [closed] once, in any order, each call but
    the last emits nothing and leaves the server out of the stopped
    state; the last call empties the set, and it alone clears the
    session data and emits [stopped]. *)
Theorem draining_emits_stopped_once (conns : list Z) (d : UiServer.t) :
  listening d = false ->
  List.NoDup conns ->
  (forall x, In x (connections d) <-> In x conns) ->
  conns <> [] ->
  snd (closeAll conns d)
  = (repeat [] (length conns - 1) ++ [[sessionDataCleared; stopped]])%list
  /\ connections (fst (closeAll conns d)) = []
  /\ isStopped (fst (closeAll conns d)) = true.
Proof.
  revert d. induction conns as [|conn rest IH]; intros d Hl Hnd Hmem Hne;
    [contradiction|].
  cbn [closeAll].
  destruct (slotConnectionClosed_state conn d) as [Hc1 Hl1].
  pose proof (slotConnectionClosed_signals conn d) as Hsig.
  destruct (slotConnectionClosed conn d) as [d1 emitted] eqn:E.
  cbn [fst snd] in Hc1, Hl1, Hsig.
  apply List.NoDup_cons_iff in Hnd as [Hnotin Hnd].
  assert (Hmem1 : forall x, In x (connections d1) <-> In x rest).
  { intros x. rewrite Hc1, filter_other_In, Hmem. cbn [In]. split.
    - intros [[->|H] Hx]; [contradiction | exact H].
    - intros H. split; [right; exact H|]. intros ->. contradiction. }
  assert (Hstop1 : isStopped d1 = true <-> rest = []).
  { rewrite isStopped_spec, Hl1, Hl, nil_iff_no_member, (nil_iff_no_member _ rest).
    split.
    - intros [H _] x Hx. apply (H x), Hmem1, Hx.
    - intros H. split; [|reflexivity]. intros x Hx. apply (H x), Hmem1, Hx. }
  assert (Hemitted : emitted = if isStopped d1 then [sessionDataCleared; stopped] else []).
  { unfold slotConnectionClosed in E.
    match type of E with
    | (if ?b then _ else _) = _ => destruct b eqn:Eb
    end; injection E as <- <-; rewrite Eb; reflexivity. }
  destruct rest as [|conn2 rest'].
  - cbn [closeAll fst snd repeat length Nat.sub app].
    assert (Hs : isStopped d1 = true) by (apply Hstop1; reflexivity).
    split; [rewrite Hemitted, Hs; reflexivity|]. split; [|exact Hs].
    apply isStopped_spec in Hs as [Hs _]. exact Hs.
  - assert (Hs : isStopped d1 = false).
    { apply not_true_is_false. intros Es.
      apply Hstop1 in Es. discriminate. }
    destruct (IH d1) as (Hsigs & Hconn & Hstopped); try assumption;
      [congruence | discriminate|].
    destruct (closeAll (conn2 :: rest') d1) as [d2 later].
    cbn [fst snd] in *.
    split; [|split; assumption].
    rewrite Hemitted, Hs, Hsigs.
    cbn [length Nat.sub]. rewrite Nat.sub_0_r. reflexivity.
Qed.

Lemma draining_emits_stopped_once_witness :
  listening Sample.draining_server = false
  /\ List.NoDup [12; 11]
  /\ snd (closeAll [12; 11] Sample.draining_server)
     = [[]; [sessionDataCleared; stopped]].
Proof.
  split; [reflexivity|].
  assert (Hnd : List.NoDup [12; 11]).
  { constructor; [intros [H|[]]; discriminate|].
    constructor; [intros []|constructor]. }
  split; [exact Hnd|].
  apply (draining_emits_stopped_once [12; 11] Sample.draining_server).
  - reflexivity.
  - exact Hnd.
  - intros x. cbn. intuition.
  - discriminate.
Defined.

End ServerDraining.

(** ** The server: the command factories *)

Section FactoryFacts.

Import UiServer.

Variable Factory : Type.
Variable less : Factory -> Factory -> bool.

Hypothesis less_asym : forall a b, less a b = true -> less b a = false.
Hypothesis less_trans :
  forall a b c, less a b = true -> less b c = true -> less a c = true.

Lemma bounds_spec (factories : list Factory) (f : Factory) :
  ordered Factory less factories ->
  ((lower_bound Factory less factories f =? upper_bound Factory less factories f)%nat
   = true
   <-> forall e, In e factories -> less e f = true \/ less f e = true).
Proof.
  unfold ordered.
  induction 1 as [|e rest Hrest IH Hall]; cbn [lower_bound upper_bound].
  - split; [intros _ e [] | reflexivity].
  - destruct (less e f) eqn:Hef.
    + rewrite (less_asym _ _ Hef). cbn [negb]. cbn [Nat.eqb]. rewrite IH. split.
      * intros H x [<-|Hx]; [left; exact Hef | apply H, Hx].
      * intros H x Hx. apply H. right. exact Hx.
    + destruct (less f e) eqn:Hfe; cbn [negb Nat.eqb].
      * split; [|reflexivity]. intros _ x [<-|Hx]; [right; exact Hfe|].
        right. apply (less_trans f e x Hfe).
        rewrite Forall_forall in Hall. apply Hall.
        apply list_elem_of_In. exact Hx.
      * split; [discriminate|]. intros H.
        destruct (H e (or_introl eq_refl)); congruence.
Qed.

Lemma inplace_merge_In (factories : list Factory) (f x : Factory) :
  In x (inplace_merge Factory less factories f) <-> x = f \/ In x factories.
Proof.
  induction factories as [|e rest IH]; cbn [inplace_merge].
  - cbn. intuition.
  - destruct (less f e); cbn [In]; [intuition|]. rewrite IH. cbn [In]. intuition.
Qed.

Lemma inplace_merge_ordered (factories : list Factory) (f : Factory) :
  ordered Factory less factories ->
  (forall e, In e factories -> less e f = true \/ less f e = true) ->
  ordered Factory less (inplace_merge Factory less factories f).
Proof.
  unfold ordered.
  induction 1 as [|e rest Hrest IH Hall]; intros Hdistinct; cbn [inplace_merge].
  - repeat constructor.
  - rewrite Forall_forall in Hall.
    destruct (less f e) eqn:Hfe.
    + constructor; [constructor; [exact Hrest | apply Forall_forall; exact Hall]|].
      apply Forall_forall. intros x Hx.
      apply list_elem_of_In in Hx. destruct Hx as [<-|Hx]; [exact Hfe|].
      apply (less_trans f e x Hfe), Hall, list_elem_of_In, Hx.
    + assert (Hef : less e f = true).
      { destruct (Hdistinct e (or_introl eq_refl)); congruence. }
      constructor.
      * apply IH. intros x Hx. apply Hdistinct. right. exact Hx.
      * apply Forall_forall. intros x Hx. apply list_elem_of_In in Hx.
        apply inplace_merge_In in Hx as [->|Hx]; [exact Hef|].
        apply Hall, list_elem_of_In, Hx.
Qed.

Lemma inplace_merge_Permutation (factories : list Factory) (f : Factory) :
  Permutation (inplace_merge Factory less factories f) (f :: factories).
Proof.
  induction factories as [|e rest IH]; cbn [inplace_merge]; [reflexivity|].
  destruct (less f e); [reflexivity|].
  rewrite IH. apply perm_swap.
Qed.

(** X13.  Registering command factories keeps the vector sorted by name
    with no two names equivalent.  A factory is accepted exactly when
    it is not null and no registered factory has an equivalent name;
    then the vector gains just that factory.  A refused registration
    (null, or the name is taken) leaves the vector as it was. *)
Theorem registerCommandFactory_keeps_order
    (cf : option Factory) (factories : list Factory) :
  ordered Factory less factories ->
  let accepted := fst (registerCommandFactory Factory less cf factories) in
  let factories' := snd (registerCommandFactory Factory less cf factories) in
  ordered Factory less factories'
  /\ (accepted = true
      <-> exists f, cf = Some f
                    /\ forall e, In e factories ->
                         less e f = true \/ less f e = true)
  /\ (accepted = true ->
      exists f, cf = Some f /\ Permutation factories' (f :: factories))
  /\ (accepted = false -> factories' = factories).
Proof.
  intros Hord. unfold registerCommandFactory.
  destruct cf as [f|]; cbn zeta.
  - pose proof (bounds_spec factories f Hord) as Hb.
    destruct (_ =? _)%nat; cbn [fst snd].
    + assert (Hd : forall e, In e factories -> less e f = true \/ less f e = true)
        by (apply Hb; reflexivity).
      split; [apply inplace_merge_ordered; assumption|].
      split; [split; [intros _; exists f; split; [reflexivity | exact Hd]
                     | reflexivity]|].
      split; [|discriminate].
      intros _. exists f. split; [reflexivity | apply inplace_merge_Permutation].
    + split; [exact Hord|].
      split; [split; [discriminate|]|split; [discriminate | reflexivity]].
      intros (f' & E & Hd). injection E as <-. apply Hb, Hd.
  - cbn [fst snd]. split; [exact Hord|].
    split; [split; [discriminate | intros (f & E & _); discriminate]|].
    split; [discriminate | reflexivity].
Qed.

End FactoryFacts.

Lemma registerCommandFactory_keeps_order_witness :
  UiServer.ordered Z Z.ltb [1; 3]%Z
  /\ UiServer.ordered Z Z.ltb
       (snd (UiServer.registerCommandFactory Z Z.ltb (Some 2%Z) [1; 3]%Z))
  /\ UiServer.registerCommandFactory Z Z.ltb (Some 2%Z) [1; 3]%Z
     = (true, [1; 2; 3]%Z)
  /\ UiServer.registerCommandFactory Z Z.ltb (Some 3%Z) [1; 3]%Z
     = (false, [1; 3]%Z).
Proof.
  assert (Hord : UiServer.ordered Z Z.ltb [1; 3]%Z).
  { unfold UiServer.ordered. repeat constructor. }
  split; [exact Hord|].
  split; [|split; reflexivity].
  apply (registerCommandFactory_keeps_order Z Z.ltb
           (fun a b H => proj2 (Z.ltb_ge b a) (Z.lt_le_incl a b (proj1 (Z.ltb_lt a b) H)))
           (fun a b c H1 H2 =>
              proj2 (Z.ltb_lt a c)
                (Z.lt_trans a b c (proj1 (Z.ltb_lt a b) H1) (proj1 (Z.ltb_lt b c) H2)))
           (Some 2%Z) [1; 3]%Z Hord).
Defined.

(** ** The ring buffer as a queue *)

Section RingContents.

Import Reader.

Lemma lookup_store (dst src : list ascii) (pos : Z) (i : nat) :
  0 <= pos -> pos + Z.of_nat (length src) <= Z.of_nat (length dst) ->
  store dst pos src !! i
  = if decide (Z.to_nat pos <= i < Z.to_nat pos + length src)%nat
    then src !! (i - Z.to_nat pos)%nat
    else dst !! i.
Proof.
  intros Hpos Hfit. unfold store.
  assert (Hlen : length (firstn (Z.to_nat pos) dst) = Z.to_nat pos).
  { apply firstn_length_le. lia. }
  destruct (decide (i < Z.to_nat pos)%nat) as [Hlt|Hge].
  - rewrite lookup_app_l by (rewrite Hlen; exact Hlt).
    rewrite decide_False by lia.
    change (firstn (Z.to_nat pos) dst) with (take (Z.to_nat pos) dst).
    apply lookup_take_lt. exact Hlt.
  - rewrite lookup_app_r by (rewrite Hlen; lia). rewrite Hlen.
    destruct (decide (i < Z.to_nat pos + length src)%nat) as [Hin|Hout].
    + rewrite decide_True by lia. apply lookup_app_l. lia.
    + rewrite decide_False by lia.
      rewrite lookup_app_r by lia.
      change (skipn (Z.to_nat pos + length src) dst)
        with (drop (Z.to_nat pos + length src) dst).
      rewrite lookup_drop. f_equal. lia.
Qed.

Lemma lookup_fetch (src : list ascii) (pos n : Z) (i : nat) :
  0 <= pos -> 0 <= n ->
  fetch src pos n !! i
  = if decide (i < Z.to_nat n)%nat then src !! (Z.to_nat pos + i)%nat else None.
Proof.
  intros Hpos Hn. unfold fetch.
  change (firstn (Z.to_nat n) (skipn (Z.to_nat pos) src))
    with (take (Z.to_nat n) (drop (Z.to_nat pos) src)).
  destruct (decide (i < Z.to_nat n)%nat) as [Hlt|Hge].
  - rewrite lookup_take_lt by exact Hlt. apply lookup_drop.
  - apply lookup_take_ge. lia.
Qed.

Lemma length_contents (r : Reader.t) :
  length (contents r) = Z.to_nat (bytesInBuffer r).
Proof. unfold contents. rewrite length_map, length_seq. reflexivity. Qed.

Lemma contents_lookup (r : Reader.t) (k : nat) :
  Z.of_nat (length (buffer r)) = sizeof_buffer ->
  contents r !! k
  = if decide (k < Z.to_nat (bytesInBuffer r))%nat
    then buffer r !! Z.to_nat (unread_index r (Z.of_nat k))
    else None.
Proof.
  intros Hlen. unfold contents.
  change (map ?f ?l) with (f <$> l).
  rewrite list_lookup_fmap.
  destruct (decide (k < Z.to_nat (bytesInBuffer r))%nat) as [Hlt|Hge].
  - rewrite lookup_seq_lt by exact Hlt. cbn [fmap option_fmap option_map Nat.add].
    rewrite nth_lookup.
    assert (Hidx : (Z.to_nat (unread_index r (Z.of_nat k)) < length (buffer r))%nat).
    { unfold unread_index. ring_arith. }
    destruct (lookup_lt_is_Some_2 _ _ Hidx) as [x Hx]. rewrite Hx. reflexivity.
  - rewrite lookup_seq_ge by lia. reflexivity.
Qed.

Lemma length_fetch (src : list ascii) (pos n : Z) :
  0 <= pos -> 0 <= n -> pos + n <= Z.of_nat (length src) ->
  length (fetch src pos n) = Z.to_nat n.
Proof.
  intros Hpos Hn Hfit. unfold fetch.
  rewrite firstn_length_le; [reflexivity|]. rewrite length_skipn. lia.
Qed.

(** [Reader::readData] hands out a prefix of the unread bytes and keeps
    the rest. *)
Lemma Reader_readData_contents (r : Reader.t) (maxSize : Z) :
  ptrs_ok r -> Z.of_nat (length (buffer r)) = sizeof_buffer ->
  bufferEmpty r = false -> 0 <= maxSize ->
  contents r
  = (snd (fst (readData r maxSize)) ++ contents (snd (readData r maxSize)))%list.
Proof.
  intros H Hlen Hne Hmax.
  destruct (Reader_readData_spec r maxSize H Hne Hmax)
    as (Hn & Hdata & Hok' & Hbib' & Hw' & Hbuf' & _).
  pose proof (contiguous_le r H Hne) as Hc.
  pose proof (bytesInBuffer_range r H) as Hrange.
  assert (Hrptr' : rptr (snd (readData r maxSize))
                   = u32 (u64 (rptr r + fst (fst (readData r maxSize))) mod sizeof_buffer))
    by reflexivity.
  rewrite Hn in Hrptr'.
  set (n := Z.min maxSize (contiguous r)) in *.
  set (r' := snd (readData r maxSize)) in *.
  assert (Hnc : 0 <= n <= contiguous r) by (unfold n; lia).
  assert (Hcont : rptr r + contiguous r <= sizeof_buffer).
  { unfold contiguous. destruct H as [Hr Hw].
    destruct (Z.ltb_spec (rptr r) (wptr r)); lia. }
  assert (Hdlen : length (snd (fst (readData r maxSize))) = Z.to_nat n).
  { rewrite Hdata. apply length_fetch; destruct H as [Hr Hw]; lia. }
  apply list_eq. intros i.
  rewrite lookup_app, Hdata, lookup_fetch by (destruct H; lia).
  rewrite (contents_lookup r i Hlen).
  rewrite <- Hdata, Hdlen.
  rewrite (contents_lookup r' (i - Z.to_nat n)) by (rewrite Hbuf'; exact Hlen).
  rewrite Hbib', Hbuf'.
  destruct (decide (i < Z.to_nat n)%nat) as [Hlt|Hge].
  - rewrite decide_True by lia.
    assert (Hidx : Z.to_nat (unread_index r (Z.of_nat i)) = (Z.to_nat (rptr r) + i)%nat).
    { unfold unread_index. destruct H as [Hr Hw]. ring_arith. }
    rewrite Hidx.
    assert (Hin : (Z.to_nat (rptr r) + i < length (buffer r))%nat)
      by (destruct H; lia).
    destruct (lookup_lt_is_Some_2 _ _ Hin) as [x Hx]. rewrite Hx. reflexivity.
  - destruct (decide (i < Z.to_nat (bytesInBuffer r))%nat) as [Hin|Hout].
    + rewrite decide_True by lia. f_equal. f_equal.
      unfold unread_index. rewrite Hrptr'. destruct H as [Hr Hw].
      ring_arith.
    + rewrite decide_False by lia. reflexivity.
Qed.

Lemma contents_empty (r : Reader.t) :
  bufferEmpty r = true -> contents r = [].
Proof.
  unfold bufferEmpty. rewrite Z.eqb_eq. intros E.
  apply length_zero_iff_nil. rewrite length_contents, E. reflexivity.
Qed.

(** The pointer reset of [Reader::run] happens on an empty buffer only. *)
Lemma run_prepare_contents (r r1 : Reader.t) (n : Z) :
  ptrs_ok r -> run_prepare r = Some (r1, n) -> contents r1 = contents r.
Proof.
  intros H Hprep.
  destruct (run_prepare_spec r r1 n H Hprep) as (Hok1 & _ & _ & Hbib & _).
  unfold run_prepare in Hprep.
  destruct (cancel r); [discriminate|].
  destruct (negb (error r) && bufferFull r); [discriminate|].
  destruct (negb (negb (eof r) && negb (error r))); [discriminate|].
  injection Hprep as Hr1 _.
  destruct (Z.eqb_spec (rptr r) (wptr r)) as [E|E]; [|subst r1; reflexivity].
  apply (bufferEmpty_iff r H) in E.
  rewrite (contents_empty r E). apply contents_empty.
  unfold bufferEmpty in *. rewrite Hbib. exact E.
Qed.

(** A completed OS read appends the bytes it stored. *)
Lemma run_complete_contents (r : Reader.t) (n : Z) (res : os_read) :
  ptrs_ok r -> Z.of_nat (length (buffer r)) = sizeof_buffer ->
  safe_request r n -> os_read_ok n res ->
  contents (run_complete r res)
  = (contents r ++ (if numRead res >? 0 then bytesRead res else []))%list.
Proof.
  intros H Hlen (Hpos & Hfree & Hend & Hsafe) Hres.
  unfold run_complete.
  destruct (Z.ltb_spec (numRead res) 0) as [Hneg|Hnn].
  { destruct (Z.gtb_spec (numRead res) 0); [lia|].
    rewrite app_nil_r. reflexivity. }
  destruct (Z.eqb_spec (numRead res) 0) as [Hz|Hnz].
  { destruct (Z.gtb_spec (numRead res) 0); [lia|].
    rewrite app_nil_r. reflexivity. }
  destruct (Z.gtb_spec (numRead res) 0) as [Hgt|]; [|lia].
  destruct Hres as [Hres|[Hrange Hbytes]]; [lia|].
  set (r' := set_wptr _ _).
  pose proof (bytesInBuffer_eq r H) as Hb.
  pose proof (bytesInBuffer_range r H) as Hbr.
  assert (Hok' : ptrs_ok r').
  { destruct H as [Hr Hw]. split; cbn; [exact Hr|]. ring_arith. }
  assert (Hb' : bytesInBuffer r' = bytesInBuffer r + numRead res).
  { rewrite (bytesInBuffer_eq r' Hok'), Hb. cbn. unfold free in Hfree.
    rewrite Hb in Hfree. destruct H as [Hr Hw].
    destruct (Z.leb_spec (rptr r) (wptr r));
      destruct (Z.leb_spec (rptr r) (u32 (u64 (wptr r + numRead res) mod sizeof_buffer)));
      ring_arith. }
  assert (Hlen' : Z.of_nat (length (buffer r')) = sizeof_buffer).
  { cbn. rewrite length_store; [exact Hlen | apply H | lia]. }
  apply list_eq. intros i.
  rewrite (contents_lookup r' i Hlen'), Hb'.
  rewrite lookup_app, (contents_lookup r i Hlen), length_contents.
  change (buffer r') with (store (buffer r) (wptr r) (bytesRead res)).
  rewrite lookup_store by (destruct H as [Hr Hw]; lia).
  change (unread_index r' (Z.of_nat i)) with (unread_index r (Z.of_nat i)).
  destruct (decide (i < Z.to_nat (bytesInBuffer r))%nat) as [Hlt|Hge].
  - rewrite decide_True by lia.
    specialize (Hsafe (Z.of_nat i) ltac:(lia)).
    assert (Hidx0 : 0 <= unread_index r (Z.of_nat i) < sizeof_buffer).
    { unfold unread_index. ring_arith. }
    rewrite decide_False by (destruct H as [Hr Hw]; lia).
    assert (Hidx : (Z.to_nat (unread_index r (Z.of_nat i)) < length (buffer r))%nat)
      by lia.
    destruct (lookup_lt_is_Some_2 _ _ Hidx) as [x Hx]. rewrite Hx. reflexivity.
  - assert (Hidx : unread_index r (Z.of_nat i)
                   = wptr r + (Z.of_nat i - bytesInBuffer r)
                   \/ ~ (Z.of_nat i < bytesInBuffer r + numRead res)).
    { unfold unread_index, free in *. rewrite Hb in *. destruct H as [Hr Hw].
      destruct (Z.leb_spec (rptr r) (wptr r)); ring_arith. }
    destruct (decide (i < Z.to_nat (bytesInBuffer r + numRead res))%nat) as [Hin|Hout].
    + destruct Hidx as [Hidx|Hidx]; [|lia]. rewrite Hidx.
      rewrite decide_True by (destruct H as [Hr Hw]; lia).
      f_equal. destruct H as [Hr Hw]. lia.
    + symmetry. apply lookup_ge_None. lia.
Qed.

End RingContents.

(** ** The read side: the byte stream *)

Section StreamFacts.

Import Reader KDPipeIODevice ReadSide.

Lemma moved_step (s s' : state) (p c : list ascii) :
  moved s s' p c -> step s s'.
Proof. intros H. destruct H; econstructor; eassumption. Qed.

Lemma step_moved (s s' : state) :
  step s s' -> exists p c, moved s s' p c.
Proof. intros H. destruct H; eexists _, _; econstructor; eassumption. Qed.

Lemma history_reachable (s : state) (p c : list ascii) :
  history s p c -> reachable s.
Proof.
  induction 1 as [fd_ mode_ Hopen|s s' produced consumed p c _ IH Hm].
  - exists fd_, mode_. split; [exact Hopen | apply rtc_refl].
  - destruct IH as (fd_ & mode_ & Hopen & Hpath).
    exists fd_, mode_. split; [exact Hopen|].
    eapply rtc_r; [exact Hpath | eapply moved_step; exact Hm].
Qed.

Lemma reachable_history (s : state) :
  reachable s -> exists p c, history s p c.
Proof.
  intros (fd_ & mode_ & Hopen & Hpath). revert s Hpath.
  apply (rtc_ind_r (fun s => exists p c, history s p c) (initial fd_ mode_)).
  - exists [], []. constructor. exact Hopen.
  - intros s1 s2 _ Hstep (p & c & Hh).
    destruct (step_moved _ _ Hstep) as (p' & c' & Hm).
    eexists _, _. econstructor; eassumption.
Qed.

Lemma contents_flags (r : Reader.t) (b : bool) :
  contents (set_eofShortCut b r) = contents r
  /\ contents (set_consumerBlocksOnUs b r) = contents r.
Proof. split; reflexivity. Qed.

(** What [readData] copies out is a prefix of the unread bytes, and the
    rest stays. *)
Lemma readData_locked_contents (d d' : KDPipeIODevice.t) (r : Reader.t)
    (m ret : Z) (data : list ascii) :
  reader_inv r -> 0 <= m ->
  readData_locked d r m = Returned ret data d' ->
  exists r', reader d' = Some r' /\ contents r = (data ++ contents r')%list.
Proof.
  intros (Hok & Hlen & _) Hm. unfold readData_locked.
  destruct (bufferEmpty r) eqn:He.
  - intros E. injection E as _ <- <-. eexists. split; [reflexivity|].
    reflexivity.
  - pose proof (Reader_readData_contents r m Hok Hlen He Hm) as Hc.
    destruct (Reader.readData r m) as [[n data0] r0].
    intros E. injection E as _ <- <-. eexists. split; [reflexivity|].
    exact Hc.
Qed.

Lemma moved_contents (s s' : state) (p c : list ascii) (r : Reader.t) :
  state_inv s -> moved s s' p c ->
  reader (dev s) = Some r ->
  exists r', reader (dev s') = Some r'
             /\ (contents r ++ p)%list = (c ++ contents r')%list.
Proof.
  intros (Hopen & Hq & Hcons & Hrd) Hm Hr.
  destruct (Hrd r Hr) as [Hinv Hpend].
  destruct Hm as [d r0 r1 n c0 Hr0 Hprep|d r0 n res c0 Hr0 Hres
                 |d p0 maxSize ret data d' Hread
                 |d p0 maxSize d' maxSize' old Hread
                 |d r0 maxSize old ret data d' Hr0 Hnot Hread];
    cbn [dev pending cons] in *.
  - rewrite Hr0 in Hr. injection Hr as ->.
    exists r1. split; [reflexivity|]. rewrite app_nil_r. cbn [app].
    symmetry. eapply run_prepare_contents; [apply Hinv | exact Hprep].
  - rewrite Hr0 in Hr. injection Hr as ->.
    eexists. split; [reflexivity|]. cbn [app]. symmetry.
    destruct Hpend as (Hsafe & _).
    eapply run_complete_contents; [apply Hinv | apply Hinv | exact Hsafe | exact Hres].
  - destruct (readData_unfold d r maxSize Hr) as (m & Hm & _ & Hform).
    rewrite Hform in Hread. rewrite app_nil_r.
    destruct (eofShortCut r) eqn:Hsc.
    + injection Hread as _ <- <-. exists r. split; [exact Hr | reflexivity].
    + destruct (bufferEmpty r && negb (error r) && negb (eof r)); [discriminate|].
      eapply readData_locked_contents; eassumption.
  - destruct (readData_unfold d r maxSize Hr) as (m & Hm & _ & Hform).
    rewrite Hform in Hread. rewrite app_nil_r. cbn [app].
    destruct (eofShortCut r); [discriminate|].
    destruct (bufferEmpty r && negb (error r) && negb (eof r)); [|
      unfold readData_locked in Hread; destruct (bufferEmpty r);
      [discriminate | destruct (Reader.readData r m) as [[? ?] ?]; discriminate]].
    injection Hread as <- _ _. eexists. split; [reflexivity|]. reflexivity.
  - rewrite Hr0 in Hr. injection Hr as ->. rewrite app_nil_r.
    unfold readData_woken in Hread. rewrite Hr0 in Hread.
    destruct (readData_locked_contents d d' (set_consumerBlocksOnUs old r)
                maxSize ret data) as (r' & Hr' & Hc);
      [apply reader_inv_consumerBlocksOnUs; exact Hinv | exact Hcons | exact Hread|].
    exists r'. split; [exact Hr' | exact Hc].
Qed.

Lemma moved_keeps_reader (s s' : state) (p c : list ascii) :
  moved s s' p c -> reader (dev s') <> None -> reader (dev s) <> None.
Proof.
  intros Hm. destruct Hm; cbn [dev]; try congruence.
  - unfold readData in H. cbn [startReaderThread reader] in H.
    destruct (reader d); [congruence | discriminate].
  - unfold readData in H. cbn [startReaderThread reader] in H.
    destruct (reader d); [congruence | discriminate].
Qed.

(** X14.  The stream is kept: in every state the device can reach, the
    bytes the operating system delivered to the Reader are the bytes
    handed to the consumer so far followed by the unread content of the
    ring buffer.  No byte is lost, repeated or reordered, whatever the
    interleaving of the two threads, the sizes of the reads and the
    wrap-around of the pointers. *)
Theorem stream_is_kept (s : state) (produced consumed : list ascii) (r : Reader.t) :
  history s produced consumed ->
  reader (dev s) = Some r ->
  produced = (consumed ++ contents r)%list.
Proof.
  intros Hh. revert r.
  induction Hh as [fd_ mode_ Hopen|s s' produced consumed p c Hh IH Hm]; intros r Hr.
  - cbn [app]. symmetry. apply contents_empty.
    unfold initial, open, doOpen in Hr, Hopen. cbn [isOpen new openMode] in Hr, Hopen.
    change (negb (NotOpen =? NotOpen)) with false in Hr, Hopen.
    cbv iota in Hr, Hopen.
    destruct (fd_ <? 0); [discriminate|].
    destruct (Z.land mode_ ReadWrite =? 0); [discriminate|].
    cbn [snd dev reader] in Hr.
    destruct (negb (Z.land mode_ ReadOnly =? 0)); [|discriminate].
    injection Hr as <-. reflexivity.
  - pose proof (reachable_inv s (history_reachable _ _ _ Hh)) as Hinv.
    destruct (reader (dev s)) as [r0|] eqn:Hr0.
    + destruct (moved_contents s s' p c r0 Hinv Hm Hr0) as (r' & Hr' & Hc).
      rewrite Hr' in Hr. injection Hr as <-.
      rewrite (IH r0 eq_refl), <- !app_assoc. f_equal. exact Hc.
    + exfalso. apply (moved_keeps_reader _ _ _ _ Hm); [congruence | exact Hr0].
Qed.

End StreamFacts.

(** ** The read side: end-of-file and error are final *)

Section LatchFacts.

Import Reader KDPipeIODevice ReadSide.

Lemma latched_not_pending (r : Reader.t) (p : option Z) :
  pending_inv r p -> (eof r || error r) = true -> p = None.
Proof.
  destruct p as [n|]; [|reflexivity].
  intros (_ & He & Hr) Hl. rewrite He, Hr in Hl. discriminate.
Qed.

Lemma bytes_of_free (r r' : Reader.t) :
  free r <= free r' -> bytesInBuffer r' <= bytesInBuffer r.
Proof. unfold free. lia. Qed.

Lemma step_latched (s s' : state) (r : Reader.t) :
  state_inv s -> step s s' ->
  reader (dev s) = Some r -> (eof r || error r) = true ->
  exists r',
    reader (dev s') = Some r'
    /\ eof r' = eof r /\ error r' = error r
    /\ pending s' = None
    /\ bytesInBuffer r' <= bytesInBuffer r.
Proof.
  intros (Hopen & Hq & Hcons & Hrd) Hstep Hr Hl.
  destruct (Hrd r Hr) as [Hinv Hpend].
  pose proof (latched_not_pending r _ Hpend Hl) as Hnone.
  destruct Hstep as [d r0 r1 n c0 Hr0 Hprep|d r0 n res c0 Hr0 Hres
                    |d p0 maxSize ret data d' Hread
                    |d p0 maxSize d' maxSize' old Hread
                    |d r0 maxSize old ret data d' Hr0 Hnot Hread];
    cbn [dev pending cons] in *.
  - rewrite Hr0 in Hr. injection Hr as ->.
    destruct (run_prepare_spec r r1 n (proj1 Hinv) Hprep)
      as (_ & _ & _ & _ & _ & _ & _ & _ & He & Hr & _).
    rewrite He, Hr in Hl. discriminate.
  - discriminate.
  - destruct (readData_unfold d r maxSize Hr) as (m & Hm & _ & Hform).
    rewrite Hform in Hread.
    destruct (eofShortCut r) eqn:Hsc.
    + injection Hread as _ _ <-. exists r.
      split; [exact Hr|]. split; [reflexivity|]. split; [reflexivity|].
      split; [exact Hnone | lia].
    + destruct (bufferEmpty r && negb (error r) && negb (eof r)); [discriminate|].
      destruct (readData_locked_inv _ _ r m ret data Hinv Hm (fun _ => Hl) Hread)
        as (r' & -> & _ & _ & _ & Hfree & He & Hr').
      exists r'. split; [reflexivity|]. split; [exact He|]. split; [exact Hr'|].
      split; [exact Hnone | apply bytes_of_free, Hfree].
  - destruct (readData_unfold d r maxSize Hr) as (m & Hm & _ & Hform).
    rewrite Hform in Hread. exfalso.
    destruct (eofShortCut r); [discriminate|].
    destruct (bufferEmpty r && negb (error r) && negb (eof r)) eqn:Hc.
    + apply andb_true_iff in Hc as [Hc He]. apply andb_true_iff in Hc as [_ Hr'].
      destruct (error r), (eof r); discriminate.
    + unfold readData_locked in Hread.
      destruct (bufferEmpty r); [discriminate|].
      destruct (Reader.readData r m) as [[? ?] ?]. discriminate.
  - rewrite Hr0 in Hr. injection Hr as ->.
    unfold readData_woken in Hread. rewrite Hr0 in Hread.
    destruct (readData_locked_inv _ _ (set_consumerBlocksOnUs old r) maxSize ret data
                (reader_inv_consumerBlocksOnUs old r Hinv) Hcons (fun _ => Hl) Hread)
      as (r' & -> & _ & _ & _ & Hfree & He & Hr').
    exists r'. split; [reflexivity|]. split; [exact He|]. split; [exact Hr'|].
    split; [reflexivity | apply bytes_of_free, Hfree].
Qed.

(** X15.  End-of-file and error are final: once the Reader has latched
    one of them, in every later state of the device the same flag is
    still latched, no OS read is in flight (the Reader reads no more),
    and the buffer holds no more bytes than before: it only drains. *)
Theorem latched_is_final (s s' : state) (r : Reader.t) :
  reachable s ->
  rtc step s s' ->
  reader (dev s) = Some r ->
  (eof r || error r) = true ->
  exists r',
    reader (dev s') = Some r'
    /\ eof r' = eof r /\ error r' = error r
    /\ pending s' = None
    /\ bytesInBuffer r' <= bytesInBuffer r.
Proof.
  intros Hreach Hpath Hr Hl. revert s' Hpath.
  apply (rtc_ind_r
           (fun s' => exists r',
              reader (dev s') = Some r'
              /\ eof r' = eof r /\ error r' = error r
              /\ pending s' = None
              /\ bytesInBuffer r' <= bytesInBuffer r) s).
  - destruct (reachable_inv s Hreach) as (_ & _ & _ & Hrd).
    destruct (Hrd r Hr) as [_ Hpend].
    exists r. split; [exact Hr|]. split; [reflexivity|]. split; [reflexivity|].
    split; [eapply latched_not_pending; eassumption | lia].
  - intros s1 s2 Hpath Hstep (r1 & Hr1 & He1 & Hr1' & _ & Hb1).
    assert (Hinv1 : state_inv s1).
    { apply reachable_inv. destruct Hreach as (fd_ & mode_ & Hopen & Hp0).
      exists fd_, mode_. split; [exact Hopen|]. etransitivity; eassumption. }
    destruct (step_latched s1 s2 r1 Hinv1 Hstep Hr1) as (r2 & Hr2 & He2 & Hrr2 & Hp2 & Hb2).
    { rewrite He1, Hr1'. exact Hl. }
    exists r2. split; [exact Hr2|]. split; [congruence|]. split; [congruence|].
    split; [exact Hp2 | lia].
Qed.

End LatchFacts.

(** ** The questions a caller can ask before it reads or writes *)

Section WouldBlock.

Import Reader KDPipeIODevice ReadSide.

Lemma readData_locked_returns (d : KDPipeIODevice.t) (r : Reader.t) (m : Z) :
  exists ret data d', readData_locked d r m = Returned ret data d'.
Proof.
  unfold readData_locked. destruct (bufferEmpty r).
  - eexists _, _, _. reflexivity.
  - destruct (Reader.readData r m) as [[n data] r']. eexists _, _, _. reflexivity.
Qed.

(** X16.  [readWouldBlock] predicts [readData]: on a device with a
    consistent Reader it answers true exactly when a [readData] of any
    size puts the caller to sleep, and false exactly when the call
    returns.  [waitForReadyRead] reaches its wait exactly when
    [readWouldBlock] holds and the generic buffer is empty. *)
Theorem readWouldBlock_predicts_readData
    (d : KDPipeIODevice.t) (r : Reader.t) (n : Z) :
  readable d r ->
  (readWouldBlock d = Some true
   <-> exists d' m old, readData d n = Blocked d' m old)
  /\ (readWouldBlock d = Some false
      <-> exists ret data d', readData d n = Returned ret data d')
  /\ (waitForReadyRead d = Sleeps
      <-> readWouldBlock d = Some true /\ qbuffer d = 0).
Proof.
  intros (Hopen & Hq & Hr & Hinv).
  destruct (readData_unfold d r n Hr) as (m & _ & _ & Hform).
  destruct Hinv as (Hok & _ & _ & Hsc).
  pose proof (bytesInBuffer_range r Hok) as Hrange.
  assert (Hwb : readWouldBlock d
                = Some (bufferEmpty r && negb (eof r) && negb (error r))).
  { unfold readWouldBlock. cbn [startReaderThread reader]. rewrite Hr. reflexivity. }
  assert (Hwait : waitForReadyRead d
                  = if qbuffer d + bytesInBuffer r >? 0 then Ready true
                    else if eofShortCut r then Ready true
                    else if negb (bytesInBuffer r =? 0) || eof r || error r
                         then Ready true else Sleeps).
  { unfold waitForReadyRead, bytesAvailable, QIODevice_bytesAvailable.
    cbn [startReaderThread reader triedToStartReader negb qbuffer fst
         ALLOW_QIODEVICE_BUFFERING andb].
    rewrite Hr. reflexivity. }
  set (b := bufferEmpty r && negb (eof r) && negb (error r)) in *.
  assert (Hb' : bufferEmpty r && negb (error r) && negb (eof r) = b).
  { unfold b. destruct (bufferEmpty r), (error r), (eof r); reflexivity. }
  rewrite Hb' in Hform.
  assert (Hshort : eofShortCut r = true -> b = false).
  { intros E. destruct (Hsc E) as [Hl _]. unfold b.
    destruct (eof r), (error r); try discriminate;
      destruct (bufferEmpty r); reflexivity. }
  assert (Hblocks : b = true -> exists d' m' old, readData d n = Blocked d' m' old).
  { intros E. rewrite Hform, E.
    destruct (eofShortCut r) eqn:Esc; [rewrite (Hshort eq_refl) in E; discriminate|].
    eexists _, _, _. reflexivity. }
  assert (Hreturns : b = false -> exists ret data d', readData d n = Returned ret data d').
  { intros E. rewrite Hform, E.
    destruct (eofShortCut r); [eexists _, _, _; reflexivity|].
    apply readData_locked_returns. }
  rewrite Hwb. split; [|split].
  - split; [intros E; injection E as E; auto|].
    intros (d' & m' & old & E). destruct b; [reflexivity|].
    destruct (Hreturns eq_refl) as (? & ? & ? & E'). congruence.
  - split; [intros E; injection E as E; auto|].
    intros (ret & data & d' & E). destruct b; [|reflexivity].
    destruct (Hblocks eq_refl) as (? & ? & ? & E'). congruence.
  - rewrite Hwait. unfold b, bufferEmpty in *. split.
    + destruct (Z.gtb_spec (qbuffer d + bytesInBuffer r) 0); [discriminate|].
      destruct (eofShortCut r); [discriminate|].
      assert (Hz : bytesInBuffer r = 0) by lia. rewrite Hz. cbn [Z.eqb negb orb andb].
      destruct (eof r), (error r); try discriminate.
      intros _. split; [reflexivity | lia].
    + intros [E Hq0]. injection E as E.
      apply andb_true_iff in E as [E Herr]. apply andb_true_iff in E as [Hz Heof].
      apply Z.eqb_eq in Hz. apply negb_true_iff in Herr, Heof.
      rewrite Hz, Hq0, Herr, Heof. cbn.
      destruct (eofShortCut r) eqn:Esc; [|reflexivity].
      destruct (Hsc eq_refl) as [Hl _]. rewrite Heof, Herr in Hl. discriminate.
Qed.

End WouldBlock.

Section WriteSide.

Import KDPipeIODevice.

(** X17.  [writeWouldBlock] predicts [writeData]: on a device with a
    Writer it answers true exactly when [writeData] puts the caller to
    sleep (the slot is occupied and no error is latched), and exactly
    then [waitForBytesWritten] waits; [bytesToWrite] adds the bytes in
    the slot to the bytes of the generic layer. *)
Theorem writeWouldBlock_predicts_writeData
    (d : KDPipeIODevice.t) (w : Writer.t) (data : list ascii) (size base : Z) :
  writer d = Some w ->
  (writeWouldBlock d = Some true
   <-> exists d' m old, writeData d data size = Blocked d' m old)
  /\ (writeWouldBlock d = Some false
      <-> exists ret out d', writeData d data size = Returned ret out d')
  /\ (waitForBytesWritten d = Sleeps <-> writeWouldBlock d = Some true)
  /\ fst (bytesToWrite base d) = base + Writer.numBytesInBuffer w.
Proof.
  intros Hw.
  unfold writeWouldBlock, writeData, waitForBytesWritten, bytesToWrite.
  cbn [startWriterThread writer]. rewrite Hw. cbn [fst Writer.bytesInBuffer].
  destruct (Writer.writeData w data size) as [n w'].
  destruct (Writer.bufferEmpty w), (Writer.error w); cbn [negb andb orb].
  - split; [|split; [|split]]; try reflexivity.
    + split; [discriminate | intros (? & ? & ? & ?); discriminate].
    + split; [intros _; eexists _, _, _; reflexivity | reflexivity].
    + split; discriminate.
  - split; [|split; [|split]]; try reflexivity.
    + split; [discriminate | intros (? & ? & ? & ?); discriminate].
    + split; [intros _; eexists _, _, _; reflexivity | reflexivity].
    + split; discriminate.
  - split; [|split; [|split]]; try reflexivity.
    + split; [discriminate | intros (? & ? & ? & ?); discriminate].
    + split; [intros _; eexists _, _, _; reflexivity | reflexivity].
    + split; discriminate.
  - split; [|split; [|split]]; try reflexivity.
    + split; [intros _; eexists _, _, _; reflexivity | reflexivity].
    + split; [discriminate | intros (? & ? & ? & ?); discriminate].
    + split; reflexivity.
Qed.

(** X18.  A device without the worker of a direction (closed, or opened
    for the other direction only): [readData], [readWouldBlock] and, on
    an open device with an empty generic buffer, [atEnd] dereference the
    null Reader, while [waitForReadyRead] and [canReadLine] answer true
    and [bytesAvailable] reports the generic buffer alone; likewise
    [writeData] and [writeWouldBlock] dereference the null Writer while
    [waitForBytesWritten] answers true. *)
Theorem calls_without_worker (d : KDPipeIODevice.t) :
  (reader d = None ->
   (forall n, readData d n = Undefined)
   /\ readWouldBlock d = None
   /\ atEnd d = (if isOpen d
                 then if qbuffer d =? 0 then None else Some false
                 else Some true)
   /\ waitForReadyRead d = Ready true
   /\ (forall base, canReadLine base d = true)
   /\ fst (bytesAvailable d) = qbuffer d)
  /\ (writer d = None ->
      (forall data size, writeData d data size = Undefined)
      /\ writeWouldBlock d = None
      /\ waitForBytesWritten d = Ready true
      /\ forall base, fst (bytesToWrite base d) = base).
Proof.
  split.
  - intros Hr. split; [|split; [|split; [|split; [|split]]]].
    + intros n. unfold readData. cbn [startReaderThread reader]. rewrite Hr.
      reflexivity.
    + unfold readWouldBlock. cbn [startReaderThread reader]. rewrite Hr.
      reflexivity.
    + unfold atEnd, QIODevice_atEnd, bytesAvailable, QIODevice_bytesAvailable, isOpen.
      cbn [startReaderThread reader triedToStartReader negb qbuffer openMode fst].
      rewrite Hr. cbn [fst].
      destruct (openMode d =? NotOpen); cbn [orb negb]; [reflexivity|].
      destruct (qbuffer d =? 0); reflexivity.
    + unfold waitForReadyRead, bytesAvailable, QIODevice_bytesAvailable.
      cbn [startReaderThread reader triedToStartReader negb qbuffer fst].
      rewrite Hr. cbn [fst]. destruct (_ && _); reflexivity.
    + intros base. unfold canReadLine. cbn [startReaderThread reader].
      rewrite Hr. destruct base; reflexivity.
    + unfold bytesAvailable, QIODevice_bytesAvailable. rewrite Hr.
      destruct (negb (triedToStartReader d)); reflexivity.
  - intros Hw. split; [|split; [|split]].
    + intros data size. unfold writeData. cbn [startWriterThread writer].
      rewrite Hw. reflexivity.
    + unfold writeWouldBlock. cbn [startWriterThread writer]. rewrite Hw.
      reflexivity.
    + unfold waitForBytesWritten. cbn [startWriterThread writer]. rewrite Hw.
      reflexivity.
    + intros base. unfold bytesToWrite. cbn [startWriterThread writer].
      rewrite Hw. reflexivity.
Qed.

End WriteSide.

Section LineFacts.

Import Reader KDPipeIODevice.

Lemma bufferContains_iff (r : Reader.t) (ch : ascii) :
  ptrs_ok r ->
  (bufferContains r ch = true <-> In ch (contents r)).
Proof.
  intros H. pose proof (bytesInBuffer_range r H) as Hrange.
  unfold bufferContains, contents.
  assert (Hcount : u32 (rptr r + bytesInBuffer r) - rptr r = bytesInBuffer r).
  { destruct H as [Hr Hw]. rewrite u32_small; [lia|].
    unfold sizeof_buffer, BUFFER_SIZE in *. lia. }
  rewrite Hcount, existsb_exists, in_map_iff. split.
  - intros (i & Hin & Heq). apply in_map_iff in Hin as (k & <- & Hk).
    exists k. split; [|exact Hk].
    apply Ascii.eqb_eq in Heq. rewrite <- Heq. unfold unread_index.
    rewrite u64_small; [reflexivity|].
    apply in_seq in Hk. destruct H as [Hr Hw].
    unfold sizeof_buffer, BUFFER_SIZE in *. lia.
  - intros (k & Heq & Hk). exists (rptr r + Z.of_nat k). split.
    + apply in_map_iff. exists k. split; [reflexivity | exact Hk].
    + apply Ascii.eqb_eq. rewrite <- Heq. unfold unread_index.
      rewrite u64_small; [reflexivity|].
      apply in_seq in Hk. destruct H as [Hr Hw].
      unfold sizeof_buffer, BUFFER_SIZE in *. lia.
Qed.

(** X19.  [canReadLine] on a device with a Reader answers true exactly
    when the generic layer has a line or a line feed is among the unread
    bytes of the ring buffer, wherever the content wraps. *)
Theorem canReadLine_iff_line_feed_buffered
    (d : KDPipeIODevice.t) (r : Reader.t) (base : bool) :
  reader d = Some r ->
  ptrs_ok r ->
  (canReadLine base d = true <-> base = true \/ In "010"%char (contents r)).
Proof.
  intros Hr Hok. unfold canReadLine. cbn [startReaderThread reader]. rewrite Hr.
  destruct base.
  - split; [intros _; left; reflexivity | reflexivity].
  - rewrite (bufferContains_iff r _ Hok). split; [auto|].
    intros [E|E]; [discriminate | exact E].
Qed.

End LineFacts.

(** ** The write side: the flush loop *)

Section FlushFacts.

Import KDPipeIODevice.

Lemma fetch_split (l : list ascii) (pos a b : Z) :
  0 <= pos -> 0 <= a -> 0 <= b ->
  fetch l pos (a + b) = (fetch l pos a ++ fetch l (pos + a) b)%list.
Proof.
  intros Hpos Ha Hb. unfold fetch.
  rewrite !Z2Nat.inj_add by lia.
  change firstn with (@take ascii). change skipn with (@drop ascii).
  rewrite <- take_take_drop, drop_drop. reflexivity.
Qed.

Lemma run_write_spec (os : nat -> Z -> Z -> os_write) (w : Writer.t) :
  Writer.numBytesInBuffer w <= Z.of_nat (length (Writer.buffer w)) ->
  (forall k off cnt, 0 < cnt -> os_write_ok cnt (os k off cnt)) ->
  forall fuel k t sent w' signalled,
    0 <= t < Writer.numBytesInBuffer w ->
    Writer.run_write os fuel k w t = Some (sent, w', signalled) ->
    (w' = Writer.run_flushed w
     /\ signalled = Writer.numBytesInBuffer w
     /\ sent = fetch (Writer.buffer w) t (Writer.numBytesInBuffer w - t))
    \/ (exists code rest,
          w' = Writer.run_failed code w
          /\ signalled = 0
          /\ fetch (Writer.buffer w) t (Writer.numBytesInBuffer w - t)
             = (sent ++ rest)%list
          /\ rest <> []).
Proof.
  intros Hlen Hos. set (N := Writer.numBytesInBuffer w) in *.
  induction fuel as [|fuel IH]; intros k t sent w' signalled Ht; [discriminate|].
  cbn [Writer.run_write]. fold N.
  set (res := os k t (N - t)).
  pose proof (Hos k t (N - t) ltac:(lia)) as Hres. fold res in Hres.
  destruct (Z.ltb_spec (numWritten res) 0) as [Hneg|Hnn].
  - intros E. injection E as <- <- <-. right.
    exists (write_errno res), (fetch (Writer.buffer w) t (N - t)).
    split; [reflexivity|]. split; [reflexivity|]. split; [reflexivity|].
    intros E. apply (f_equal (@length ascii)) in E.
    rewrite length_fetch in E by lia. cbn in E. lia.
  - destruct Hres as [Hres|Hres]; [lia|].
    destruct (Z.ltb_spec (t + numWritten res) N) as [Hmore|Hdone].
    + destruct (Writer.run_write os fuel (S k) w (t + numWritten res))
        as [[[more w1] sig1]|] eqn:Erec; [|discriminate].
      intros E. injection E as <- <- <-.
      replace (N - t) with (numWritten res + (N - (t + numWritten res))) by lia.
      rewrite fetch_split by lia.
      destruct (IH (S k) (t + numWritten res) more w1 sig1 ltac:(lia) Erec)
        as [(Hw & Hs & Hsent)|(code & rest & Hw & Hs & Hsent & Hrest)].
      * left. split; [exact Hw|]. split; [exact Hs|]. rewrite Hsent. reflexivity.
      * right. exists code, rest. split; [exact Hw|]. split; [exact Hs|].
        split; [|exact Hrest]. rewrite Hsent, app_assoc. reflexivity.
    + intros E. injection E as <- <- <-. left.
      split; [reflexivity|]. split; [lia|].
      replace (N - t) with (numWritten res) by lia. reflexivity.
Qed.

Lemma run_write_returns (os : nat -> Z -> Z -> os_write) (w : Writer.t) :
  (forall k off cnt, 0 < cnt -> os_write_ok cnt (os k off cnt)) ->
  (forall k off cnt, 0 < cnt -> numWritten (os k off cnt) <> 0) ->
  forall fuel k t,
    0 <= t ->
    Writer.numBytesInBuffer w - t <= Z.of_nat fuel ->
    (0 < fuel)%nat ->
    is_Some (Writer.run_write os fuel k w t).
Proof.
  intros Hos Hprog. set (N := Writer.numBytesInBuffer w) in *.
  induction fuel as [|fuel IH]; intros k t Ht Hfuel Hpos; [lia|].
  cbn [Writer.run_write]. fold N.
  set (res := os k t (N - t)).
  destruct (Z.ltb_spec (numWritten res) 0) as [Hneg|Hnn]; [eauto|].
  destruct (Z.ltb_spec (t + numWritten res) N) as [Hmore|Hdone]; [|eauto].
  pose proof (Hos k t (N - t) ltac:(lia)) as Hres.
  pose proof (Hprog k t (N - t) ltac:(lia)) as Hnz.
  fold res in Hres, Hnz.
  destruct (IH (S k) (t + numWritten res)) as [[[more w1] sig1] E]; [lia | lia | lia|].
  rewrite E. eauto.
Qed.

(** X20.  What [writeData] accepted reaches the operating system: when
    [writeData] returns [n >= 0] for [size] bytes, the flush loop of
    [Writer::run] on the slot, whatever the sizes of the partial writes,
    ends in one of two ways.  Either it hands the operating system
    exactly the first [n] bytes of the data, in order, and signals
    [bytesWritten(n)]; or a write fails, a proper prefix of them was
    handed over, the error is latched and [bytesWritten(0)] is
    signalled.  In both cases the slot is empty afterwards.  When no
    write answers zero, at most [n] writes are needed. *)
Theorem written_bytes_reach_os
    (os : nat -> Z -> Z -> os_write)
    (d d' : KDPipeIODevice.t) (data out : list ascii) (size ret : Z) :
  0 < size <= Z.of_nat (length data) ->
  (forall k off cnt, 0 < cnt -> os_write_ok cnt (os k off cnt)) ->
  writeData d data size = Returned ret out d' ->
  0 <= ret ->
  exists w,
    writer d' = Some w
    /\ ret = Z.min size BUFFER_SIZE
    /\ (forall fuel sent w' signalled,
          Writer.run_write os fuel 0 w 0 = Some (sent, w', signalled) ->
          Writer.bufferEmpty w' = true
          /\ ((w' = Writer.run_flushed w
               /\ signalled = ret
               /\ sent = firstn (Z.to_nat ret) data)
              \/ (exists code rest,
                    w' = Writer.run_failed code w
                    /\ Writer.error w' = true
                    /\ signalled = 0
                    /\ firstn (Z.to_nat ret) data = (sent ++ rest)%list
                    /\ rest <> [])))
    /\ ((forall k off cnt, 0 < cnt -> numWritten (os k off cnt) <> 0) ->
        is_Some (Writer.run_write os (Z.to_nat ret) 0 w 0)).
Proof.
  intros Hsize Hos Hwrite Hret.
  unfold writeData in Hwrite. cbn [startWriterThread writer] in Hwrite.
  destruct (writer d) as [w0|] eqn:Hw0; [|discriminate].
  destruct (negb (Writer.error w0) && negb (Writer.bufferEmpty w0)); [discriminate|].
  destruct (Writer.error w0); [injection Hwrite as <- _ _; lia|].
  destruct (Writer_writeData_count w0 data size ltac:(lia)) as (Hn & Hnum & Hbuf & _).
  destruct (Writer.writeData w0 data size) as [n w] eqn:E.
  cbn [fst snd] in Hn, Hnum, Hbuf.
  injection Hwrite as <- _ <-. exists w.
  split; [reflexivity|]. split; [exact Hn|].
  assert (Hrange : 0 < n <= 4096) by (unfold BUFFER_SIZE in Hn; lia).
  assert (Hlen : Writer.numBytesInBuffer w <= Z.of_nat (length (Writer.buffer w))).
  { apply (f_equal (@length ascii)) in Hbuf.
    rewrite <- Hn in Hbuf.
    rewrite (firstn_length_le data) in Hbuf by lia.
    rewrite length_firstn in Hbuf. lia. }
  assert (Hslot : fetch (Writer.buffer w) 0 (Writer.numBytesInBuffer w - 0)
                  = firstn (Z.to_nat n) data).
  { unfold fetch. rewrite Z.sub_0_r, Hnum, <- Hn.
    change (Z.to_nat 0) with 0%nat. cbn [skipn]. rewrite Hn. exact Hbuf. }
  split.
  - intros fuel sent w' signalled Hrun.
    destruct (run_write_spec os w Hlen Hos fuel 0%nat 0 sent w' signalled
                ltac:(lia) Hrun)
      as [(Hw & Hs & Hsent)|(code & rest & Hw & Hs & Hsent & Hrest)].
    + split; [rewrite Hw; reflexivity|]. left.
      split; [exact Hw|]. split; [lia|]. rewrite Hsent. exact Hslot.
    + split; [rewrite Hw; reflexivity|]. right. exists code, rest.
      split; [exact Hw|]. split; [rewrite Hw; reflexivity|].
      split; [exact Hs|]. split; [|exact Hrest]. rewrite <- Hslot. exact Hsent.
  - intros Hprog. apply run_write_returns; try assumption; lia.
Qed.

End FlushFacts.

(** ** The life of a device *)

Section DeviceLife.

Import KDPipeIODevice.

Variable win32 : bool.

Lemma land_lor_Unbuffered (mode_ mask : Z) :
  0 <= mask < 4 -> Z.land (Z.lor mode_ Unbuffered) mask = Z.land mode_ mask.
Proof.
  intros Hmask. rewrite Z.land_lor_distr_l.
  assert (Z.land Unbuffered mask = 0) as ->.
  { assert (mask = 0 \/ mask = 1 \/ mask = 2 \/ mask = 3) as [->|[->|[->| ->]]] by lia;
      reflexivity. }
  apply Z.lor_0_r.
Qed.

Lemma doOpen_cases (d : KDPipeIODevice.t) (fd_ handle_ mode_ : Z) :
  doOpen win32 d fd_ handle_ mode_ = (false, d)
  \/ (isOpen d = false /\ ~ invalid_descriptor win32 fd_ handle_
      /\ Z.land mode_ ReadWrite <> 0
      /\ doOpen win32 d fd_ handle_ mode_ =
         (true,
          Make (Z.lor mode_ Unbuffered) fd_ handle_
               (if negb (Z.land mode_ ReadOnly =? 0)
                then Some (Reader.new fd_ handle_) else None)
               (if negb (Z.land mode_ WriteOnly =? 0)
                then Some (Writer.new fd_ handle_) else None)
               (triedToStartReader d) (triedToStartWriter d) (qbuffer d))).
Proof.
  destruct (isOpen d) eqn:Hopen;
    [left; apply doOpen_refused; left; exact Hopen|].
  destruct (if win32 then handle_ =? 0 else fd_ <? 0) eqn:Hinv.
  { left. apply doOpen_refused. right. left.
    apply invalid_descriptor_test. exact Hinv. }
  destruct (Z.eqb_spec (Z.land mode_ ReadWrite) 0) as [Hm|Hm].
  { left. apply doOpen_refused. right. right. exact Hm. }
  right. assert (Hni : ~ invalid_descriptor win32 fd_ handle_).
  { intros H. apply invalid_descriptor_test in H. congruence. }
  split; [reflexivity|]. split; [exact Hni|]. split; [exact Hm|].
  apply doOpen_accepted; [exact Hopen | exact Hni | exact Hm].
Qed.

Lemma isOpen_lor_Unbuffered (mode_ : Z) (fd_ handle_ : Z) r w a b q :
  isOpen (Make (Z.lor mode_ Unbuffered) fd_ handle_ r w a b q) = true.
Proof.
  unfold isOpen. cbn [openMode]. apply negb_true_iff, Z.eqb_neq.
  intros E. apply Z.lor_eq_0_iff in E as [_ E]. discriminate.
Qed.

Lemma checks_new : checks win32 KDPipeIODevice.new.
Proof.
  unfold checks. cbn. repeat split. destruct win32; [reflexivity | lia].
Qed.

(** [checks] looks at the mode, the descriptor and at whether the
    workers exist. *)
Lemma checks_ext (d d' : KDPipeIODevice.t) :
  openMode d' = openMode d -> fd d' = fd d -> handle d' = handle d ->
  (is_Some (reader d') <-> is_Some (reader d)) ->
  (is_Some (writer d') <-> is_Some (writer d)) ->
  checks win32 d -> checks win32 d'.
Proof.
  intros Hm Hf Hh Hr Hw. unfold checks, isOpen. rewrite Hm, Hf, Hh.
  destruct (negb (openMode d =? NotOpen)).
  - intros (H1 & H2 & H3 & H4 & H5).
    split; [exact H1|]. split; [exact H2|].
    split; [intros H; apply Hr, H3, H|].
    split; [intros H; apply Hw, H4, H | exact H5].
  - intros (H1 & H2 & H3 & H4).
    split; [exact H1|].
    split; [destruct (reader d') eqn:E; [|reflexivity];
            assert (is_Some (reader d)) as [? ?] by (apply Hr; eauto); congruence|].
    split; [destruct (writer d') eqn:E; [|reflexivity];
            assert (is_Some (writer d)) as [? ?] by (apply Hw; eauto); congruence|].
    exact H4.
Qed.

Lemma readData_shape (d : KDPipeIODevice.t) (maxSize : Z) (o : outcome) :
  readData d maxSize = o ->
  match o with
  | Returned _ _ d' | Blocked d' _ _ =>
      exists r r', reader d = Some r
                   /\ d' = set_reader (Some r') (startReaderThread d)
  | Undefined => reader d = None
  end.
Proof.
  unfold readData. cbn [startReaderThread reader].
  destruct (reader d) as [r|] eqn:Hr; [|intros <-; reflexivity].
  assert (Hsame : startReaderThread d = set_reader (Some r) (startReaderThread d)).
  { unfold set_reader, startReaderThread. cbn. rewrite Hr. reflexivity. }
  destruct (Reader.eofShortCut r).
  { intros <-. exists r, r. split; [reflexivity | exact Hsame]. }
  destruct (Reader.bufferEmpty r && negb (Reader.error r) && negb (Reader.eof r)).
  { intros <-. eexists r, _. split; reflexivity. }
  unfold readData_locked. destruct (Reader.bufferEmpty r).
  { intros <-. eexists r, _. split; reflexivity. }
  destruct (Reader.readData r _) as [[n data] r'].
  intros <-. eexists r, _. split; reflexivity.
Qed.

Lemma writeData_shape (d : KDPipeIODevice.t) (data : list ascii) (size : Z)
    (o : outcome) :
  writeData d data size = o ->
  match o with
  | Returned _ _ d' | Blocked d' _ _ =>
      exists w w', writer d = Some w
                   /\ d' = set_writer (Some w') (startWriterThread d)
  | Undefined => writer d = None
  end.
Proof.
  unfold writeData. cbn [startWriterThread writer].
  destruct (writer d) as [w|] eqn:Hw; [|intros <-; reflexivity].
  assert (Hsame : startWriterThread d = set_writer (Some w) (startWriterThread d)).
  { unfold set_writer, startWriterThread. cbn. rewrite Hw. reflexivity. }
  destruct (negb (Writer.error w) && negb (Writer.bufferEmpty w)).
  { intros <-. exists w, w. split; [reflexivity | exact Hsame]. }
  destruct (Writer.error w).
  { intros <-. exists w, w. split; [reflexivity | exact Hsame]. }
  destruct (Writer.writeData w data size) as [n w'].
  intros <-. eexists w, _. split; reflexivity.
Qed.

Lemma call_checks (d d' : KDPipeIODevice.t) :
  checks win32 d -> call win32 d d' -> checks win32 d'.
Proof.
  intros Hc Hcall.
  destruct Hcall as [d fd_ handle_ mode_|d|d|d|d
                    |d maxSize ret data d' Hread|d maxSize d' m old Hread
                    |d data size ret out d' Hwrite|d data size d' m old Hwrite
                    |d r r' Hr|d w w' Hw].
  - destruct (doOpen_cases d fd_ handle_ mode_) as [E|(Hopen & Hinv & Hm & E)];
      rewrite E; cbn [snd]; [exact Hc|].
    unfold checks. rewrite isOpen_lor_Unbuffered. cbn [openMode reader writer fd handle].
    split; [intros E'; apply Z.lor_eq_0_iff in E' as [_ E']; discriminate|].
    rewrite !land_lor_Unbuffered by (unfold ReadWrite, ReadOnly, WriteOnly; lia).
    split; [exact Hm|].
    split; [intros H; apply Z.eqb_neq in H; rewrite H; cbn; eauto|].
    split; [intros H; apply Z.eqb_neq in H; rewrite H; cbn; eauto|].
    unfold invalid_descriptor in Hinv. destruct win32; [exact Hinv | lia].
  - unfold close. destruct (isOpen d) eqn:Hopen; cbn [negb]; [|exact Hc].
    unfold checks. cbn. repeat split. destruct win32; [reflexivity | lia].
  - unfold bytesAvailable.
    destruct (negb (triedToStartReader d)); cbn [snd].
    + revert Hc. apply checks_ext; reflexivity.
    + destruct (reader d); exact Hc.
  - revert Hc. apply checks_ext; reflexivity.
  - revert Hc. apply checks_ext; reflexivity.
  - apply readData_shape in Hread as (r & r' & Hr & ->).
    revert Hc. apply checks_ext; try reflexivity.
    cbn. rewrite Hr. split; eauto.
  - apply readData_shape in Hread as (r & r' & Hr & ->).
    revert Hc. apply checks_ext; try reflexivity.
    cbn. rewrite Hr. split; eauto.
  - apply writeData_shape in Hwrite as (w & w' & Hw & ->).
    revert Hc. apply checks_ext; try reflexivity.
    cbn. rewrite Hw. split; eauto.
  - apply writeData_shape in Hwrite as (w & w' & Hw & ->).
    revert Hc. apply checks_ext; try reflexivity.
    cbn. rewrite Hw. split; eauto.
  - revert Hc. apply checks_ext; try reflexivity.
    cbn. rewrite Hr. split; eauto.
  - revert Hc. apply checks_ext; try reflexivity.
    cbn. rewrite Hw. split; eauto.
Qed.

Lemma call_keeps_tried (d d' : KDPipeIODevice.t) :
  call win32 d d' ->
  (triedToStartReader d = true -> triedToStartReader d' = true)
  /\ (triedToStartWriter d = true -> triedToStartWriter d' = true).
Proof.
  intros Hcall.
  destruct Hcall as [d fd_ handle_ mode_|d|d|d|d
                    |d maxSize ret data d' Hread|d maxSize d' m old Hread
                    |d data size ret out d' Hwrite|d data size d' m old Hwrite
                    |d r r' Hr|d w w' Hw].
  - destruct (doOpen_cases d fd_ handle_ mode_) as [E|(_ & _ & _ & E)];
      rewrite E; cbn; auto.
  - unfold close. destruct (negb (isOpen d)); cbn; auto.
  - unfold bytesAvailable.
    destruct (negb (triedToStartReader d)); cbn [snd]; [cbn; auto|].
    destruct (reader d); cbn; auto.
  - cbn; auto.
  - cbn; auto.
  - apply readData_shape in Hread as (r & r' & Hr & ->). cbn; auto.
  - apply readData_shape in Hread as (r & r' & Hr & ->). cbn; auto.
  - apply writeData_shape in Hwrite as (w & w' & Hw & ->). cbn; auto.
  - apply writeData_shape in Hwrite as (w & w' & Hw & ->). cbn; auto.
  - cbn; auto.
  - cbn; auto.
Qed.

(** X21.  The class invariant: every device reached from a freshly
    constructed one by the member functions and the worker threads
    satisfies the assertions of [KDAB_DEFINE_CHECKS].  A closed device
    has no Reader, no Writer and no descriptor; an open one has a mode
    with a direction, the worker of each direction of its mode, and a
    valid descriptor. *)
Theorem device_checks_hold (d : KDPipeIODevice.t) :
  rtc (call win32) KDPipeIODevice.new d -> checks win32 d.
Proof.
  revert d. apply (rtc_ind_r (fun d => checks win32 d) KDPipeIODevice.new).
  - apply checks_new.
  - intros d1 d2 _ Hcall Hc. eapply call_checks; eassumption.
Qed.

(** X22.  The Reader thread is started by the first call that reaches
    [startReaderThread] and by no later one.  When that call came before
    the device was opened for reading (or before it was closed and
    opened again), the Reader created by [doOpen] is never started: no
    call starts it, and [readData] on the new, empty Reader puts the
    caller to sleep. *)
Theorem reader_thread_started_once
    (d d1 d2 : KDPipeIODevice.t) (fd_ handle_ mode_ : Z) :
  triedToStartReader d = true ->
  rtc (call win32) d d1 ->
  doOpen win32 d1 fd_ handle_ mode_ = (true, d2) ->
  Z.land mode_ ReadOnly <> 0 ->
  reader d2 = Some (Reader.new fd_ handle_)
  /\ (forall d3 idle, rtc (call win32) d2 d3 ->
        startReaderThread_starts idle d3 = false)
  /\ (forall n, exists d3 m, readData d2 n = Blocked d3 m false).
Proof.
  intros Htried Hpath Hopen Hmode.
  assert (Htried1 : triedToStartReader d1 = true).
  { clear Hopen. revert d1 Hpath.
    apply (rtc_ind_r (fun d1 => triedToStartReader d1 = true) d); [exact Htried|].
    intros x y _ Hcall Hx. apply (call_keeps_tried x y Hcall), Hx. }
  destruct (doOpen_cases d1 fd_ handle_ mode_) as [E|(_ & _ & _ & E)];
    rewrite E in Hopen; [discriminate|].
  injection Hopen as <-.
  apply Z.eqb_neq in Hmode. rewrite Hmode. cbn [negb].
  split; [reflexivity|]. split.
  - intros d3 idle Hpath3.
    assert (Htried3 : triedToStartReader d3 = true).
    { revert d3 Hpath3.
      apply (rtc_ind_r (fun d3 => triedToStartReader d3 = true) _); [exact Htried1|].
      intros x y _ Hcall Hx. apply (call_keeps_tried x y Hcall), Hx. }
    unfold startReaderThread_starts. rewrite Htried3. reflexivity.
  - intros n. unfold readData.
    cbn [startReaderThread reader]. cbn [Reader.new Reader.eofShortCut].
    change (Reader.bufferEmpty _) with true.
    cbn [Reader.error Reader.eof Reader.consumerBlocksOnUs negb andb].
    eexists _, _. reflexivity.
Qed.

End DeviceLife.

(** ** Sample runs of the pipe device *)

Section Witnesses.
Import Reader KDPipeIODevice ReadSide.

Lemma history_after_read (d : KDPipeIODevice.t) (c : consumer)
    (r r1 : Reader.t) (n : Z) (res : os_read) (produced consumed : list ascii) :
  history (State d None c) produced consumed ->
  reader d = Some r -> run_prepare r = Some (r1, n) -> os_read_ok n res ->
  history (State (Sample.after_read res d) None c)
          (produced ++ (if numRead res >? 0 then bytesRead res else []))%list
          consumed.
Proof.
  intros Hh Hr Hprep Hres. unfold Sample.after_read. rewrite Hr, Hprep.
  pose proof (history_step _ _ _ _ _ _ Hh
                (moved_reader_issues_read d r r1 n c Hr Hprep)) as H1.
  pose proof (history_step _ _ _ _ _ _ H1
                (moved_reader_read_returns (set_reader (Some r1) d) r1 n res c
                   eq_refl Hres)) as H2.
  rewrite !app_nil_r in H2. exact H2.
Qed.

Lemma history_after_consume (d d' : KDPipeIODevice.t) (p : option Z)
    (maxSize ret : Z) (data produced consumed : list ascii) :
  history (State d p Idle) produced consumed ->
  readData d maxSize = Returned ret data d' ->
  history (State (Sample.after_consume maxSize d) p Idle)
          produced (consumed ++ data)%list.
Proof.
  intros Hh Hread. unfold Sample.after_consume. rewrite Hread.
  replace produced with (produced ++ [])%list by apply app_nil_r.
  eapply history_step; [exact Hh|].
  eapply moved_consumer_reads. exact Hread.
Qed.

Lemma history_partly_read :
  history (State Sample.partly_read_device None Idle)
          (Sample.letters 3) (Sample.letters 2).
Proof.
  unfold Sample.partly_read_device.
  change (Sample.letters 2) with ([] ++ Sample.letters 2)%list.
  eapply history_after_consume with (ret := 2).
  - change (Sample.letters 3)
      with ([] ++ (if numRead (Sample.os_data 3) >? 0
                   then bytesRead (Sample.os_data 3) else []))%list.
    eapply history_after_read with (r := Reader.new 3 0) (n := 4096).
    + apply (history_initial 3 ReadOnly). reflexivity.
    + reflexivity.
    + reflexivity.
    + apply os_data_ok. lia.
  - vm_compute. reflexivity.
Qed.

Lemma stream_is_kept_witness :
  history (State Sample.partly_read_device None Idle)
          (Sample.letters 3) (Sample.letters 2)
  /\ reader Sample.partly_read_device
     = Some (Sample.reader_of Sample.partly_read_device)
  /\ Sample.letters 3
     = (Sample.letters 2
        ++ contents (Sample.reader_of Sample.partly_read_device))%list.
Proof.
  split; [exact history_partly_read|].
  split; [reflexivity|].
  exact (stream_is_kept (State Sample.partly_read_device None Idle)
           (Sample.letters 3) (Sample.letters 2)
           (Sample.reader_of Sample.partly_read_device)
           history_partly_read eq_refl).
Defined.

Lemma latched_is_final_witness :
  reachable (State Sample.failed_device None Idle)
  /\ (eof (Sample.reader_of Sample.failed_device)
      || error (Sample.reader_of Sample.failed_device)) = true
  /\ exists r',
       reader (Sample.after_consume 1 Sample.failed_device) = Some r'
       /\ error r' = error (Sample.reader_of Sample.failed_device).
Proof.
  split; [exact reachable_failed|].
  split; [reflexivity|].
  destruct (latched_is_final (State Sample.failed_device None Idle)
              (State (Sample.after_consume 1 Sample.failed_device) None Idle)
              (Sample.reader_of Sample.failed_device))
    as (r' & Hr' & _ & Herr & _).
  - exact reachable_failed.
  - apply rtc_once.
    apply (consumer_reads Sample.failed_device None 1 (-1) []
             (Sample.after_consume 1 Sample.failed_device)).
    vm_compute. reflexivity.
  - reflexivity.
  - reflexivity.
  - exists r'. split; [exact Hr' | exact Herr].
Defined.

Lemma readWouldBlock_predicts_readData_witness :
  readable Sample.read_device (Reader.new 3 0)
  /\ readWouldBlock Sample.read_device = Some true
  /\ exists d' m old, readData Sample.read_device 16 = Blocked d' m old.
Proof.
  split; [exact readable_initial|].
  split; [reflexivity|].
  apply (proj1 (readWouldBlock_predicts_readData Sample.read_device
                  (Reader.new 3 0) 16 readable_initial)).
  reflexivity.
Defined.

Lemma writeWouldBlock_predicts_writeData_witness :
  writer Sample.write_device = Some (Writer.new 4 0)
  /\ writeWouldBlock Sample.write_device = Some false
  /\ exists ret out d',
       writeData Sample.write_device (Sample.letters 5) 5 = Returned ret out d'.
Proof.
  split; [reflexivity|].
  split; [reflexivity|].
  apply (proj1 (proj1 (proj2 (writeWouldBlock_predicts_writeData Sample.write_device
                  (Writer.new 4 0) (Sample.letters 5) 5 0 eq_refl)))).
  reflexivity.
Defined.

Lemma line_device_facts :
  reader Sample.line_device = Some (Sample.reader_of Sample.line_device)
  /\ rptr (Sample.reader_of Sample.line_device) = 4095
  /\ wptr (Sample.reader_of Sample.line_device) = 1
  /\ contents (Sample.reader_of Sample.line_device)
     = ["a"%char; "x"%char; "010"%char].
Proof.
  vm_compute. repeat split.
Qed.

Lemma canReadLine_iff_line_feed_buffered_witness :
  reader Sample.line_device = Some (Sample.reader_of Sample.line_device)
  /\ ptrs_ok (Sample.reader_of Sample.line_device)
  /\ contents (Sample.reader_of Sample.line_device)
     = ["a"%char; "x"%char; "010"%char]
  /\ canReadLine false Sample.line_device = true.
Proof.
  destruct line_device_facts as (Hr & Hrptr & Hwptr & Hc).
  assert (Hok : ptrs_ok (Sample.reader_of Sample.line_device)).
  { unfold ptrs_ok, sizeof_buffer, BUFFER_SIZE. rewrite Hrptr, Hwptr. lia. }
  split; [exact Hr|]. split; [exact Hok|]. split; [exact Hc|].
  apply (proj2 (canReadLine_iff_line_feed_buffered Sample.line_device
                  (Sample.reader_of Sample.line_device) false Hr Hok)).
  right. rewrite Hc. right. right. left. reflexivity.
Defined.

Lemma os_chunks_ok (k : nat) (off cnt : Z) :
  0 < cnt -> os_write_ok cnt (Sample.os_chunks k off cnt).
Proof. intros H. right. unfold Sample.os_chunks. cbn [numWritten]. lia. Qed.

Lemma written_bytes_reach_os_witness :
  0 < 5000 <= Z.of_nat (length (Sample.letters 5000))
  /\ exists d' w,
       writeData Sample.write_device (Sample.letters 5000) 5000
       = Returned 4096 [] d'
       /\ writer d' = Some w
       /\ exists sent w' signalled,
            Writer.run_write Sample.os_chunks 4096 0 w 0
            = Some (sent, w', signalled)
            /\ Writer.bufferEmpty w' = true.
Proof.
  assert (Hsize : 0 < 5000 <= Z.of_nat (length (Sample.letters 5000))).
  { unfold Sample.letters. rewrite repeat_length. lia. }
  split; [exact Hsize|].
  assert (Hwrite : exists d',
             writeData Sample.write_device (Sample.letters 5000) 5000
             = Returned 4096 [] d').
  { eexists. vm_compute. reflexivity. }
  destruct Hwrite as (d' & Hwrite).
  destruct (written_bytes_reach_os Sample.os_chunks Sample.write_device d'
              (Sample.letters 5000) [] 5000 4096 Hsize
              (fun k off cnt H => os_chunks_ok k off cnt H) Hwrite)
    as (w & Hw & _ & Hrun & Hend); [lia|].
  exists d', w. split; [exact Hwrite|]. split; [exact Hw|].
  destruct Hend as [[[sent w'] signalled] E].
  { intros k off cnt Hcnt. unfold Sample.os_chunks. cbn [numWritten]. lia. }
  exists sent, w', signalled. split; [exact E|].
  apply (Hrun _ _ _ _ E).
Defined.

Lemma device_checks_hold_witness :
  rtc (call false) KDPipeIODevice.new Sample.read_device
  /\ checks false Sample.read_device.
Proof.
  assert (Hpath : rtc (call false) KDPipeIODevice.new Sample.read_device).
  { apply rtc_once. apply (call_doOpen false KDPipeIODevice.new 3 0 ReadOnly). }
  split; [exact Hpath|].
  exact (device_checks_hold false Sample.read_device Hpath).
Defined.

Lemma reader_thread_started_once_witness :
  triedToStartReader Sample.probed_device = true
  /\ doOpen false Sample.probed_device 3 0 ReadOnly
     = (true, snd (doOpen false Sample.probed_device 3 0 ReadOnly))
  /\ Z.land ReadOnly ReadOnly <> 0
  /\ reader (snd (doOpen false Sample.probed_device 3 0 ReadOnly))
     = Some (Reader.new 3 0)
  /\ startReaderThread_starts true
       (snd (doOpen false Sample.probed_device 3 0 ReadOnly)) = false.
Proof.
  assert (Hmode : Z.land ReadOnly ReadOnly <> 0) by discriminate.
  split; [reflexivity|]. split; [reflexivity|]. split; [exact Hmode|].
  destruct (reader_thread_started_once false Sample.probed_device
              Sample.probed_device
              (snd (doOpen false Sample.probed_device 3 0 ReadOnly))
              3 0 ReadOnly eq_refl (rtc_refl _ _) eq_refl Hmode)
    as (Hr & Hnever & _).
  split; [exact Hr|].
  apply Hnever. apply rtc_refl.
Defined.

End Witnesses.
